(** * gym-cyber_attack: the attack engine and its address space

    A shallow embedding of [gym_cyber_attack/envs/cyber_attack_spaces.py]
    and [gym_cyber_attack/envs/cyber_attack_env.py] (Python 3 semantics),
    and the properties of the engine: the soft-fail path, exploits, belief
    revision, reachability, monotonicity, service configurations, goal
    detection, determinism, returned snapshots and [AddressSpace.contains];
    then the address space in closed form, the invariants of a constructed
    engine, invalid actions, rewards, winning sequences, sampling, the
    constructor, episodes and [render].

    Conventions of the embedding.
    - A Python [dict]/[OrderedDict] keyed by addresses is a [gmap]; the
      fixed-key inner dicts (["services"], ["compromised"], ...) are records.
      Only [render] depends on the iteration order of a dict; it takes
      the order from the address space ([state_items]).
    - Python objects that are mutated in place and handed out to callers
      (the belief state) live in a store, and the engine holds a reference
      into it, so that aliasing between the engine and its callers is
      visible. A belief state with its inner dicts and arrays is one cell
      of the store: inner objects are created by [gen_initial_state] and
      [copy.deepcopy] only, so two belief states share all of them or none.
      [ReferenceError] stands for the use of a reference that is not in
      the store; it does not occur for an engine built by the constructor.
    - A method that can raise returns an [outcome]; a method that mutates
      runs in the state-and-exception monad [SE], in which the mutations
      made before an exception persist, as they do in Python.
    - The rewards are the floats 0, 10.0, 5000.0 and 9000.0 and their
      differences; these are integers far below 2^53 on which float
      arithmetic is exact, so rewards are modelled in [Z].
    - The sizes [nM] and [nS] are natural numbers; addresses and action
      kinds are integers, indexed the way Python indexes ([py_index]).
    - numpy's random generator is a parameter ([NumpyRandom]), and so is
      the generator of gym's [spaces] module ([SpacesRandom]).
    - The base class written [gym.Spaces] in [CAObservationSpace] is read
      as [gym.Space]; nothing of the base classes is used. *)

From Stdlib Require Import ZArith Lia.
From stdpp Require Import gmap list fin_maps sorting strings pretty.

Local Open Scope Z_scope.
#[local] Set Warnings "-clear-no-such-hyp".

(** ** Exceptions and the state-and-exception monad *)

Inductive exn :=
| KeyError
| IndexError
| AssertionError
| TypeError
| ValueError
| ReferenceError.

Inductive outcome (A : Type) :=
| Ok (a : A)
| Raise (e : exn).
Arguments Ok {A} a.
Arguments Raise {A} e.

(** A computation over a mutable state [S]: the state after the call is
    returned whether or not the call raised. *)
Definition SE (S A : Type) : Type := S → S * outcome A.

Definition se_ret {S A} (a : A) : SE S A := λ s, (s, Ok a).
Definition se_bind {S A B} (m : SE S A) (k : A → SE S B) : SE S B :=
  λ s, match m s with
       | (s', Ok a) => k a s'
       | (s', Raise e) => (s', Raise e)
       end.
Definition se_lift {S A} (o : outcome A) : SE S A := λ s, (s, o).

Declare Scope se_scope.
Delimit Scope se_scope with se.
Notation "'do' x <- m ; k" := (se_bind m (fun x => k))
  (at level 10, x pattern, m at level 100, k at level 200) : se_scope.
Notation "m ;;; k" := (se_bind m (fun _ => k))
  (at level 100, k at level 200, right associativity) : se_scope.

(** Python indexing of a sequence of length [len] by an integer: negative
    indices count from the end, and anything else out of range raises. *)
Definition py_index (len : nat) (i : Z) : outcome nat :=
  if decide (0 ≤ i < Z.of_nat len) then Ok (Z.to_nat i)
  else if decide (- Z.of_nat len ≤ i < 0) then Ok (Z.to_nat (i + Z.of_nat len))
  else Raise IndexError.

(** ** cyber_attack_spaces.py: AddressSpace *)

Definition Address : Type := Z * Z.

(** Tuple order on addresses, as used by [list.sort] and [bisect]. *)
Definition addr_le (a b : Address) : Prop :=
  a.1 < b.1 ∨ (a.1 = b.1 ∧ a.2 ≤ b.2).

Global Instance addr_le_dec a b : Decision (addr_le a b).
Proof. unfold addr_le. apply _. Defined.

(** One iteration of the loop of [generate_address_space]; the loop state
    is [(addresses, s_id, u_id)]. *)
Definition generate_step (acc : list Address * Z * Z) (m : nat)
  : list Address * Z * Z :=
  let '(addresses, s_id, u_id) := acc in
  if (m =? 0)%nat then (addresses ++ [(0, 0)], s_id, u_id)
  else if (m mod 10 =? 1)%nat then (addresses ++ [(1, s_id)], s_id + 1, u_id)
  else (addresses ++ [(2, u_id)], s_id, u_id + 1).

Definition generate_address_space (nM : nat) : outcome (list Address) :=
  if decide (2 < nM)%nat then
    let '(addresses, _, _) := fold_left generate_step (seq 0 nM) ([], 0, 0) in
    Ok (merge_sort addr_le addresses)
  else Raise AssertionError.

(** The Python values [contains] may be handed. *)
#[warnings="-register-all"]
Inductive PyVal :=
| PyInt (z : Z)
| PyNone
| PyTuple (l : list PyVal)
| PyList (l : list PyVal).

(** [a == v] and [a < v] for an integer [a]: equality with a value of
    another type is [False], ordering against it raises [TypeError]. *)
Definition int_eq_py (a : Z) (v : PyVal) : bool :=
  match v with PyInt z => a =? z | _ => false end.

Definition int_lt_py (a : Z) (v : PyVal) : outcome bool :=
  match v with PyInt z => Ok (a <? z) | _ => Raise TypeError end.

(** [a < (x0, x1)] and [a == (x0, x1)] for an address [a]: tuples compare
    at the first position where they differ. *)
Definition addr_lt_py (a : Address) (x0 x1 : PyVal) : outcome bool :=
  if negb (int_eq_py a.1 x0) then int_lt_py a.1 x0
  else if negb (int_eq_py a.2 x1) then int_lt_py a.2 x1
  else Ok false.

Definition addr_eq_py (a : Address) (x0 x1 : PyVal) : bool :=
  int_eq_py a.1 x0 && int_eq_py a.2 x1.

(** [bisect.bisect_left(a, x)]: the loop
    [while lo < hi: mid = (lo + hi) // 2; if a[mid] < x: lo = mid + 1 else: hi = mid].
    Every iteration shrinks [hi - lo], so [hi - lo] iterations are enough
    (see [bisect_loop_fuel]); [bisect_left] starts it with that many. *)
Fixpoint bisect_loop (fuel : nat) (a : list Address) (x0 x1 : PyVal)
    (lo hi : nat) : outcome nat :=
  match fuel with
  | O => Ok lo
  | S fuel' =>
      if decide (lo < hi)%nat then
        let mid := ((lo + hi) / 2)%nat in
        match a !! mid with
        | None => Raise IndexError
        | Some am =>
            match addr_lt_py am x0 x1 with
            | Raise e => Raise e
            | Ok true => bisect_loop fuel' a x0 x1 (mid + 1)%nat hi
            | Ok false => bisect_loop fuel' a x0 x1 lo mid
            end
        end
      else Ok lo
  end.

Definition bisect_left (a : list Address) (x0 x1 : PyVal) : outcome nat :=
  bisect_loop (length a) a x0 x1 0%nat (length a).

(** [AddressSpace.contains], for the space [space] stored by [__init__]. *)
Definition contains (space : list Address) (x : PyVal) : outcome bool :=
  let x := match x with PyList l => PyTuple l | _ => x end in
  match x with
  | PyTuple [x0; x1] =>
      match bisect_left space x0 x1 with
      | Raise e => Raise e
      | Ok i =>
          match space !! i with
          | None => Raise IndexError
          | Some a => Ok (addr_eq_py a x0 x1)
          end
      end
  | _ => Ok false
  end.

(** ** Shared data model (both source files) *)

(** Service states: [UNKNOWN = 0], [PRESENT = 1], [ABSENT = 2]. *)
Inductive ServiceState := UNKNOWN | PRESENT | ABSENT.

Global Instance ServiceState_eq_dec : EqDecision ServiceState.
Proof. solve_decision. Defined.

(** The belief record of one machine: the inner [OrderedDict] with keys
    ["services"], ["compromised"], ["sensitive"], ["reachable"]. The code
    stores [1] for a compromised machine and [True]/[False] elsewhere; only
    truthiness is ever read, so the fields are booleans. *)
Record MachineState := mkMachineState {
  services : list ServiceState;
  compromised : bool;
  sensitive : bool;
  reachable : bool
}.

(** A ground-truth machine: [{"services": m_cfg, "value": m_value}]. *)
Record Machine := mkMachine {
  m_services : list bool;
  m_value : Z
}.

Abbreviation Belief := (gmap Address MachineState).
Abbreviation Network := (gmap Address Machine).

(** The store of belief-state objects; a reference is an index into it. *)
Abbreviation loc := nat (only parsing).
Abbreviation heap := (list Belief) (only parsing).

(** ** cyber_attack_spaces.py: CAObservationSpace *)

Record CAObservationSpace := mkObservationSpace {
  os_nM : nat;
  os_nS : nat;
  address_space : list Address;
  initial_observation : Belief
}.

(** [gen_initial_state]: one record per address, inserted in order. *)
Definition initial_machine_state (nS : nat) (m : Address) : MachineState :=
  let services := replicate nS UNKNOWN in
  let compromised := false in
  if m.1 =? 0 then
    mkMachineState services compromised false true
  else
    mkMachineState services compromised (m.2 mod 10 =? 0) false.

Definition gen_initial_state (space : list Address) (nS : nat) : Belief :=
  fold_left (λ init_state m, <[m := initial_machine_state nS m]> init_state)
            space ∅.

Definition CAObservationSpace_init (nM nS : nat) : outcome CAObservationSpace :=
  if decide (2 < nM)%nat then
    if decide (0 < nS)%nat then
      match generate_address_space nM with
      | Raise e => Raise e
      | Ok space => Ok (mkObservationSpace nM nS space (gen_initial_state space nS))
      end
    else Raise AssertionError
  else Raise AssertionError.

(** [CAActionSpace.__init__] only checks its arguments and builds an
    [AddressSpace]; the engine never reads it afterwards. *)
Definition CAActionSpace_init (nM nS : nat) : outcome unit :=
  if decide (2 < nM)%nat then
    if decide (0 < nS)%nat then
      match generate_address_space nM with
      | Raise e => Raise e
      | Ok _ => Ok tt
      end
    else Raise AssertionError
  else Raise AssertionError.

(** [get_initial_state]: a deep copy of the template, i.e. a new object in
    the store. *)
Definition get_initial_state (os : CAObservationSpace) : SE heap loc :=
  λ h, (h ++ [initial_observation os], Ok (length h)).

(** ** cyber_attack_env.py *)

Definition SCAN : Z := 0.
Definition R_SENSITIVE : Z := 9000.
Definition R_USER : Z := 5000.
Definition COST_EXPLOIT : Z := 10.
Definition COST_SCAN : Z := 10.

(** An action: [{"target": (subnet, id), "action": kind}]. *)
Record Action := mkAction {
  a_target : Address;
  a_action : Z
}.

(** The [info] dict returned by [step]; it is always empty. *)
Abbreviation Info := (gmap string Z) (only parsing).

(** [permutations(n)]: the loop appends [[True] + p] and [[False] + p] for
    every [p] of [permutations(n - 1)], in order. *)
Fixpoint permutations (n : nat) : list (list bool) :=
  match n with
  | O => []
  | S n' =>
      match n' with
      | O => [[true]; [false]]
      | S _ => permutations n' ≫= λ p, [true :: p; false :: p]
      end
  end.

(** The engine object. [current_state] is a reference: the belief state
    itself is the object it points to in the store. *)
Record CyberAttackEnv := mkEnv {
  nM : nat;
  nS : nat;
  observation_space : CAObservationSpace;
  network : Network;
  sensitive_machines : list Address;
  current_state : loc
}.

(** Run a computation on the object [l] refers to, in place. *)
Definition with_object {A} (l : loc) (m : SE Belief A) : SE heap A :=
  λ h, match h !! l with
       | None => (h, Raise ReferenceError)
       | Some b => let '(b', r) := m b in (<[l := b']> h, r)
       end.

(** [copy.deepcopy(obj)]: a new object with the same contents. *)
Definition deepcopy (l : loc) : SE heap loc :=
  λ h, match h !! l with
       | None => (h, Raise ReferenceError)
       | Some b => (h ++ [b], Ok (length h))
       end.

(** [d[m]] on a dict. *)
Definition getitem {V} (d : gmap Address V) (m : Address) : outcome V :=
  match d !! m with
  | Some v => Ok v
  | None => Raise KeyError
  end.

Definition read_machine (m : Address) : SE Belief MachineState :=
  λ b, (b, getitem b m).

(** [self.current_state[target]["services"][i] = v] through the alias
    [target_state]; [i] is a Python index. *)
Definition set_service (target : Address) (i : Z) (v : ServiceState)
  : SE Belief unit :=
  λ b, match b !! target with
       | None => (b, Raise KeyError)
       | Some st =>
           match py_index (length (services st)) i with
           | Raise e => (b, Raise e)
           | Ok n =>
               (<[target := mkMachineState (<[n := v]> (services st))
                              (compromised st) (sensitive st) (reachable st)]> b,
                Ok tt)
           end
       end.

Definition set_compromised (target : Address) : SE Belief unit :=
  λ b, match b !! target with
       | None => (b, Raise KeyError)
       | Some st =>
           (<[target := mkMachineState (services st) true
                          (sensitive st) (reachable st)]> b, Ok tt)
       end.

Definition set_reachable (v : MachineState) : MachineState :=
  mkMachineState (services v) (compromised v) (sensitive v) true.

(** [_take_action]. *)
Definition _take_action (self : CyberAttackEnv) (action : Action)
  : outcome (bool * Z * list bool) :=
  let target := a_target action in
  match getitem (network self) target with
  | Raise e => Raise e
  | Ok machine =>
      let target_services := m_services machine in
      if a_action action =? SCAN then Ok (true, 0, target_services)
      else
        match py_index (length target_services) (a_action action - 1) with
        | Raise e => Raise e
        | Ok i =>
            if default false (target_services !! i)
            then Ok (true, m_value machine, target_services)
            else Ok (false, 0, [])
        end
  end.

(** [_update_reachable]. *)
Definition _update_reachable (target : Address) : SE Belief unit :=
  λ b, if target.1 =? 0 then (set_reachable <$> b, Ok tt) else (b, Ok tt).

(** The loop [for i, s in enumerate(services): target_state[i] = ...]. *)
Fixpoint reveal_services (target : Address) (i : nat) (services : list bool)
  : SE Belief unit :=
  match services with
  | [] => se_ret tt
  | s :: rest =>
      (set_service target (Z.of_nat i) (if s then PRESENT else ABSENT) ;;;
       reveal_services target (S i) rest)%se
  end.

(** [_update_state]. *)
Definition _update_state (action : Action) (success : bool)
    (services : list bool) : SE Belief unit :=
  let target := a_target action in
  (do _ <- read_machine target;
   if negb success then
     set_service target (a_action action - 1) ABSENT
   else
     reveal_services target 0 services ;;;
     if negb (a_action action =? SCAN) then
       set_compromised target ;;; _update_reachable target
     else se_ret tt)%se.

(** [is_goal]. *)
Fixpoint is_goal_loop (ms : list Address) : SE Belief bool :=
  match ms with
  | [] => se_ret true
  | m :: rest =>
      (do st <- read_machine m;
       if negb (compromised st) then se_ret false else is_goal_loop rest)%se
  end.

Definition is_goal (self : CyberAttackEnv) : SE Belief bool :=
  is_goal_loop (sensitive_machines self).

(** [reset]: rebinds [self.current_state] to a new copy of the template and
    returns that same reference. *)
Definition reset (self : CyberAttackEnv) : SE heap (CyberAttackEnv * loc) :=
  (do l <- get_initial_state (observation_space self);
   let self' := mkEnv (nM self) (nS self) (observation_space self)
                      (network self) (sensitive_machines self) l in
   se_ret (self', current_state self'))%se.

(** [step]: returns [(observation, reward, done, info)]. *)
Definition step (self : CyberAttackEnv) (action : Action)
  : SE heap (loc * Z * bool * Info) :=
  let target := a_target action in
  let action_cost := if a_action action =? SCAN then COST_SCAN else COST_EXPLOIT in
  (do st <- with_object (current_state self) (read_machine target);
   if negb (reachable st) || compromised st then
     se_ret (current_state self, 0 - action_cost, false, ∅)
   else
     do (success, value, services) <- se_lift (_take_action self action);
     with_object (current_state self) (_update_state action success services) ;;;
     do done <- with_object (current_state self) (is_goal self);
     let reward := value - action_cost in
     do l <- deepcopy (current_state self);
     se_ret (l, reward, done, ∅))%se.

(** *** Network construction *)

(** numpy's global random generator is not part of this repository; the
    engine uses it through [np.random.seed] and [np.random.choice] only.
    [np_random_choice n] is the draw of [np.random.choice(n)] for [n > 0]. *)
Class NumpyRandom := {
  rng_state : Type;
  np_random_seed : Z → rng_state;
  np_random_choice : nat → rng_state → rng_state * nat
}.

(** What numpy documents of [np.random.choice(n)]: a value of [range(n)]. *)
Definition choice_in_range (R : NumpyRandom) : Prop :=
  ∀ n g, (0 < n)%nat → ((np_random_choice n g).2 < n)%nat.

(** A [for] loop threading an accumulator through the monad. *)
Fixpoint for_each {S A B} (body : A → B → SE S A) (l : list B) (acc : A)
  : SE S A :=
  match l with
  | [] => se_ret acc
  | x :: l' => (do acc' <- body acc x; for_each body l' acc')%se
  end.

Section Construction.
Context {R : NumpyRandom}.

Definition random_seed (seed : Z) : SE rng_state unit :=
  λ _, (np_random_seed seed, Ok tt).

(** [np.random.choice(n)] raises [ValueError] unless [n > 0]. *)
Definition random_choice (n : nat) : SE rng_state nat :=
  λ g, if decide (0 < n)%nat
       then let '(g', i) := np_random_choice n g in (g', Ok i)
       else (g, Raise ValueError).

(** The body of the loop of [_construct_network]; the loop state is
    [(network, sensitive_machines)]. *)
Definition construct_machine (configs : list (list bool))
    (acc : Network * list Address) (m : Address)
  : SE rng_state (Network * list Address) :=
  let '(network, sensitive_machines) := acc in
  (do i <- random_choice (length configs);
   do m_cfg <- se_lift (match configs !! i with
                        | Some c => Ok c
                        | None => Raise IndexError
                        end);
   let '(m_value, sensitive_machines) :=
     if m.2 mod 10 =? 0 then
       if m.1 =? 1 then (R_SENSITIVE, sensitive_machines ++ [m])
       else if m.1 =? 2 then (R_USER, sensitive_machines ++ [m])
       else (0, sensitive_machines)
     else (0, sensitive_machines) in
   se_ret (<[m := mkMachine m_cfg m_value]> network, sensitive_machines))%se.

(** The candidate configurations: [permutations(nS)[:-1]]. *)
Definition service_configs (nS : nat) : list (list bool) :=
  removelast (permutations nS).

Definition _construct_network (nM nS : nat)
  : SE rng_state (Network * list Address) :=
  (random_seed 1 ;;;
   let configs := service_configs nS in
   do space <- se_lift (generate_address_space nM);
   for_each (construct_machine configs) space (∅, []))%se.

(** The process state: the global generator and the object store. *)
Definition on_rng {A} (m : SE rng_state A) : SE (rng_state * heap) A :=
  λ w, let '(g', r) := m w.1 in ((g', w.2), r).

Definition on_heap {A} (m : SE heap A) : SE (rng_state * heap) A :=
  λ w, let '(h', r) := m w.2 in ((w.1, h'), r).

(** [CyberAttackEnv.__init__]. [current_state] is unbound until [reset]
    binds it; the record carries a placeholder until then. *)
Definition CyberAttackEnv_init (nM nS : nat)
  : SE (rng_state * heap) CyberAttackEnv :=
  (do _ <- se_lift (CAActionSpace_init nM nS);
   do os <- se_lift (CAObservationSpace_init nM nS);
   do (network, sensitive_machines) <- on_rng (_construct_network nM nS);
   do (self, _) <- on_heap (reset (mkEnv nM nS os network sensitive_machines 0));
   se_ret self)%se.
End Construction.

(** ** Drivers and examples *)

(** A concrete generator for examples: a linear congruential sequence. *)
Definition lcg_random : NumpyRandom := {|
  rng_state := Z;
  np_random_seed := λ seed, seed;
  np_random_choice := λ n g,
    let g' := (1103515245 * g + 12345) mod 2147483648 in
    (g', Z.to_nat ((g' / 65536) mod Z.of_nat n))
|}.

(** Driving an engine: the outcomes of a sequence of [step] calls, each
    call running in the store the previous one left, whatever it raised. *)
Fixpoint run (self : CyberAttackEnv) (actions : list Action) (h : heap)
  : heap * list (outcome (loc * Z * bool * Info)) :=
  match actions with
  | [] => (h, [])
  | a :: rest =>
      let '(h', r) := step self a h in
      let '(h'', rs) := run self rest h' in
      (h'', r :: rs)
  end.

Definition exploit (t : Address) (k : Z) : Action := mkAction t k.
Definition scan (t : Address) : Action := mkAction t SCAN.

Definition reward_done {A B : Type} (r : outcome (A * Z * bool * B))
  : outcome (Z * bool) :=
  match r with
  | Ok (_, reward, done, _) => Ok (reward, done)
  | Raise e => Raise e
  end.

(** Two engines driven in lock step in one process. *)
Fixpoint run2 (e1 e2 : CyberAttackEnv) (actions : list Action) (h : heap)
  : heap * list (outcome (loc * Z * bool * Info) * outcome (loc * Z * bool * Info)) :=
  match actions with
  | [] => (h, [])
  | a :: rest =>
      let '(h1, r1) := step e1 a h in
      let '(h2, r2) := step e2 a h1 in
      let '(h', rs) := run2 e1 e2 rest h2 in
      (h', (r1, r2) :: rs)
  end.

(** ** Specification vocabulary *)

(** [step] seen from the belief-state object alone: the same calls as
    [step], without the store. The first component of the result tells
    whether the precondition gate was passed. [step_on_object] relates it
    to [step]. *)
Definition step_object (self : CyberAttackEnv) (action : Action)
  : SE Belief (bool * Z * bool) :=
  let target := a_target action in
  let action_cost := if a_action action =? SCAN then COST_SCAN else COST_EXPLOIT in
  (do st <- read_machine target;
   if negb (reachable st) || compromised st then
     se_ret (false, 0 - action_cost, false)
   else
     do (success, value, services) <- se_lift (_take_action self action);
     _update_state action success services ;;;
     do done <- is_goal self;
     se_ret (true, value - action_cost, done))%se.

(** The reward and the done flag of a [step_object] outcome, and a run of
    [step_object] calls on one belief object. *)
Definition object_outcome (r : outcome (bool * Z * bool)) : outcome (Z * bool) :=
  match r with
  | Ok (_, reward, done) => Ok (reward, done)
  | Raise e => Raise e
  end.

Fixpoint run_object (self : CyberAttackEnv) (actions : list Action) (b : Belief)
  : Belief * list (outcome (Z * bool)) :=
  match actions with
  | [] => (b, [])
  | a :: rest =>
      let '(b', r) := step_object self a b in
      let '(b'', rs) := run_object self rest b' in
      (b'', object_outcome r :: rs)
  end.

(** The belief state and the ground truth describe the same machines with
    the same number of services, and the goal machines are known. *)
Definition machine_consistent (net : Network) (a : Address) (st : MachineState)
  : Prop :=
  match net !! a with
  | Some m => length (services st) = length (m_services m)
  | None => False
  end.

Global Instance machine_consistent_dec net a st :
  Decision (machine_consistent net a st).
Proof. unfold machine_consistent. destruct (net !! a); apply _. Defined.

Definition consistent (self : CyberAttackEnv) (b : Belief) : Prop :=
  map_Forall (machine_consistent (network self)) b ∧
  Forall (λ a, is_Some (b !! a)) (sensitive_machines self).

Global Instance consistent_dec self b : Decision (consistent self b).
Proof. unfold consistent. apply _. Defined.

(** How a belief state may change while the engine runs: no machine
    appears or disappears, service vectors keep their length, [sensitive]
    is kept, and [reachable] and [compromised] never go back to false. *)
Definition machine_evolves (st st' : MachineState) : Prop :=
  length (services st) = length (services st') ∧
  sensitive st = sensitive st' ∧
  (reachable st = true → reachable st' = true) ∧
  (compromised st = true → compromised st' = true).

Definition evolves (b b' : Belief) : Prop :=
  ∀ a, match b !! a, b' !! a with
       | Some st, Some st' => machine_evolves st st'
       | None, None => True
       | _, _ => False
       end.

(** A computation whose final state is always related to its initial one,
    whether it returns or raises. *)
Definition preserves {A : Type} (R : Belief → Belief → Prop) (m : SE Belief A)
  : Prop :=
  ∀ b, R b (m b).1.

(** What a service looks like once revealed. *)
Definition revealed (s : bool) : ServiceState := if s then PRESENT else ABSENT.

(** Whether service [k - 1] runs on machine [m]: what decides an exploit
    of kind [k] in [_take_action]. *)
Definition service_present (m : Machine) (k : Z) : bool :=
  default false (m_services m !! Z.to_nat (k - 1)).

(** The belief state a step leaves behind when it passes the gate, for a
    target whose belief record was [st] and whose true machine is [m]:
    after a scan, after a successful exploit and after a failed one. *)
Definition after_scan (action : Action) (b : Belief) (st : MachineState)
    (m : Machine) : Belief :=
  <[a_target action := mkMachineState (revealed <$> m_services m)
                         (compromised st) (sensitive st) (reachable st)]> b.

Definition after_exploit_success (action : Action) (b : Belief)
    (st : MachineState) (m : Machine) : Belief :=
  let b1 := <[a_target action := mkMachineState (revealed <$> m_services m)
                                   true (sensitive st) (reachable st)]> b in
  if (a_target action).1 =? 0 then set_reachable <$> b1 else b1.

Definition after_exploit_failure (action : Action) (b : Belief)
    (st : MachineState) : Belief :=
  <[a_target action :=
      mkMachineState (<[Z.to_nat (a_action action - 1) := ABSENT]> (services st))
        (compromised st) (sensitive st) (reachable st)]> b.

(** Every machine of the goal set is compromised. *)
Definition goal_reached (self : CyberAttackEnv) (b : Belief) : Prop :=
  ∀ a, a ∈ sensitive_machines self →
       ∃ st, b !! a = Some st ∧ compromised st = true.

(** The reading of [done] that takes every step's flag to be [is_goal()] of
    the belief state the step leaves. *)
Definition done_iff_goal (self : CyberAttackEnv) (action : Action) (h : heap)
  : Prop :=
  ∀ h' l reward dn b',
    step self action h = (h', Ok (l, reward, dn, ∅)) →
    h' !! current_state self = Some b' →
    (dn = true ↔ goal_reached self b').

(** The rule for value-bearing machines as the spec words it: the id is a
    multiple of 10 and the subnet is 1 or 2. It is compared below with the
    goal list the constructor builds. *)
Definition value_bearing (m : Address) : Prop :=
  m.2 mod 10 = 0 ∧ (m.1 = 1 ∨ m.1 = 2).

Global Instance value_bearing_dec m : Decision (value_bearing m).
Proof. unfold value_bearing. apply _. Defined.

(** The value of the machine at an address, as [_construct_network]
    assigns it. *)
Definition machine_value (m : Address) : Z :=
  if m.2 mod 10 =? 0 then
    if m.1 =? 1 then R_SENSITIVE else if m.1 =? 2 then R_USER else 0
  else 0.

(** The strict tuple order on addresses. *)
Definition addr_lt (a b : Address) : Prop :=
  a.1 < b.1 ∨ (a.1 = b.1 ∧ a.2 < b.2).

Global Instance addr_lt_dec a b : Decision (addr_lt a b).
Proof. unfold addr_lt. apply _. Defined.

(** A concrete engine for examples: the one the tests build, [nM = 4] and
    [nS = 1], constructed in a fresh process. *)
Definition example_start : (Z * heap) * outcome CyberAttackEnv :=
  CyberAttackEnv_init (R := lcg_random) 4 1 (0, []).

Definition example_env : CyberAttackEnv :=
  match example_start.2 with
  | Ok self => self
  | Raise _ => mkEnv 0 0 (mkObservationSpace 0 0 [] ∅) ∅ [] 0
  end.

Definition example_heap : heap := example_start.1.2.

(** The three exploits of [test_step_done]. *)
Definition three_exploits : list Action :=
  [exploit (0, 0) 1; exploit (1, 0) 1; exploit (2, 0) 1].

(** ** Vocabulary of the further properties *)

(** The number of machines [generate_address_space] puts in subnet 1 (the
    indices 1, 11, 21, ... below [nM]) and in subnet 2 (the others but
    index 0). *)
Definition subnet1_size (nM : nat) : Z := Z.of_nat ((nM + 8) / 10).
Definition subnet2_size (nM : nat) : Z := Z.of_nat nM - 1 - subnet1_size nM.

(** *** cyber_attack_spaces.py: the [AddressSpace] object and [sample] *)

(** [AddressSpace.__init__] stores [nM] and the generated space. *)
Record AddressSpace := mkAddressSpace {
  as_nM : nat;
  as_space : list Address
}.

Definition AddressSpace_init (nM : nat) : outcome AddressSpace :=
  match generate_address_space nM with
  | Ok space => Ok (mkAddressSpace nM space)
  | Raise e => Raise e
  end.

(** The generator of gym's [spaces] module, [spaces.np_random], is not part
    of this repository. [np_random_randint n] is the draw of
    [np_random.randint(n)] for [n > 0]. *)
Class SpacesRandom := {
  prng_state : Type;
  np_random_randint : nat → prng_state → prng_state * nat
}.

(** What numpy documents of [randint(n)]: a value of [range(n)]. *)
Definition randint_in_range (P : SpacesRandom) : Prop :=
  ∀ n g, (0 < n)%nat → ((np_random_randint n g).2 < n)%nat.

(** [AddressSpace.sample]: [self.space[spaces.np_random.randint(self.nM)]]. *)
Definition AddressSpace_sample {P : SpacesRandom} (self : AddressSpace)
  : SE prng_state Address :=
  λ g, if decide (0 < as_nM self)%nat then
         let '(g', i) := np_random_randint (as_nM self) g in
         match as_space self !! i with
         | Some a => (g', Ok a)
         | None => (g', Raise IndexError)
         end
       else (g, Raise ValueError).

(** An address as the Python tuple, or list, handed to [contains]. *)
Definition address_tuple (a : Address) : PyVal := PyTuple [PyInt a.1; PyInt a.2].
Definition address_list (a : Address) : PyVal := PyList [PyInt a.1; PyInt a.2].

(** A generator for examples: it counts its draws. *)
Definition counting_random : SpacesRandom := {|
  prng_state := nat;
  np_random_randint := λ n g, (S g, g mod n)%nat
|}.

(** The service an exploit of kind [k] really tries on a vector of [len]
    services: Python reads index [k - 1] from the end when it is negative,
    so a kind [k] in [-(len - 1) .. -1] acts as the kind [k + len]. *)
Definition effective_kind (len : nat) (k : Z) : Z :=
  if decide (k < 0) then k + Z.of_nat len else k.

Definition kind_in_range (len : nat) (k : Z) : Prop :=
  k = SCAN ∨ - Z.of_nat len < k ≤ Z.of_nat len.

(** The cases of one [step] on the belief object [b], as the code
    distinguishes them: the belief state left and the outcome of
    [step_object]. *)
Inductive step_case (self : CyberAttackEnv) (action : Action) (b : Belief)
  : Belief * outcome (bool * Z * bool) → Prop :=
| case_unknown_target :
    b !! a_target action = None →
    step_case self action b (b, Raise KeyError)
| case_stopped st :
    b !! a_target action = Some st →
    reachable st = false ∨ compromised st = true →
    step_case self action b
      (b, Ok (false,
              0 - (if a_action action =? SCAN then COST_SCAN else COST_EXPLOIT),
              false))
| case_bad_kind st m :
    b !! a_target action = Some st →
    reachable st = true → compromised st = false →
    network self !! a_target action = Some m →
    ¬ kind_in_range (length (m_services m)) (a_action action) →
    step_case self action b (b, Raise IndexError)
| case_scan st m dn :
    b !! a_target action = Some st →
    reachable st = true → compromised st = false →
    network self !! a_target action = Some m →
    a_action action = SCAN →
    (dn = true ↔ goal_reached self (after_scan action b st m)) →
    step_case self action b
      (after_scan action b st m, Ok (true, - COST_SCAN, dn))
| case_exploit_success st m dn :
    b !! a_target action = Some st →
    reachable st = true → compromised st = false →
    network self !! a_target action = Some m →
    a_action action ≠ SCAN →
    kind_in_range (length (m_services m)) (a_action action) →
    service_present m
      (effective_kind (length (m_services m)) (a_action action)) = true →
    (dn = true ↔ goal_reached self (after_exploit_success action b st m)) →
    step_case self action b
      (after_exploit_success action b st m,
       Ok (true, m_value m - COST_EXPLOIT, dn))
| case_exploit_failure st m dn :
    b !! a_target action = Some st →
    reachable st = true → compromised st = false →
    network self !! a_target action = Some m →
    a_action action ≠ SCAN →
    kind_in_range (length (m_services m)) (a_action action) →
    service_present m
      (effective_kind (length (m_services m)) (a_action action)) = false →
    (dn = true ↔
       goal_reached self
         (after_exploit_failure
            (mkAction (a_target action)
               (effective_kind (length (m_services m)) (a_action action)))
            b st)) →
    step_case self action b
      (after_exploit_failure
         (mkAction (a_target action)
            (effective_kind (length (m_services m)) (a_action action)))
         b st,
       Ok (true, - COST_EXPLOIT, dn)).

(** A session with an engine: any sequence of [step] and [reset] calls,
    each running on the engine and in the store the previous one left. *)
Inductive call :=
| Step (action : Action)
| Reset.

Fixpoint session (self : CyberAttackEnv) (calls : list call) (h : heap)
  : CyberAttackEnv * heap :=
  match calls with
  | [] => (self, h)
  | Step action :: rest => session self rest (step self action h).1
  | Reset :: rest =>
      match reset self h with
      | (h', Ok (self', _)) => session self' rest h'
      | (h', Raise _) => session self rest h'
      end
  end.

(** What the constructor leaves in an engine object (all but the
    reference [current_state]). *)
Definition constructed (self : CyberAttackEnv) : Prop :=
  ∃ space,
    generate_address_space (nM self) = Ok space ∧
    observation_space self
    = mkObservationSpace (nM self) (nS self) space
        (gen_initial_state space (nS self)) ∧
    (0 < nS self)%nat ∧
    sensitive_machines self = filter value_bearing space ∧
    (∀ a, a ∉ space → network self !! a = None) ∧
    (∀ a, a ∈ space →
          ∃ c, c ∈ service_configs (nS self) ∧
               network self !! a = Some (mkMachine c (machine_value a))).

(** Whether the belief state holds address [a] to be compromised. *)
Definition compromised_at (b : Belief) (a : Address) : bool :=
  default false (compromised <$> b !! a).

(** A belief record that does not contradict the machine it is about: one
    tri-state per service, no service believed present that is absent nor
    absent that is present, and everything known once compromised. *)
Definition sound_belief (m : Machine) (st : MachineState) : Prop :=
  length (services st) = length (m_services m) ∧
  (∀ i : nat, services st !! i = Some PRESENT → m_services m !! i = Some true) ∧
  (∀ i : nat, services st !! i = Some ABSENT → m_services m !! i = Some false) ∧
  (compromised st = true → services st = revealed <$> m_services m).

(** The invariant of the belief state of a constructed engine. *)
Record engine_state (self : CyberAttackEnv) (b : Belief) : Prop := {
  es_keys :
    ∀ a, is_Some (b !! a) ↔ a ∈ address_space (observation_space self);
  es_sound :
    ∀ a st, b !! a = Some st →
            ∃ m, network self !! a = Some m ∧ sound_belief m st;
  es_sensitive :
    ∀ a st, b !! a = Some st →
            (sensitive st = true ↔ a ∈ sensitive_machines self);
  es_reachable :
    ∀ a st, b !! a = Some st →
            (reachable st = true ↔ a.1 = 0 ∨ compromised_at b (0, 0) = true);
  es_compromised :
    ∀ a st, b !! a = Some st → compromised st = true → reachable st = true
}.

(** A session for examples: an exploit, a reset, a scan and a failed
    (out of range) exploit. *)
Definition example_calls : list call :=
  [Step (exploit (0, 0) 1); Step (exploit (1, 0) 1); Reset;
   Step (scan (0, 0)); Step (exploit (0, 0) 7)].

(** The value of the machine at an address ([0] if there is none), the
    value held by the machines a belief state holds compromised, and the
    rewards a run returned: their sum and the number of calls that
    returned. *)
Definition value_at (self : CyberAttackEnv) (a : Address) : Z :=
  match network self !! a with
  | Some m => m_value m
  | None => 0
  end.

Definition sum_values (l : list Z) : Z := foldr Z.add 0 l.

Definition loot (self : CyberAttackEnv) (b : Belief) : Z :=
  sum_values
    ((λ e : Address * MachineState,
        if compromised e.2 then value_at self e.1 else 0) <$> map_to_list b).

Definition reward_of (r : outcome (Z * bool)) : Z :=
  match r with
  | Ok (reward, _) => reward
  | Raise _ => 0
  end.

Definition returned (r : outcome (Z * bool)) : Z :=
  match r with
  | Ok _ => 1
  | Raise _ => 0
  end.

(** A second engine for examples, with three services per machine. *)
Definition example_start3 : (Z * heap) * outcome CyberAttackEnv :=
  CyberAttackEnv_init (R := lcg_random) 3 3 (0, []).

Definition example_env3 : CyberAttackEnv :=
  match example_start3.2 with
  | Ok self => self
  | Raise _ => mkEnv 0 0 (mkObservationSpace 0 0 [] ∅) ∅ [] 0
  end.

Definition example_heap3 : heap := example_start3.1.2.

(** A kind that exploits a service running on the machine at [a] (the
    first one), and a sequence of actions built from it: exploit (0, 0),
    then every machine of the goal list in turn. *)
Definition working_kind (self : CyberAttackEnv) (a : Address) : Z :=
  match network self !! a with
  | Some m =>
      match list_find (λ s : bool, s = true) (m_services m) with
      | Some (i, _) => Z.of_nat i + 1
      | None => 1
      end
  | None => 1
  end.

Definition exploit_working (self : CyberAttackEnv) (a : Address) : Action :=
  exploit a (working_kind self a).

Definition winning_actions (self : CyberAttackEnv) : list Action :=
  exploit_working self (0, 0)
  :: (exploit_working self <$> sensitive_machines self).

(** The configuration at index [i] of [permutations(n)], read off the
    binary digits of [i]: service [j] (counted from 0) is present exactly
    when digit [j] of [i] is 0. *)
Definition config_of (n i : nat) : list bool :=
  (λ j, negb (Nat.testbit i j)) <$> seq 0 n.

(** *** cyber_attack_env.py: [render] and [_get_machine_symbol] *)

Definition _get_machine_symbol (m_state : MachineState) : string :=
  if sensitive m_state then
    if compromised m_state then "C"
    else if reachable m_state then "R"
    else "S"
  else if compromised m_state then "c"
  else if reachable m_state then "r"
  else "o".

(** [self.current_state.items()], in the order of the dict. The keys of
    the belief state were inserted by [gen_initial_state] in the order of
    [self.address_space.space]; [copy.deepcopy] and the assignments of
    [step], all to keys already there, keep that order. *)
Definition state_items (self : CyberAttackEnv) (b : Belief)
  : list (Address * MachineState) :=
  omap (λ m, (λ v, (m, v)) <$> b !! m) (address_space (observation_space self)).

(** [subnets[m[0]].append(self._get_machine_symbol(v))], and the loop of
    it over the items. *)
Definition append_symbol (subnets : list (list string))
    (item : Address * MachineState) : outcome (list (list string)) :=
  match py_index (length subnets) item.1.1 with
  | Ok i => Ok (alter (λ row, row ++ [_get_machine_symbol item.2]) i subnets)
  | Raise e => Raise e
  end.

Fixpoint collect_symbols (items : list (Address * MachineState))
    (subnets : list (list string)) : outcome (list (list string)) :=
  match items with
  | [] => Ok subnets
  | item :: rest =>
      match append_symbol subnets item with
      | Ok subnets' => collect_symbols rest subnets'
      | Raise e => Raise e
      end
  end.

(** The one-character string of a line feed. *)
Definition newline : string := String (Ascii.ascii_of_nat 10) "".

(** [" " * n]. *)
Fixpoint spaces (n : nat) : string :=
  match n with
  | O => ""
  | S n' => " " +:+ spaces n'
  end.

(** [max(l)] and [min(l)] of a list; they raise [ValueError] on []. *)
Definition py_max (l : list nat) : outcome nat :=
  match l with
  | [] => Raise ValueError
  | x :: l' => Ok (fold_left Nat.max l' x)
  end.

Definition py_min (l : list nat) : outcome nat :=
  match l with
  | [] => Raise ValueError
  | x :: l' => Ok (fold_left Nat.min l' x)
  end.

(** The loop [for i, row in enumerate(subnets)], from index [i] on. *)
Fixpoint render_rows (max_row_size min_row_size n_subnets i : nat)
    (rows : list (list string)) (output : string) : string :=
  match rows with
  | [] => output
  | row :: rest =>
      let output := output +:+ (newline +:+ "subnet " +:+ pretty i +:+ ": ") in
      let output := output +:+ spaces ((max_row_size - length row) / 2) in
      let output := fold_left String.append row output in
      let output := output +:+ newline in
      let output :=
        if decide (i < n_subnets - 1)%nat then
          let n_spaces := ((max_row_size - min_row_size) / 2)%nat in
          output +:+ (spaces (String.length "subnet X: " + n_spaces) +:+ "|")
        else output in
      render_rows max_row_size min_row_size n_subnets (S i) rest output
  end.

(** [render]: the result is the text written to [sys.stdout]. *)
Definition render_object (self : CyberAttackEnv) : SE Belief string :=
  λ b,
    (b,
     match collect_symbols (state_items self b) [[]; []; []] with
     | Raise e => Raise e
     | Ok subnets =>
         match py_max (length <$> subnets), py_min (length <$> subnets) with
         | Ok max_row_size, Ok min_row_size =>
             let output := newline +:+ "-----------------------------" in
             let output :=
               render_rows max_row_size min_row_size (length subnets) 0
                 subnets output in
             Ok (output +:+ ("-----------------------------" +:+ newline))
         | Raise e, _ => Raise e
         | _, Raise e => Raise e
         end
     end).

Definition render (self : CyberAttackEnv) : SE heap string :=
  with_object (current_state self) (render_object self).

(** The text [render] is expected to write for a network of [nM] machines:
    one line per subnet with the symbols of its machines in the order of
    their ids, centred on the longest line, and a connector between two
    lines. *)
Definition symbol_at (b : Belief) (a : Address) : string :=
  match b !! a with
  | Some st => _get_machine_symbol st
  | None => ""
  end.

Definition subnet_symbols (b : Belief) (s : Z) (n : nat) : list string :=
  (λ j : nat, symbol_at b (s, Z.of_nat j)) <$> seq 0 n.

Definition subnet_line (width i : nat) (row : list string) : string :=
  newline +:+ "subnet " +:+ pretty i +:+ ": "
  +:+ spaces ((width - length row) / 2)
  +:+ foldr String.append "" row +:+ newline.

Definition connector (width : nat) : string :=
  spaces (10 + (width - 1) / 2) +:+ "|".

Definition rendering (nM : nat) (b : Belief) : string :=
  let n1 := ((nM + 8) / 10)%nat in
  let n2 := (nM - 1 - n1)%nat in
  let width := (n1 `max` n2)%nat in
  newline +:+ "-----------------------------"
  +:+ subnet_line width 0 (subnet_symbols b 0 1) +:+ connector width
  +:+ subnet_line width 1 (subnet_symbols b 1 n1) +:+ connector width
  +:+ subnet_line width 2 (subnet_symbols b 2 n2)
  +:+ "-----------------------------" +:+ newline.

(** What the belief state [b] knows of the services (Present or Absent),
    the belief state [b'] knows too, with the same answer. *)
Definition keeps_knowledge (b b' : Belief) : Prop :=
  ∀ (a : Address) (st : MachineState) (i : nat) (v : ServiceState),
    b !! a = Some st → services st !! i = Some v → v ≠ UNKNOWN →
    ∃ st', b' !! a = Some st' ∧ services st' !! i = Some v.

(** * Properties *)

(** ** The monad and the store *)

Lemma with_object_bind {A B : Type} (l : loc) (m : SE Belief A) (k : A → SE Belief B)
    (h : heap) :
  with_object l (se_bind m k) h
  = se_bind (with_object l m) (λ a, with_object l (k a)) h.
Proof.
  unfold with_object, se_bind.
  destruct (h !! l) as [b|] eqn:Hl; [|done].
  destruct (m b) as [b' [a|e]]; [|done].
  assert (l < length h)%nat by (by eapply lookup_lt_Some).
  rewrite list_lookup_insert_eq by done.
  destruct (k a b') as [b'' r]. by rewrite list_insert_insert_eq.
Qed.

Lemma with_object_run {A : Type} (l : loc) (m : SE Belief A) (h : heap) b :
  h !! l = Some b →
  with_object l m h = (<[l := (m b).1]> h, (m b).2).
Proof. unfold with_object. intros ->. by destruct (m b). Qed.

(** [step] is [step_object] run on the engine's belief object, followed on
    the success path by a copy into a new object. *)
Lemma step_on_object (self : CyberAttackEnv) (action : Action) (h : heap) b :
  h !! current_state self = Some b →
  step self action h =
    match step_object self action b with
    | (b', Ok (false, reward, done)) =>
        (<[current_state self := b']> h, Ok (current_state self, reward, done, ∅))
    | (b', Ok (true, reward, done)) =>
        (<[current_state self := b']> h ++ [b'], Ok (length h, reward, done, ∅))
    | (b', Raise e) => (<[current_state self := b']> h, Raise e)
    end.
Proof.
  intros Hb. assert (Hlt : (current_state self < length h)%nat)
    by (by eapply lookup_lt_Some).
  assert (Hid : <[current_state self := b]> h = h) by (by apply list_insert_id).
  unfold step, step_object, se_bind, se_lift, se_ret, read_machine.
  rewrite (with_object_run _ _ _ _ Hb). simpl. rewrite Hid.
  destruct (getitem b (a_target action)) as [st|e]; [|by rewrite Hid].
  destruct (negb (reachable st) || compromised st); [by rewrite Hid|].
  destruct (_take_action self action) as [[[success value] svs]|e];
    [|by rewrite Hid].
  rewrite (with_object_run _ _ _ _ Hb).
  destruct (_update_state action success svs b) as [b1 [[]|e]]; simpl; [|done].
  assert (Hb1 : <[current_state self := b1]> h !! current_state self = Some b1)
    by (by apply list_lookup_insert_eq).
  rewrite (with_object_run _ _ _ _ Hb1), list_insert_insert_eq.
  destruct (is_goal self b1) as [b2 [dn|e]]; simpl; [|done].
  unfold deepcopy. rewrite list_lookup_insert_eq by done.
  by rewrite length_insert.
Qed.

(** ** Belief states only ever evolve *)

Lemma machine_evolves_refl st : machine_evolves st st.
Proof. by repeat split. Qed.

Lemma machine_evolves_trans st1 st2 st3 :
  machine_evolves st1 st2 → machine_evolves st2 st3 → machine_evolves st1 st3.
Proof.
  intros (?&?&?&?) (?&?&?&?). repeat split; [congruence..|auto|auto].
Qed.

Global Instance evolves_preorder : PreOrder evolves.
Proof.
  split.
  - intros b a. destruct (b !! a); [apply machine_evolves_refl|done].
  - intros b1 b2 b3 H12 H23 a. specialize (H12 a). specialize (H23 a).
    destruct (b1 !! a), (b2 !! a), (b3 !! a); try done.
    by eapply machine_evolves_trans.
Qed.

Lemma evolves_insert (b : Belief) a st st' :
  b !! a = Some st → machine_evolves st st' → evolves b (<[a := st']> b).
Proof.
  intros Hb Hst a'. destruct (decide (a = a')) as [<-|Hne].
  - by rewrite Hb, lookup_insert_eq.
  - rewrite lookup_insert_ne by done.
    destruct (b !! a'); [apply machine_evolves_refl|done].
Qed.

Lemma evolves_set_reachable (b : Belief) : evolves b (set_reachable <$> b).
Proof.
  intros a. rewrite lookup_fmap. destruct (b !! a) as [st|]; [|done].
  by repeat split.
Qed.

Lemma evolves_lookup (b b' : Belief) a st :
  evolves b b' → b !! a = Some st →
  ∃ st', b' !! a = Some st' ∧ machine_evolves st st'.
Proof.
  intros H Hb. specialize (H a). rewrite Hb in H.
  destruct (b' !! a) as [st'|]; [eauto|done].
Qed.

Lemma evolves_lookup_inv (b b' : Belief) a st' :
  evolves b b' → b' !! a = Some st' →
  ∃ st, b !! a = Some st ∧ machine_evolves st st'.
Proof.
  intros H Hb. specialize (H a). rewrite Hb in H.
  destruct (b !! a) as [st|]; [eauto|done].
Qed.

Section Preserves.
Context (R : Belief → Belief → Prop) `{!PreOrder R}.

Lemma preserves_ret {A : Type} (a : A) : preserves R (se_ret a).
Proof. intros b. reflexivity. Qed.

Lemma preserves_lift {A : Type} (o : outcome A) : preserves R (se_lift o).
Proof. intros b. reflexivity. Qed.

Lemma preserves_bind {A B : Type} (m : SE Belief A) (k : A → SE Belief B) :
  preserves R m → (∀ a, preserves R (k a)) → preserves R (se_bind m k).
Proof.
  intros Hm Hk b. unfold se_bind. specialize (Hm b).
  destruct (m b) as [b1 [a|e]]; simpl in *; [|done].
  etransitivity; [exact Hm|apply Hk].
Qed.

Lemma preserves_read_machine a : preserves R (read_machine a).
Proof. intros b. reflexivity. Qed.
End Preserves.

Lemma preserves_set_service target i v :
  preserves evolves (set_service target i v).
Proof.
  intros b. unfold set_service.
  destruct (b !! target) as [st|] eqn:Hb; [|reflexivity].
  destruct (py_index _ i) as [n|e]; [|reflexivity]. simpl.
  apply (evolves_insert _ _ _ _ Hb).
  repeat split; simpl; auto. by rewrite length_insert.
Qed.

Lemma preserves_set_compromised target :
  preserves evolves (set_compromised target).
Proof.
  intros b. unfold set_compromised.
  destruct (b !! target) as [st|] eqn:Hb; [|reflexivity]. simpl.
  apply (evolves_insert _ _ _ _ Hb). by repeat split.
Qed.

Lemma preserves_update_reachable target :
  preserves evolves (_update_reachable target).
Proof.
  intros b. unfold _update_reachable.
  destruct (target.1 =? 0); [apply evolves_set_reachable|reflexivity].
Qed.

Lemma preserves_reveal_services target svs i :
  preserves evolves (reveal_services target i svs).
Proof.
  revert i. induction svs as [|s svs IH]; intros i; simpl.
  - apply preserves_ret, _.
  - apply preserves_bind; [apply _|apply preserves_set_service|auto].
Qed.

Lemma preserves_update_state action success svs :
  preserves evolves (_update_state action success svs).
Proof.
  unfold _update_state.
  apply preserves_bind; [apply _|apply preserves_read_machine, _|intros _].
  destruct (negb success); [apply preserves_set_service|].
  apply preserves_bind; [apply _|apply preserves_reveal_services|intros _].
  destruct (negb _); [|apply preserves_ret, _].
  apply preserves_bind;
    [apply _|apply preserves_set_compromised|intros _; apply preserves_update_reachable].
Qed.

Lemma is_goal_loop_pure ms b : (is_goal_loop ms b).1 = b.
Proof.
  induction ms as [|m ms IH]; simpl; [done|].
  unfold se_bind, read_machine. simpl.
  destruct (getitem b m) as [st|e]; [|done].
  by destruct (negb (compromised st)).
Qed.

Lemma preserves_step_object self action :
  preserves evolves (step_object self action).
Proof.
  unfold step_object.
  apply preserves_bind; [apply _|apply preserves_read_machine, _|intros st].
  destruct (_ || _); [apply preserves_ret, _|].
  apply preserves_bind; [apply _|apply preserves_lift, _|intros [[success value] svs]].
  apply preserves_bind; [apply _|apply preserves_update_state|intros _].
  apply preserves_bind; [apply _| |intros dn; apply preserves_ret, _].
  intros b. unfold is_goal. rewrite is_goal_loop_pure. reflexivity.
Qed.

(** ** What each method computes *)

Lemma py_index_in_range len i :
  0 ≤ i < Z.of_nat len → py_index len i = Ok (Z.to_nat i).
Proof. intros H. unfold py_index. by rewrite decide_True. Qed.

Lemma consistent_lookup self b a st :
  consistent self b → b !! a = Some st →
  ∃ m, network self !! a = Some m ∧ length (services st) = length (m_services m).
Proof.
  intros [Hm _] Hb. specialize (Hm a st Hb). unfold machine_consistent in Hm.
  destruct (network self !! a) as [m|]; [eauto|done].
Qed.

Lemma consistent_evolves self b b' :
  consistent self b → evolves b b' → consistent self b'.
Proof.
  intros [Hm Hs] Hev. split.
  - intros a st' Hb'.
    destruct (evolves_lookup_inv _ _ _ _ Hev Hb') as (st & Hb & Hlen & _).
    specialize (Hm a st Hb). unfold machine_consistent in *.
    destruct (network self !! a); [congruence|done].
  - eapply Forall_impl; [exact Hs|]. intros a [st Hb].
    destruct (evolves_lookup _ _ _ _ Hev Hb) as (st' & -> & _). eauto.
Qed.

Lemma take_action_scan self action m :
  network self !! a_target action = Some m →
  a_action action = SCAN →
  _take_action self action = Ok (true, 0, m_services m).
Proof. intros Hn Hk. unfold _take_action, getitem. by rewrite Hn, Hk. Qed.

Lemma take_action_exploit self action m :
  network self !! a_target action = Some m →
  1 ≤ a_action action ≤ Z.of_nat (length (m_services m)) →
  _take_action self action =
    if service_present m (a_action action)
    then Ok (true, m_value m, m_services m)
    else Ok (false, 0, []).
Proof.
  intros Hn Hk. unfold _take_action, getitem. rewrite Hn.
  replace (a_action action =? SCAN) with false
    by (symmetry; apply Z.eqb_neq; unfold SCAN; lia).
  rewrite py_index_in_range by lia. done.
Qed.

Lemma set_service_run (b : Belief) target st i v :
  b !! target = Some st → 0 ≤ i < Z.of_nat (length (services st)) →
  set_service target i v b =
    (<[target := mkMachineState (<[Z.to_nat i := v]> (services st))
                   (compromised st) (sensitive st) (reachable st)]> b, Ok tt).
Proof.
  intros Hb Hi. unfold set_service. by rewrite Hb, py_index_in_range.
Qed.

(** The loop over [enumerate(services)] overwrites positions
    [i, i+1, ...] of the target's belief, one per revealed service. *)
Lemma reveal_services_run svs : ∀ (b : Belief) target st i,
  b !! target = Some st →
  (i + length svs ≤ length (services st))%nat →
  reveal_services target i svs b =
    (<[target := mkMachineState
         (take i (services st) ++ (revealed <$> svs)
            ++ drop (i + length svs) (services st))
         (compromised st) (sensitive st) (reachable st)]> b, Ok tt).
Proof.
  induction svs as [|s svs IH]; intros b target st i Hb Hlen; simpl in *.
  - unfold se_ret. rewrite Nat.add_0_r, take_drop.
    f_equal. symmetry. apply insert_id. rewrite Hb. by destruct st.
  - unfold se_bind. rewrite (set_service_run _ _ st) by (done || lia).
    rewrite Nat2Z.id.
    erewrite IH; [|apply lookup_insert_eq|simpl; rewrite length_insert; lia].
    simpl. rewrite insert_insert_eq. do 3 f_equal.
    assert (Hi : (i < length (services st))%nat) by lia.
    destruct (lookup_lt_is_Some_2 _ _ Hi) as [x Hx].
    rewrite (take_S_r (<[i:=revealed s]> (services st)) i (revealed s))
      by (by rewrite list_lookup_insert_eq).
    rewrite take_insert_ge by lia.
    rewrite drop_insert_lt by lia.
    rewrite <- (assoc_L (++)). simpl.
    by replace (i + S (length svs))%nat with (S (i + length svs)) by lia.
Qed.

Lemma reveal_services_all (b : Belief) target st svs :
  b !! target = Some st →
  length (services st) = length svs →
  reveal_services target 0 svs b =
    (<[target := mkMachineState (revealed <$> svs)
                   (compromised st) (sensitive st) (reachable st)]> b, Ok tt).
Proof.
  intros Hb Hlen. rewrite (reveal_services_run _ _ _ st) by (done || lia).
  simpl. rewrite drop_ge by lia. by rewrite app_nil_r.
Qed.

(** [is_goal] on a belief state that knows every goal machine. *)
Lemma is_goal_loop_run (ms : list Address) (b : Belief) :
  Forall (λ a, is_Some (b !! a)) ms →
  ∃ dn, is_goal_loop ms b = (b, Ok dn) ∧
        (dn = true ↔ ∀ a, a ∈ ms → ∃ st, b !! a = Some st ∧ compromised st = true).
Proof.
  induction 1 as [|m ms [st Hst] _ IH]; simpl.
  - exists true. split; [done|]. split; [|done]. intros _ a Ha. by inversion Ha.
  - unfold se_bind, read_machine, getitem. rewrite Hst. simpl.
    destruct (compromised st) eqn:Hc; simpl.
    + destruct IH as (dn & -> & Hdn). exists dn. split; [done|].
      rewrite Hdn. split.
      * intros H a [->|Ha]%elem_of_cons; eauto.
      * intros H a Ha. apply H. by right.
    + exists false. split; [done|]. split; [done|].
      intros H. destruct (H m) as (st' & Hst' & Hc'); [by left|]. congruence.
Qed.

Lemma is_goal_run (self : CyberAttackEnv) (b : Belief) :
  consistent self b →
  ∃ dn, is_goal self b = (b, Ok dn) ∧ (dn = true ↔ goal_reached self b).
Proof. intros [_ Hs]. by apply is_goal_loop_run. Qed.

(** ** A step that passes the precondition gate *)

Section GatePassed.
Context (self : CyberAttackEnv) (action : Action) (b : Belief).
Context (st : MachineState) (m : Machine).
Hypothesis Hb : b !! a_target action = Some st.
Hypothesis Hreachable : reachable st = true.
Hypothesis Hcompromised : compromised st = false.
Hypothesis Hcons : consistent self b.
Hypothesis Hnet : network self !! a_target action = Some m.

Lemma gate_lengths : length (services st) = length (m_services m).
Proof using Hb Hcons Hnet.
  destruct (consistent_lookup _ _ _ _ Hcons Hb) as (m' & Hm' & Hlen).
  congruence.
Qed.

Lemma step_object_gate :
  step_object self action b =
    (do (success, value, services) <- se_lift (_take_action self action);
     _update_state action success services ;;;
     do dn <- is_goal self;
     se_ret (true,
             value - (if a_action action =? SCAN then COST_SCAN else COST_EXPLOIT),
             dn))%se b.
Proof using Hb Hreachable Hcompromised.
  unfold step_object, se_bind at 1, read_machine, getitem.
  by rewrite Hb, Hreachable, Hcompromised.
Qed.

Lemma finish_step (b' : Belief) value :
  evolves b b' →
  ∃ dn,
    (do dn <- is_goal self;
     se_ret (true,
             value - (if a_action action =? SCAN then COST_SCAN else COST_EXPLOIT),
             dn))%se b'
    = (b', Ok (true,
               value - (if a_action action =? SCAN then COST_SCAN else COST_EXPLOIT),
               dn))
    ∧ (dn = true ↔ goal_reached self b').
Proof using Hcons.
  intros Hev.
  destruct (is_goal_run self b') as (dn & Hrun & Hdn);
    [by eapply consistent_evolves|].
  exists dn. split; [|done]. unfold se_bind. by rewrite Hrun.
Qed.

Lemma update_state_evolves success svs :
  evolves b (_update_state action success svs b).1.
Proof. apply preserves_update_state. Qed.

Lemma step_object_scan :
  a_action action = SCAN →
  ∃ dn, step_object self action b
        = (after_scan action b st m, Ok (true, - COST_SCAN, dn))
        ∧ (dn = true ↔ goal_reached self (after_scan action b st m)).
Proof using All.
  intros Hk. rewrite step_object_gate.
  unfold se_bind at 1, se_lift. rewrite (take_action_scan _ _ m) by done.
  pose proof (update_state_evolves true (m_services m)) as Hev.
  assert (Hrun : _update_state action true (m_services m) b
                 = (after_scan action b st m, Ok tt)).
  { unfold _update_state, se_bind, read_machine, getitem. rewrite Hb. simpl.
    rewrite (reveal_services_all _ _ st) by (done || apply gate_lengths).
    rewrite Hk. done. }
  rewrite Hrun in Hev. unfold se_bind at 1. rewrite Hrun.
  destruct (finish_step (after_scan action b st m) 0 Hev) as (dn & Hfin & Hdn).
  exists dn. split; [|done]. rewrite Hfin, Hk. done.
Qed.

Lemma step_object_exploit_success :
  1 ≤ a_action action ≤ Z.of_nat (length (m_services m)) →
  service_present m (a_action action) = true →
  ∃ dn, step_object self action b
        = (after_exploit_success action b st m,
           Ok (true, m_value m - COST_EXPLOIT, dn))
        ∧ (dn = true ↔ goal_reached self (after_exploit_success action b st m)).
Proof using All.
  intros Hk Hpresent. rewrite step_object_gate.
  assert (Hscan : (a_action action =? SCAN) = false)
    by (apply Z.eqb_neq; unfold SCAN; lia).
  unfold se_bind at 1, se_lift. rewrite (take_action_exploit _ _ m) by done.
  rewrite Hpresent.
  pose proof (update_state_evolves true (m_services m)) as Hev.
  assert (Hrun : _update_state action true (m_services m) b
                 = (after_exploit_success action b st m, Ok tt)).
  { unfold _update_state, se_bind, read_machine, getitem. rewrite Hb. simpl.
    rewrite (reveal_services_all _ _ st) by (done || apply gate_lengths).
    rewrite Hscan. simpl.
    unfold set_compromised. rewrite lookup_insert_eq. simpl.
    rewrite insert_insert_eq. unfold _update_reachable, after_exploit_success.
    by destruct ((a_target action).1 =? 0). }
  rewrite Hrun in Hev. unfold se_bind at 1. rewrite Hrun.
  destruct (finish_step (after_exploit_success action b st m) (m_value m) Hev)
    as (dn & Hfin & Hdn).
  exists dn. split; [|done]. rewrite Hfin, Hscan. done.
Qed.

Lemma step_object_exploit_failure :
  1 ≤ a_action action ≤ Z.of_nat (length (m_services m)) →
  service_present m (a_action action) = false →
  ∃ dn, step_object self action b
        = (after_exploit_failure action b st, Ok (true, - COST_EXPLOIT, dn))
        ∧ (dn = true ↔ goal_reached self (after_exploit_failure action b st)).
Proof using All.
  intros Hk Habsent. rewrite step_object_gate.
  assert (Hscan : (a_action action =? SCAN) = false)
    by (apply Z.eqb_neq; unfold SCAN; lia).
  unfold se_bind at 1, se_lift. rewrite (take_action_exploit _ _ m) by done.
  rewrite Habsent.
  pose proof (update_state_evolves false []) as Hev.
  assert (Hrun : _update_state action false [] b
                 = (after_exploit_failure action b st, Ok tt)).
  { unfold _update_state, se_bind, read_machine, getitem. rewrite Hb. simpl.
    rewrite (set_service_run _ _ st); [done..|].
    rewrite gate_lengths. lia. }
  rewrite Hrun in Hev. unfold se_bind at 1. rewrite Hrun.
  destruct (finish_step (after_exploit_failure action b st) 0 Hev)
    as (dn & Hfin & Hdn).
  exists dn. split; [|done]. rewrite Hfin, Hscan. done.
Qed.
End GatePassed.

(** ** The soft-fail path *)

Lemma soft_fail_run (self : CyberAttackEnv) (action : Action) (h : heap)
    (b : Belief) (st : MachineState) :
  h !! current_state self = Some b →
  b !! a_target action = Some st →
  reachable st = false ∨ compromised st = true →
  step self action h =
    (h, Ok (current_state self,
            0 - (if a_action action =? SCAN then COST_SCAN else COST_EXPLOIT),
            false, ∅)).
Proof.
  intros Hh Hb Hgate.
  rewrite (step_on_object _ _ _ _ Hh).
  unfold step_object, se_bind, read_machine, getitem, se_ret. rewrite Hb.
  assert (negb (reachable st) || compromised st = true) as ->.
  { destruct Hgate as [-> | ->]; [done|]. apply orb_true_r. }
  by rewrite (list_insert_id _ _ _ Hh).
Qed.

(** C2: a step whose target is unreachable or already compromised in the
    current belief state mutates nothing (the store is left as it was and
    the engine's own belief object is what is returned), returns reward
    [-COST_SCAN] for kind 0 and [-COST_EXPLOIT] otherwise, both [-10],
    [done = False] and an empty info dict, and does not raise. *)
Theorem step_soft_fail (self : CyberAttackEnv) (action : Action) (h : heap)
    (b : Belief) (st : MachineState) :
  h !! current_state self = Some b →
  b !! a_target action = Some st →
  reachable st = false ∨ compromised st = true →
  step self action h =
    (h, Ok (current_state self,
            (if a_action action =? 0 then - COST_SCAN else - COST_EXPLOIT),
            false, ∅))
  ∧ - COST_SCAN = -10 ∧ - COST_EXPLOIT = -10.
Proof.
  intros Hh Hb Hgate. split; [|done].
  rewrite (soft_fail_run _ _ _ _ _ Hh Hb Hgate). unfold SCAN.
  by destruct (a_action action =? 0).
Qed.

Lemma step_soft_fail_witness :
  step example_env (scan (1, 0)) example_heap
  = (example_heap, Ok (current_state example_env, -10, false, ∅)).
Proof.
  destruct (step_soft_fail example_env (scan (1, 0)) example_heap
              (initial_observation (observation_space example_env))
              (initial_machine_state 1 (1, 0))) as [H _].
  - vm_compute. reflexivity.
  - vm_compute. reflexivity.
  - left. vm_compute. reflexivity.
  - exact H.
Defined.

(** ** From the belief object to the store *)

Lemma step_gate_passed_store (self : CyberAttackEnv) (action : Action)
    (h : heap) (b b' : Belief) reward dn :
  h !! current_state self = Some b →
  step_object self action b = (b', Ok (true, reward, dn)) →
  step self action h
  = (<[current_state self := b']> h ++ [b'], Ok (length h, reward, dn, ∅)).
Proof. intros Hh Hobj. by rewrite (step_on_object _ _ _ _ Hh), Hobj. Qed.

Lemma store_after_step (h : heap) (l : loc) (b b' : Belief) :
  h !! l = Some b →
  (<[l := b']> h ++ [b']) !! l = Some b' ∧
  (<[l := b']> h ++ [b']) !! length h = Some b' ∧
  l ≠ length h.
Proof.
  intros Hh. assert (l < length h)%nat by (by eapply lookup_lt_Some).
  split_and!; [|  |lia].
  - rewrite lookup_app_l by (by rewrite length_insert).
    by apply list_lookup_insert_eq.
  - rewrite lookup_app_r by (by rewrite length_insert).
    by rewrite length_insert, Nat.sub_diag.
Qed.

(** Whatever [step] does, the engine's belief object evolves and no other
    object of the store changes. *)
Lemma step_store (self : CyberAttackEnv) (action : Action) (h : heap) (b : Belief) :
  h !! current_state self = Some b →
  ∃ b', (step self action h).1 !! current_state self = Some b' ∧
        b' = (step_object self action b).1 ∧
        evolves b b' ∧
        (length h ≤ length (step self action h).1)%nat ∧
        ∀ l, l ≠ current_state self → (l < length h)%nat →
             (step self action h).1 !! l = h !! l.
Proof.
  intros Hh. assert (current_state self < length h)%nat
    by (by eapply lookup_lt_Some).
  pose proof (preserves_step_object self action b) as Hev.
  rewrite (step_on_object _ _ _ _ Hh).
  destruct (step_object self action b) as [b' [[[[] reward] dn]|e]]; simpl in *;
    exists b'; (split_and!; [| done | done | |]).
  - by eapply (proj1 (store_after_step _ _ _ _ Hh)).
  - rewrite length_app, length_insert. lia.
  - intros l Hl Hlt. rewrite lookup_app_l by (by rewrite length_insert).
    by apply list_lookup_insert_ne.
  - by apply list_lookup_insert_eq.
  - by rewrite length_insert.
  - intros l Hl Hlt. by apply list_lookup_insert_ne.
  - by apply list_lookup_insert_eq.
  - by rewrite length_insert.
  - intros l Hl Hlt. by apply list_lookup_insert_ne.
Qed.

(** ** Exploits *)

Lemma service_present_lookup m k :
  service_present m k = true ↔ m_services m !! Z.to_nat (k - 1) = Some true.
Proof.
  unfold service_present.
  destruct (m_services m !! Z.to_nat (k - 1)) as [[]|]; simpl; by split.
Qed.

(** An exploit that passes the gate: its success flag and its reward. *)
Lemma exploit_step (self : CyberAttackEnv) (action : Action) (h : heap)
    (b : Belief) (st : MachineState) (m : Machine) :
  h !! current_state self = Some b →
  b !! a_target action = Some st →
  reachable st = true → compromised st = false →
  consistent self b →
  network self !! a_target action = Some m →
  1 ≤ a_action action ≤ Z.of_nat (length (m_services m)) →
  ∃ success value svs h' l dn,
    _take_action self action = Ok (success, value, svs) ∧
    (success = true ↔ m_services m !! Z.to_nat (a_action action - 1) = Some true) ∧
    step self action h =
      (h', Ok (l, (if success then m_value m - COST_EXPLOIT else - COST_EXPLOIT),
               dn, ∅)).
Proof.
  intros Hh Hb Hr Hc Hcons Hnet Hk.
  pose proof (take_action_exploit _ _ _ Hnet Hk) as Htake.
  destruct (service_present m (a_action action)) eqn:Hp.
  - destruct (step_object_exploit_success self action b st m) as (dn & Hobj & _);
      try done.
    eexists true, _, _, _, _, dn. split; [exact Htake|]. split.
    + by rewrite <- service_present_lookup.
    + exact (step_gate_passed_store _ _ _ _ _ _ _ Hh Hobj).
  - destruct (step_object_exploit_failure self action b st m) as (dn & Hobj & _);
      try done.
    eexists false, _, _, _, _, dn. split; [exact Htake|]. split.
    + rewrite <- service_present_lookup, Hp. done.
    + exact (step_gate_passed_store _ _ _ _ _ _ _ Hh Hobj).
Qed.

(** ** Belief revision *)

(** C4: for a step that passes the gate, (1) after a successful scan or
    exploit the target's belief services are exactly the true service
    vector, position by position, written as Present/Absent, whatever was
    believed before; (2) after a failed exploit of service [k - 1] position
    [k - 1] of the target's belief services is Absent, every other position
    and the other fields of the target are as before, and so is the belief
    record of every other machine. In both cases [step] returns. *)
Theorem step_belief_revision (self : CyberAttackEnv) (action : Action)
    (h : heap) (b : Belief) (st : MachineState) (m : Machine) :
  h !! current_state self = Some b →
  b !! a_target action = Some st →
  reachable st = true → compromised st = false →
  consistent self b →
  network self !! a_target action = Some m →
  0 ≤ a_action action ≤ Z.of_nat (length (m_services m)) →
  ∃ success value svs h' r b' st',
    _take_action self action = Ok (success, value, svs) ∧
    step self action h = (h', Ok r) ∧
    h' !! current_state self = Some b' ∧
    b' !! a_target action = Some st' ∧
    (success = true →
       services st' = revealed <$> m_services m ∧
       ∀ (i : nat) (s : bool), m_services m !! i = Some s →
              services st' !! i = Some (if s then PRESENT else ABSENT)) ∧
    (success = false →
       services st' !! Z.to_nat (a_action action - 1) = Some ABSENT ∧
       (∀ i : nat, i ≠ Z.to_nat (a_action action - 1) →
             services st' !! i = services st !! i) ∧
       compromised st' = compromised st ∧ reachable st' = reachable st ∧
       sensitive st' = sensitive st ∧
       ∀ a, a ≠ a_target action → b' !! a = b !! a).
Proof.
  intros Hh Hb Hr Hc Hcons Hnet Hk.
  assert (Hreveal : ∀ (i : nat) (s : bool), m_services m !! i = Some s →
            (revealed <$> m_services m) !! i = Some (if s then PRESENT else ABSENT)).
  { intros i s Hi. by rewrite list_lookup_fmap, Hi. }
  destruct (decide (a_action action = SCAN)) as [Hscan|Hexploit].
  - destruct (step_object_scan self action b st m) as (dn & Hobj & _); try done.
    pose proof (step_gate_passed_store _ _ _ _ _ _ _ Hh Hobj) as Hstep.
    destruct (store_after_step _ _ _ (after_scan action b st m) Hh) as (Hcs & _).
    eexists true, _, _, _, _, _, _.
    split; [by apply take_action_scan|]. split; [exact Hstep|].
    split; [exact Hcs|]. split; [apply lookup_insert_eq|].
    split; [done|]. intros [=].
  - assert (Hk' : 1 ≤ a_action action ≤ Z.of_nat (length (m_services m)))
      by (unfold SCAN in *; lia).
    pose proof (take_action_exploit _ _ _ Hnet Hk') as Htake.
    destruct (service_present m (a_action action)) eqn:Hp.
    + destruct (step_object_exploit_success self action b st m)
        as (dn & Hobj & _); try done.
      pose proof (step_gate_passed_store _ _ _ _ _ _ _ Hh Hobj) as Hstep.
      destruct (store_after_step _ _ _ (after_exploit_success action b st m) Hh)
        as (Hcs & _).
      assert (∃ st', after_exploit_success action b st m !! a_target action = Some st'
                     ∧ services st' = revealed <$> m_services m) as (st' & Hst' & Hsv).
      { unfold after_exploit_success.
        destruct ((a_target action).1 =? 0).
        - rewrite lookup_fmap, lookup_insert_eq. simpl. eauto.
        - rewrite lookup_insert_eq. eauto. }
      eexists true, _, _, _, _, _, st'.
      split; [exact Htake|]. split; [exact Hstep|]. split; [exact Hcs|].
      split; [exact Hst'|]. split; [|intros [=]].
      intros _. rewrite Hsv. done.
    + destruct (step_object_exploit_failure self action b st m)
        as (dn & Hobj & _); try done.
      pose proof (step_gate_passed_store _ _ _ _ _ _ _ Hh Hobj) as Hstep.
      destruct (store_after_step _ _ _ (after_exploit_failure action b st) Hh)
        as (Hcs & _).
      eexists false, _, _, _, _, _, _.
      split; [exact Htake|]. split; [exact Hstep|]. split; [exact Hcs|].
      split; [apply lookup_insert_eq|]. split; [intros [=]|].
      intros _. simpl. split_and!; try done.
      * apply list_lookup_insert_eq.
        rewrite (gate_lengths self action b st m) by done. lia.
      * intros i Hi. by apply list_lookup_insert_ne.
      * intros a Ha. unfold after_exploit_failure. by rewrite lookup_insert_ne.
Qed.

(** ** Reachability *)

(** C5: after a successful exploit (a step of kind [k > 0] that passes the
    gate and whose service [k - 1] runs on the target), if the target is in
    subnet 0 every machine of the belief state is reachable; if it is in
    another subnet (1 or 2) the [reachable] field of every machine is what
    it was before the step. *)
Theorem exploit_reachability (self : CyberAttackEnv) (action : Action)
    (h : heap) (b : Belief) (st : MachineState) (m : Machine) :
  h !! current_state self = Some b →
  b !! a_target action = Some st →
  reachable st = true → compromised st = false →
  consistent self b →
  network self !! a_target action = Some m →
  1 ≤ a_action action ≤ Z.of_nat (length (m_services m)) →
  m_services m !! Z.to_nat (a_action action - 1) = Some true →
  ∃ h' r b',
    step self action h = (h', Ok r) ∧
    h' !! current_state self = Some b' ∧
    ((a_target action).1 = 0 →
       ∀ a, is_Some (b !! a) → ∃ st', b' !! a = Some st' ∧ reachable st' = true) ∧
    ((a_target action).1 ≠ 0 →
       ∀ a, reachable <$> b' !! a = reachable <$> b !! a).
Proof.
  intros Hh Hb Hr Hc Hcons Hnet Hk Hp%service_present_lookup.
  destruct (step_object_exploit_success self action b st m) as (dn & Hobj & _);
    try done.
  pose proof (step_gate_passed_store _ _ _ _ _ _ _ Hh Hobj) as Hstep.
  destruct (store_after_step _ _ _ (after_exploit_success action b st m) Hh)
    as (Hcs & _).
  eexists _, _, _. split; [exact Hstep|]. split; [exact Hcs|].
  unfold after_exploit_success. split.
  - intros H0. apply Z.eqb_eq in H0. rewrite H0. intros a [sta Ha].
    rewrite lookup_fmap.
    destruct (decide (a = a_target action)) as [->|Hne].
    + rewrite lookup_insert_eq. simpl. eauto.
    + rewrite lookup_insert_ne, Ha by done. simpl. eauto.
  - intros H0. apply Z.eqb_neq in H0. rewrite H0. intros a.
    destruct (decide (a = a_target action)) as [->|Hne].
    + rewrite lookup_insert_eq, Hb. done.
    + by rewrite lookup_insert_ne.
Qed.

(** ** Monotonicity *)

Lemma run_cons (self : CyberAttackEnv) (a : Action) (actions : list Action)
    (h : heap) :
  (run self (a :: actions) h).1 = (run self actions (step self a h).1).1.
Proof.
  simpl. destruct (step self a h) as [h' r]. simpl.
  by destruct (run self actions h') as [h'' rs].
Qed.

Lemma run_evolves (self : CyberAttackEnv) (actions : list Action) :
  ∀ (h : heap) (b : Belief),
    h !! current_state self = Some b →
    ∃ b', (run self actions h).1 !! current_state self = Some b' ∧ evolves b b'.
Proof.
  induction actions as [|a actions IH]; intros h b Hh.
  - exists b. split; [done|reflexivity].
  - rewrite run_cons.
    destruct (step_store self a h b Hh) as (b1 & Hb1 & _ & Hev1 & _).
    destruct (IH _ _ Hb1) as (b' & Hb' & Hev').
    exists b'. split; [done|]. by etransitivity.
Qed.

(** C6: along any sequence of [step] calls on an engine, starting in any
    state of the store in which the engine's belief object exists (the
    state [reset] leaves is one, see [reset_store]) and whatever the calls
    return or raise, every machine of the belief state stays in it, and a
    machine that was reachable is still reachable and a machine that was
    compromised is still compromised. *)
Theorem flags_monotone (self : CyberAttackEnv) (actions : list Action)
    (h : heap) (b : Belief) :
  h !! current_state self = Some b →
  ∃ b', (run self actions h).1 !! current_state self = Some b' ∧
        ∀ a st, b !! a = Some st →
                ∃ st', b' !! a = Some st' ∧
                       (reachable st = true → reachable st' = true) ∧
                       (compromised st = true → compromised st' = true).
Proof.
  intros Hh. destruct (run_evolves self actions h b Hh) as (b' & Hb' & Hev).
  exists b'. split; [done|]. intros a st Ha.
  destruct (evolves_lookup _ _ _ _ Hev Ha) as (st' & Hst' & _ & _ & Hr & Hc).
  eauto.
Qed.

Lemma reset_store (self : CyberAttackEnv) (h : heap) :
  ∃ self' l h',
    reset self h = (h', Ok (self', l)) ∧
    l = current_state self' ∧
    h' !! current_state self' = Some (initial_observation (observation_space self)) ∧
    network self' = network self ∧
    sensitive_machines self' = sensitive_machines self ∧
    observation_space self' = observation_space self.
Proof.
  eexists _, _, _. split; [by cbv [reset se_bind get_initial_state se_ret]|].
  simpl. split_and!; try done.
  by rewrite lookup_app_r, Nat.sub_diag.
Qed.

(** ** Service configurations *)

Lemma permutations_step n :
  permutations (S (S n)) = permutations (S n) ≫= λ p, [true :: p; false :: p].
Proof. done. Qed.

Lemma length_bind_pair {A : Type} (f g : A → A) (l : list A) :
  length (l ≫= λ p, [f p; g p]) = (2 * length l)%nat.
Proof. induction l as [|x l IH]; csimpl; [done|]. rewrite IH. lia. Qed.

Lemma length_permutations n : length (permutations (S n)) = (2 ^ S n)%nat.
Proof.
  induction n as [|n IH]; [done|].
  rewrite permutations_step, length_bind_pair, IH.
  change (2 ^ S (S n))%nat with (2 * 2 ^ S n)%nat. done.
Qed.

Lemma elem_of_permutations n (v : list bool) :
  v ∈ permutations (S n) ↔ length v = S n.
Proof.
  revert v. induction n as [|n IH]; intros v.
  - simpl. rewrite !elem_of_cons, elem_of_nil. split.
    + by intros [->|[->|[]]].
    + destruct v as [|[] [|]]; naive_solver.
  - rewrite permutations_step, list_elem_of_bind. split.
    + intros (p & Hv & Hp%IH). set_solver by (simpl; lia).
    + destruct v as [|x v]; [done|]. intros [= Hlen%IH].
      exists v. split; [|done]. destruct x; set_solver.
Qed.

Lemma NoDup_permutations n : NoDup (permutations n).
Proof.
  destruct n as [|n]; [constructor|].
  induction n as [|n IH].
  - simpl. apply NoDup_cons. split; [set_solver|apply NoDup_singleton].
  - rewrite permutations_step. apply NoDup_bind; [| |done].
    + intros p1 p2 v _ _. set_solver.
    + intros p _. apply NoDup_cons. split; [set_solver|apply NoDup_singleton].
Qed.

(** The last permutation generated is the all-false vector. *)
Lemma permutations_last n :
  ∃ l, permutations (S n) = l ++ [replicate (S n) false].
Proof.
  induction n as [|n (l & IH)].
  - by exists [[true]].
  - rewrite permutations_step, IH, bind_app, bind_singleton.
    exists ((l ≫= λ p, [true :: p; false :: p]) ++ [true :: replicate (S n) false]).
    by rewrite <- (assoc_L (++)).
Qed.

Lemma service_configs_split n :
  permutations (S n) = service_configs (S n) ++ [replicate (S n) false].
Proof.
  destruct (permutations_last n) as (l & Hl). unfold service_configs.
  by rewrite Hl, removelast_last.
Qed.

Lemma elem_of_service_configs n (v : list bool) :
  v ∈ service_configs (S n) ↔ length v = S n ∧ v ≠ replicate (S n) false.
Proof.
  pose proof (NoDup_permutations (S n)) as Hnd.
  pose proof (elem_of_permutations n v) as Hel.
  rewrite service_configs_split in Hnd, Hel.
  apply NoDup_app in Hnd as (_ & Hdisj & _).
  rewrite elem_of_app, list_elem_of_singleton in Hel. split.
  - intros Hv. split; [apply Hel; by left|].
    intros ->. apply (Hdisj _ Hv). by apply list_elem_of_singleton.
  - intros [Hlen Hne]. apply Hel in Hlen as [?|?]; done.
Qed.

Lemma some_service_runs (v : list bool) :
  v ≠ replicate (length v) false → true ∈ v.
Proof.
  induction v as [|[] v IH]; simpl; [done|set_solver|].
  intros Hne. apply list_elem_of_further, IH. congruence.
Qed.

(** ** Network construction *)

(** The value [_construct_network] gives the machine at address [m]. *)
Lemma value_bearing_branch (m : Address) (sens : list Address) :
  (if m.2 mod 10 =? 0 then
     if m.1 =? 1 then (R_SENSITIVE, sens ++ [m])
     else if m.1 =? 2 then (R_USER, sens ++ [m])
     else (0, sens)
   else (0, sens))
  = (machine_value m, sens ++ filter value_bearing [m]).
Proof.
  unfold machine_value, value_bearing.
  rewrite filter_cons, filter_nil.
  destruct (Z.eqb_spec (m.2 mod 10) 0) as [H10|H10];
    [|rewrite decide_False by tauto; by rewrite app_nil_r].
  destruct (Z.eqb_spec m.1 1) as [H1|H1]; [by rewrite decide_True by tauto|].
  destruct (Z.eqb_spec m.1 2) as [H2|H2]; [by rewrite decide_True by tauto|].
  rewrite decide_False by tauto. by rewrite app_nil_r.
Qed.

Section ConstructionFacts.
Context {R : NumpyRandom}.

Lemma construct_machine_inv configs net sens (m : Address) g g' net' sens' :
  construct_machine configs (net, sens) m g = (g', Ok (net', sens')) →
  ∃ c, c ∈ configs ∧
       net' = <[m := mkMachine c (machine_value m)]> net ∧
       sens' = sens ++ filter value_bearing [m].
Proof.
  unfold construct_machine, se_bind, random_choice, se_lift, se_ret.
  destruct (decide (0 < length configs)%nat); [|done].
  destruct (np_random_choice (length configs) g) as [g1 i].
  destruct (configs !! i) as [c|] eqn:Hc; [|done].
  rewrite value_bearing_branch. intros [= <- <- <-].
  exists c. split; [|done]. by eapply list_elem_of_lookup_2.
Qed.

Lemma construct_machine_ok configs net sens (m : Address) g :
  choice_in_range R → configs ≠ [] →
  ∃ g' r, construct_machine configs (net, sens) m g = (g', Ok r).
Proof.
  intros Hrange Hne.
  unfold construct_machine, se_bind, random_choice, se_lift, se_ret.
  assert (0 < length configs)%nat as Hlen by (destruct configs; simpl; [done|lia]).
  rewrite decide_True by done.
  specialize (Hrange _ g Hlen).
  destruct (np_random_choice (length configs) g) as [g1 i]. simpl in Hrange.
  destruct (lookup_lt_is_Some_2 _ _ Hrange) as [c ->].
  rewrite value_bearing_branch. eauto.
Qed.

Lemma for_each_construct_inv configs (space : list Address) :
  ∀ net sens g g' net' sens',
    for_each (construct_machine configs) space (net, sens) g
    = (g', Ok (net', sens')) →
    sens' = sens ++ filter value_bearing space ∧
    (∀ a, a ∉ space → net' !! a = net !! a) ∧
    (∀ a, a ∈ space →
          ∃ c, c ∈ configs ∧ net' !! a = Some (mkMachine c (machine_value a))).
Proof.
  induction space as [|m space IH]; intros net sens g g' net' sens';
    cbn [for_each].
  - intros [= <- <- <-]. rewrite filter_nil, app_nil_r.
    split_and!; [done..|]. intros a Ha. by inversion Ha.
  - unfold se_bind at 1.
    destruct (construct_machine configs (net, sens) m g)
      as [g1 [[net1 sens1]|e]] eqn:Hm; [|done].
    apply construct_machine_inv in Hm as (c & Hc & -> & ->).
    intros (-> & Hout & Hin)%IH. split_and!.
    + rewrite <- (assoc_L (++)). f_equal. rewrite (filter_cons _ m).
      rewrite filter_cons, filter_nil. by destruct (decide (value_bearing m)).
    + intros a [Hne Ha]%not_elem_of_cons.
      rewrite Hout by done. by rewrite lookup_insert_ne.
    + intros a [->|Ha]%elem_of_cons; [|by apply Hin].
      destruct (decide (m ∈ space)) as [Hm|Hm]; [by apply Hin|].
      exists c. split; [done|]. rewrite Hout by done. apply lookup_insert_eq.
Qed.

Lemma for_each_construct_ok configs (space : list Address) :
  choice_in_range R → configs ≠ [] →
  ∀ acc g, ∃ g' r, for_each (construct_machine configs) space acc g = (g', Ok r).
Proof.
  intros Hrange Hne. induction space as [|m space IH]; intros [net sens] g;
    cbn [for_each].
  - by eexists _, _.
  - unfold se_bind.
    destruct (construct_machine_ok configs net sens m g) as (g1 & r1 & ->);
      [done..|].
    apply IH.
Qed.

(** [_construct_network] re-seeds the generator: what it returns does not
    depend on the state the generator was in. *)
Lemma construct_network_seeded nM nS (g : rng_state) :
  _construct_network nM nS g
  = (do space <- se_lift (generate_address_space nM);
     for_each (construct_machine (service_configs nS)) space (∅, []))%se
      (np_random_seed 1).
Proof. done. Qed.

Lemma construct_network_inv nM nS (g g' : rng_state) net sens :
  _construct_network nM nS g = (g', Ok (net, sens)) →
  ∃ space,
    generate_address_space nM = Ok space ∧
    sens = filter value_bearing space ∧
    (∀ a, a ∉ space → net !! a = None) ∧
    (∀ a, a ∈ space →
          ∃ c, c ∈ service_configs nS ∧
               net !! a = Some (mkMachine c (machine_value a))).
Proof.
  rewrite construct_network_seeded. unfold se_bind, se_lift.
  destruct (generate_address_space nM) as [space|e]; [|done].
  intros (-> & Hout & Hin)%for_each_construct_inv.
  exists space. split_and!; [done..| |done].
  intros a Ha. by rewrite Hout.
Qed.

Lemma construct_network_ok nM nS (g : rng_state) :
  choice_in_range R → (2 < nM)%nat → (0 < nS)%nat →
  ∃ g' net sens, _construct_network nM nS g = (g', Ok (net, sens)).
Proof.
  intros Hrange HnM HnS. rewrite construct_network_seeded.
  unfold se_bind, se_lift, generate_address_space.
  rewrite decide_True by done.
  destruct (fold_left generate_step (seq 0 nM) ([], 0, 0)) as [[addresses ?] ?].
  edestruct (for_each_construct_ok (service_configs nS)) as (g' & [net sens] & ->);
    [done| |by eexists _, _, _].
  destruct nS as [|n]; [lia|].
  pose proof (length_permutations n) as Hlen.
  rewrite service_configs_split, length_app in Hlen. simpl in Hlen.
  intros Hnil. rewrite Hnil in Hlen. simpl in Hlen.
  assert (1 < 2 ^ S n)%nat; [|lia].
  apply Nat.pow_gt_1; lia.
Qed.
End ConstructionFacts.

(** C7: for [nS > 0] the candidate configurations [permutations(nS)[:-1]]
    are [2^nS - 1] distinct vectors, and a vector is a candidate exactly
    when it has length [nS] and is not the all-false vector; and whenever
    numpy's [choice(n)] returns a value of [range(n)], the network is built
    for every [nM > 2] and every machine in it has one of the candidates as
    its service vector, hence runs at least one service. *)
Theorem service_configurations (nS : nat) :
  (0 < nS)%nat →
  length (service_configs nS) = (2 ^ nS - 1)%nat ∧
  NoDup (service_configs nS) ∧
  (∀ v : list bool,
     v ∈ service_configs nS ↔ length v = nS ∧ v ≠ replicate nS false) ∧
  ∀ (R : NumpyRandom) (nM : nat) (g : rng_state),
    choice_in_range R → (2 < nM)%nat →
    ∃ g' net sens,
      _construct_network nM nS g = (g', Ok (net, sens)) ∧
      ∀ a m, net !! a = Some m →
             m_services m ∈ service_configs nS ∧ true ∈ m_services m.
Proof.
  intros HnS. destruct nS as [|n]; [lia|]. split_and!.
  - pose proof (length_permutations n) as Hlen.
    rewrite service_configs_split, length_app in Hlen. cbn [length] in Hlen. lia.
  - pose proof (NoDup_permutations (S n)) as Hnd.
    rewrite service_configs_split in Hnd. by apply NoDup_app in Hnd as (? & _).
  - apply elem_of_service_configs.
  - intros R nM g Hrange HnM.
    destruct (construct_network_ok nM (S n) g) as (g' & net & sens & Hrun);
      [done..|].
    exists g', net, sens. split; [done|]. intros a m Ham.
    apply construct_network_inv in Hrun as (space & _ & _ & Hout & Hin).
    destruct (decide (a ∈ space)) as [Ha|Ha]; [|rewrite Hout in Ham; done].
    destruct (Hin a Ha) as (c & Hc & Hac). rewrite Hac in Ham.
    injection Ham as <-. simpl. split; [done|].
    apply elem_of_service_configs in Hc as [Hlen Hne].
    apply some_service_runs. by rewrite Hlen.
Qed.

Lemma lcg_choice_in_range : choice_in_range lcg_random.
Proof.
  intros n g Hn. simpl.
  pose proof (Z.mod_pos_bound
                (((1103515245 * g + 12345) mod 2147483648) / 65536)
                (Z.of_nat n)).
  lia.
Qed.

Lemma service_configurations_witness :
  length (service_configs 2) = 3%nat ∧
  ∃ g' net sens,
    _construct_network (R := lcg_random) 3 2 0 = (g', Ok (net, sens)) ∧
    ∀ a m, net !! a = Some m →
           m_services m ∈ service_configs 2 ∧ true ∈ m_services m.
Proof.
  assert (H2 : (0 < 2)%nat) by lia.
  destruct (service_configurations 2 H2) as (Hlen & _ & _ & Hnet).
  split; [exact Hlen|].
  apply (Hnet lcg_random 3%nat 0 lcg_choice_in_range). lia.
Defined.

(** ** Runs *)

Lemma step_outcome (self : CyberAttackEnv) (action : Action) (h : heap) (b : Belief) :
  h !! current_state self = Some b →
  reward_done (step self action h).2 = object_outcome (step_object self action b).2.
Proof.
  intros Hh. rewrite (step_on_object _ _ _ _ Hh).
  by destruct (step_object self action b) as [b' [[[[] reward] dn]|e]].
Qed.

Lemma run_on_object (self : CyberAttackEnv) (actions : list Action) :
  ∀ (h : heap) (b : Belief),
    h !! current_state self = Some b →
    reward_done <$> (run self actions h).2 = (run_object self actions b).2 ∧
    (run self actions h).1 !! current_state self
    = Some (run_object self actions b).1.
Proof.
  induction actions as [|a actions IH]; intros h b Hh; [done|].
  pose proof (step_outcome self a h b Hh) as Hout.
  destruct (step_store self a h b Hh) as (b1 & Hb1 & -> & _).
  cbn [run run_object].
  destruct (step self a h) as [h1 r1]. simpl in *.
  destruct (step_object self a b) as [b1 r1']. simpl in *.
  destruct (IH h1 b1 Hb1) as [IHr IHs].
  destruct (run self actions h1) as [h2 rs]. simpl in *.
  destruct (run_object self actions b1) as [b2 rs']. simpl in *.
  subst rs'. by rewrite Hout.
Qed.

(** The belief-level behaviour of an engine depends on its ground truth
    and its goal set only. *)
Lemma step_object_ext (e1 e2 : CyberAttackEnv) (action : Action) (b : Belief) :
  network e1 = network e2 →
  sensitive_machines e1 = sensitive_machines e2 →
  step_object e1 action b = step_object e2 action b.
Proof.
  intros Hnet Hsens. unfold step_object, _take_action, is_goal.
  by rewrite Hnet, Hsens.
Qed.

Lemma run_object_ext (e1 e2 : CyberAttackEnv) (actions : list Action) :
  network e1 = network e2 →
  sensitive_machines e1 = sensitive_machines e2 →
  ∀ b : Belief, run_object e1 actions b = run_object e2 actions b.
Proof.
  intros Hnet Hsens. induction actions as [|a actions IH]; intros b; [done|].
  cbn [run_object]. rewrite (step_object_ext e1 e2) by done.
  destruct (step_object e2 a b) as [b' r]. by rewrite IH.
Qed.

(** ** The constructor *)

Section Constructor.
Context {R : NumpyRandom}.

Lemma init_inv (nM nS : nat) (w w' : rng_state * heap) (self : CyberAttackEnv) :
  CyberAttackEnv_init nM nS w = (w', Ok self) →
  ∃ space net sens g',
    (2 < nM)%nat ∧ (0 < nS)%nat ∧
    generate_address_space nM = Ok space ∧
    _construct_network nM nS w.1 = (g', Ok (net, sens)) ∧
    self = mkEnv nM nS (mkObservationSpace nM nS space (gen_initial_state space nS))
                 net sens (length w.2) ∧
    w' = (g', w.2 ++ [gen_initial_state space nS]).
Proof.
  unfold CyberAttackEnv_init, se_bind, se_lift, on_rng, on_heap.
  unfold CAActionSpace_init, CAObservationSpace_init.
  destruct (decide (2 < nM)%nat); [|done].
  destruct (decide (0 < nS)%nat); [|done].
  destruct (generate_address_space nM) as [space|e]; [|done].
  destruct (_construct_network nM nS w.1) as [g' [[net sens]|e]]; [|done].
  cbv [reset se_bind get_initial_state se_ret]. simpl.
  intros [= <- <-]. by eexists _, _, _, _.
Qed.

Lemma init_ok (nM nS : nat) (w : rng_state * heap) :
  choice_in_range R → (2 < nM)%nat → (0 < nS)%nat →
  ∃ w' self, CyberAttackEnv_init nM nS w = (w', Ok self).
Proof.
  intros Hrange HnM HnS.
  destruct (construct_network_ok nM nS w.1) as (g' & net & sens & Hnet);
    [done..|].
  unfold CyberAttackEnv_init, se_bind, se_lift, on_rng, on_heap.
  unfold CAActionSpace_init, CAObservationSpace_init.
  rewrite !decide_True by done.
  assert (∃ space, generate_address_space nM = Ok space) as [space ->].
  { unfold generate_address_space. rewrite decide_True by done.
    destruct (fold_left _ _ _) as [[? ?] ?]. eauto. }
  rewrite Hnet. cbv [reset se_bind get_initial_state se_ret]. simpl. eauto.
Qed.

(** With one service there is one candidate configuration, so the network
    of the tests ([nM = 4], [nS = 1]) is the same for every generator. *)
Lemma init_4_1 (w w' : rng_state * heap) (self : CyberAttackEnv) :
  CyberAttackEnv_init 4 1 w = (w', Ok self) →
  network self = network example_env ∧
  sensitive_machines self = sensitive_machines example_env ∧
  w'.2 !! current_state self
  = Some (initial_observation (observation_space example_env)).
Proof.
  intros (space & net & sens & g' & _ & _ & Hspace & Hnet & -> & ->)%init_inv.
  apply construct_network_inv in Hnet as (space' & Hspace' & -> & Hout & Hin).
  rewrite Hspace in Hspace'. injection Hspace' as <-.
  vm_compute in Hspace. injection Hspace as <-. simpl.
  split_and!.
  - apply map_eq. intros a.
    destruct (decide (a ∈ [(0, 0); (1, 0); (2, 0); (2, 1)])) as [Ha|Ha].
    + destruct (Hin a Ha) as (c & Hc & ->).
      change (service_configs 1) with [[true]] in Hc.
      apply list_elem_of_singleton in Hc as ->.
      rewrite !elem_of_cons, elem_of_nil in Ha.
      by destruct Ha as [->|[->|[->|[->|[]]]]].
    + rewrite Hout by done. symmetry.
      rewrite !not_elem_of_cons in Ha. destruct Ha as (?&?&?&?&_).
      change (network example_env) with
        (<[(2, 1) := mkMachine [true] 0]>
           (<[(2, 0) := mkMachine [true] 5000]>
              (<[(1, 0) := mkMachine [true] 9000]>
                 (<[(0, 0) := mkMachine [true] 0]> (∅ : Network))))).
      by rewrite !lookup_insert_ne.
  - done.
  - by rewrite lookup_app_r, Nat.sub_diag.
Qed.
End Constructor.

(** ** The test scenarios, for every generator *)

Lemma example_run (R : NumpyRandom) (w : rng_state * heap)
    (actions : list Action) :
  choice_in_range R →
  ∃ w' self,
    CyberAttackEnv_init 4 1 w = (w', Ok self) ∧
    reward_done <$> (run self actions w'.2).2
    = (run_object example_env actions
         (initial_observation (observation_space example_env))).2.
Proof.
  intros Hrange.
  destruct (init_ok 4 1 w) as (w' & self & Hinit); [done|lia|lia|].
  exists w', self. split; [done|].
  apply init_4_1 in Hinit as (Hnet & Hsens & Hcs).
  destruct (run_on_object self actions _ _ Hcs) as [-> _].
  by rewrite (run_object_ext self example_env).
Qed.

(** C3: an exploit of kind [k], [1 <= k <= nS], on a reachable and
    uncompromised target succeeds exactly when service [k - 1] runs on the
    target; the step then returns, with reward [value - COST_EXPLOIT] on
    success and [-COST_EXPLOIT] on failure. With [nM = 4] and [nS = 1],
    whatever the generator draws, exploiting (0,0) and then (1,0) yields
    reward 8990 on the second step. *)
Theorem exploit_outcome :
  (∀ (self : CyberAttackEnv) (action : Action) (h : heap) (b : Belief)
     (st : MachineState) (m : Machine),
     h !! current_state self = Some b →
     b !! a_target action = Some st →
     reachable st = true → compromised st = false →
     consistent self b →
     network self !! a_target action = Some m →
     1 ≤ a_action action ≤ Z.of_nat (length (m_services m)) →
     ∃ success value svs h' l dn,
       _take_action self action = Ok (success, value, svs) ∧
       (success = true ↔
          m_services m !! Z.to_nat (a_action action - 1) = Some true) ∧
       step self action h =
         (h', Ok (l, (if success then m_value m - COST_EXPLOIT
                      else - COST_EXPLOIT), dn, ∅))) ∧
  (∀ (R : NumpyRandom) (w : rng_state * heap),
     choice_in_range R →
     ∃ w' self r1,
       CyberAttackEnv_init 4 1 w = (w', Ok self) ∧
       reward_done <$> (run self [exploit (0, 0) 1; exploit (1, 0) 1] w'.2).2
       = [r1; Ok (8990, false)]).
Proof.
  split; [apply exploit_step|].
  intros R w Hrange.
  destruct (example_run R w [exploit (0, 0) 1; exploit (1, 0) 1] Hrange)
    as (w' & self & Hinit & Hrun).
  exists w', self, (Ok (-10, false)). split; [done|]. by rewrite Hrun.
Qed.

(** ** The example engine *)

Lemma example_belief :
  example_heap !! current_state example_env
  = Some (initial_observation (observation_space example_env)).
Proof. vm_compute. reflexivity. Qed.

Lemma example_consistent :
  consistent example_env (initial_observation (observation_space example_env)).
Proof. apply (bool_decide_unpack _). vm_compute. reflexivity. Qed.

Lemma example_entry :
  initial_observation (observation_space example_env) !! (0, 0)
  = Some (mkMachineState [UNKNOWN] false false true).
Proof. vm_compute. reflexivity. Qed.

Lemma example_entry_machine :
  network example_env !! (0, 0) = Some (mkMachine [true] 0).
Proof. vm_compute. reflexivity. Qed.

Lemma exploit_outcome_witness :
  (∃ success value svs h' l dn,
     _take_action example_env (exploit (0, 0) 1) = Ok (success, value, svs) ∧
     (success = true ↔ [true] !! 0%nat = Some true) ∧
     step example_env (exploit (0, 0) 1) example_heap =
       (h', Ok (l, (if success then 0 - COST_EXPLOIT else - COST_EXPLOIT), dn, ∅))) ∧
  (∃ w' self r1,
     CyberAttackEnv_init (R := lcg_random) 4 1 (0, []) = (w', Ok self) ∧
     reward_done <$> (run self [exploit (0, 0) 1; exploit (1, 0) 1] w'.2).2
     = [r1; Ok (8990, false)]).
Proof.
  destruct exploit_outcome as [Hgeneral Hexample]. split.
  - apply (Hgeneral example_env (exploit (0, 0) 1) example_heap
             (initial_observation (observation_space example_env))
             (mkMachineState [UNKNOWN] false false true)
             (mkMachine [true] 0)).
    + vm_compute. reflexivity.
    + vm_compute. reflexivity.
    + reflexivity.
    + reflexivity.
    + apply (bool_decide_unpack _). vm_compute. reflexivity.
    + vm_compute. reflexivity.
    + simpl. lia.
  - apply (Hexample lcg_random (0, [])). exact lcg_choice_in_range.
Defined.

Lemma step_belief_revision_witness :
  ∃ success value svs h' r b' st',
    _take_action example_env (scan (0, 0)) = Ok (success, value, svs) ∧
    step example_env (scan (0, 0)) example_heap = (h', Ok r) ∧
    h' !! current_state example_env = Some b' ∧
    b' !! (0, 0) = Some st' ∧
    (success = true →
       services st' = [PRESENT] ∧
       ∀ (i : nat) (s : bool), [true] !! i = Some s →
              services st' !! i = Some (if s then PRESENT else ABSENT)) ∧
    (success = false →
       services st' !! Z.to_nat (0 - 1) = Some ABSENT ∧
       (∀ i : nat, i ≠ Z.to_nat (0 - 1) → services st' !! i = [UNKNOWN] !! i) ∧
       compromised st' = false ∧ reachable st' = true ∧ sensitive st' = false ∧
       ∀ a, a ≠ (0, 0) →
            b' !! a = initial_observation (observation_space example_env) !! a).
Proof.
  apply (step_belief_revision example_env (scan (0, 0)) example_heap
           (initial_observation (observation_space example_env))
           (mkMachineState [UNKNOWN] false false true)
           (mkMachine [true] 0)).
  - vm_compute. reflexivity.
  - vm_compute. reflexivity.
  - reflexivity.
  - reflexivity.
  - apply (bool_decide_unpack _). vm_compute. reflexivity.
  - vm_compute. reflexivity.
  - simpl. unfold SCAN. lia.
Defined.

Lemma exploit_reachability_witness :
  ∃ h' r b',
    step example_env (exploit (0, 0) 1) example_heap = (h', Ok r) ∧
    h' !! current_state example_env = Some b' ∧
    ((0 : Z) = 0 →
       ∀ a, is_Some (initial_observation (observation_space example_env) !! a) →
            ∃ st', b' !! a = Some st' ∧ reachable st' = true) ∧
    ((0 : Z) ≠ 0 →
       ∀ a, reachable <$> b' !! a
            = reachable <$> initial_observation (observation_space example_env) !! a).
Proof.
  apply (exploit_reachability example_env (exploit (0, 0) 1) example_heap
           (initial_observation (observation_space example_env))
           (mkMachineState [UNKNOWN] false false true)
           (mkMachine [true] 0)).
  - vm_compute. reflexivity.
  - vm_compute. reflexivity.
  - reflexivity.
  - reflexivity.
  - apply (bool_decide_unpack _). vm_compute. reflexivity.
  - vm_compute. reflexivity.
  - simpl. lia.
  - reflexivity.
Defined.

Lemma flags_monotone_witness :
  ∃ b', (run example_env three_exploits example_heap).1
          !! current_state example_env = Some b' ∧
        ∀ a st,
          initial_observation (observation_space example_env) !! a = Some st →
          ∃ st', b' !! a = Some st' ∧
                 (reachable st = true → reachable st' = true) ∧
                 (compromised st = true → compromised st' = true).
Proof.
  apply (flags_monotone example_env three_exploits example_heap
           (initial_observation (observation_space example_env))).
  vm_compute. reflexivity.
Defined.

(** ** Goal detection *)

Lemma gate_passed_done (self : CyberAttackEnv) (action : Action) (h : heap)
    (b : Belief) (st : MachineState) (m : Machine) :
  h !! current_state self = Some b →
  b !! a_target action = Some st →
  reachable st = true → compromised st = false →
  consistent self b →
  network self !! a_target action = Some m →
  0 ≤ a_action action ≤ Z.of_nat (length (m_services m)) →
  ∃ h' l reward dn b',
    step self action h = (h', Ok (l, reward, dn, ∅)) ∧
    h' !! current_state self = Some b' ∧
    (dn = true ↔ goal_reached self b').
Proof.
  intros Hh Hb Hr Hc Hcons Hnet Hk.
  assert (∃ b' reward dn,
            step_object self action b = (b', Ok (true, reward, dn)) ∧
            (dn = true ↔ goal_reached self b')) as (b' & reward & dn & Hobj & Hdn).
  { destruct (decide (a_action action = SCAN)) as [Hscan|Hexploit].
    - destruct (step_object_scan self action b st m) as (dn & ? & ?); eauto.
    - assert (1 ≤ a_action action ≤ Z.of_nat (length (m_services m)))
        by (unfold SCAN in *; lia).
      destruct (service_present m (a_action action)) eqn:Hp.
      + destruct (step_object_exploit_success self action b st m)
          as (dn & ? & ?); eauto.
      + destruct (step_object_exploit_failure self action b st m)
          as (dn & ? & ?); eauto. }
  exists (<[current_state self := b']> h ++ [b']), (length h), reward, dn, b'.
  split; [by apply (step_gate_passed_store _ _ _ _ _ _ _ Hh)|].
  split; [by apply (store_after_step _ _ _ _ Hh)|done].
Qed.

Lemma goal_after_three_exploits :
  ∃ b, (run example_env three_exploits example_heap).1
         !! current_state example_env = Some b ∧
       goal_reached example_env b.
Proof.
  eexists. split; [vm_compute; reflexivity|].
  intros a Ha. change (sensitive_machines example_env) with [(1, 0); (2, 0)] in Ha.
  rewrite !elem_of_cons, elem_of_nil in Ha.
  destruct Ha as [->|[->|[]]]; eexists; (split; [vm_compute; reflexivity|done]).
Qed.

(** Counterexample to C8 as stated: in the test engine, once (0,0), (1,0)
    and (2,0) have been exploited every goal machine is compromised, yet a
    further step on (2,0) returns [done = False]. *)
Lemma done_flag_counterexample :
  ¬ done_iff_goal example_env (exploit (2, 0) 1)
      (run example_env three_exploits example_heap).1.
Proof.
  intros Hclaim.
  destruct goal_after_three_exploits as (b & Hb & Hgoal).
  assert (Hstep : ∃ l reward,
            step example_env (exploit (2, 0) 1)
              (run example_env three_exploits example_heap).1
            = ((run example_env three_exploits example_heap).1,
               Ok (l, reward, false, ∅))).
  { eexists _, _. vm_compute. reflexivity. }
  destruct Hstep as (l & reward & Hstep).
  destruct (Hclaim _ _ _ _ _ Hstep Hb) as [_ Hdone].
  by specialize (Hdone Hgoal).
Qed.

(** C8, amended: (1) the goal set of a constructed engine is the list of
    the addresses of its address space whose id is a multiple of 10 and
    whose subnet is 1 or 2; (2) [is_goal()] is true exactly when every
    address of the goal set is compromised in the current belief state;
    (3) for every step that passes the precondition gate, and for every
    step taken while some address of the goal set is not yet compromised,
    the [done] flag is true exactly when every address of the goal set is
    compromised in the belief state the step leaves; (4) the [done] flag of
    a step stopped by the gate is false, also when every address of the
    goal set is compromised; (5) with [nM = 4] and [nS = 1], exploiting
    (0,0), (1,0), (2,0) in sequence yields [done] false, false, true. *)
Theorem done_flag_gate_passed :
  (∀ (R : NumpyRandom) (nM nS : nat) (w w' : rng_state * heap)
     (self : CyberAttackEnv),
     CyberAttackEnv_init nM nS w = (w', Ok self) →
     ∃ space,
       generate_address_space nM = Ok space ∧
       sensitive_machines self = filter value_bearing space ∧
       ∀ a, a ∈ sensitive_machines self ↔
            a ∈ space ∧ a.2 mod 10 = 0 ∧ (a.1 = 1 ∨ a.1 = 2)) ∧
  (∀ (self : CyberAttackEnv) (b : Belief),
     consistent self b →
     ∃ dn, is_goal self b = (b, Ok dn) ∧ (dn = true ↔ goal_reached self b)) ∧
  (∀ (self : CyberAttackEnv) (action : Action) (h : heap) (b : Belief)
     (st : MachineState) (m : Machine),
     h !! current_state self = Some b →
     b !! a_target action = Some st →
     consistent self b →
     network self !! a_target action = Some m →
     0 ≤ a_action action ≤ Z.of_nat (length (m_services m)) →
     (reachable st = true ∧ compromised st = false) ∨ ¬ goal_reached self b →
     ∃ h' l reward dn b',
       step self action h = (h', Ok (l, reward, dn, ∅)) ∧
       h' !! current_state self = Some b' ∧
       (dn = true ↔ goal_reached self b')) ∧
  (∀ (self : CyberAttackEnv) (action : Action) (h : heap) (b : Belief)
     (st : MachineState),
     h !! current_state self = Some b →
     b !! a_target action = Some st →
     reachable st = false ∨ compromised st = true →
     ∃ l reward, step self action h = (h, Ok (l, reward, false, ∅))) ∧
  (∀ (R : NumpyRandom) (w : rng_state * heap),
     choice_in_range R →
     ∃ w' self,
       CyberAttackEnv_init 4 1 w = (w', Ok self) ∧
       reward_done <$> (run self three_exploits w'.2).2
       = [Ok (-10, false); Ok (8990, false); Ok (4990, true)]).
Proof.
  split_and!.
  - intros R nM nS w w' self
      (space & net & sens & g' & _ & _ & Hspace & Hnet & -> & _)%init_inv.
    apply construct_network_inv in Hnet as (space' & Hspace' & -> & _).
    rewrite Hspace in Hspace'. injection Hspace' as <-.
    exists space. split; [done|]. split; [done|]. intros a. simpl.
    rewrite list_elem_of_filter. unfold value_bearing. tauto.
  - apply is_goal_run.
  - intros self action h b st m Hh Hb Hcons Hnet Hk Hcase.
    destruct (reachable st) eqn:Hr; [destruct (compromised st) eqn:Hc|].
    2: by apply (gate_passed_done self action h b st m).
    all: assert (¬ goal_reached self b) as Hgoal
           by (destruct Hcase as [[? ?]|?]; [congruence|done]).
    all: exists h, (current_state self),
           (0 - (if a_action action =? SCAN then COST_SCAN else COST_EXPLOIT)),
           false, b.
    all: split; [apply (soft_fail_run _ _ _ _ st Hh Hb); rewrite ?Hr, ?Hc; auto|].
    all: split; [done|]. all: by split.
  - intros self action h b st Hh Hb Hgate. eexists _, _.
    by apply (soft_fail_run _ _ _ _ _ Hh Hb Hgate).
  - intros R w Hrange.
    destruct (example_run R w three_exploits Hrange) as (w' & self & Hinit & Hrun).
    exists w', self. split; [done|]. by rewrite Hrun.
Qed.

Lemma done_flag_gate_passed_witness :
  (∃ space,
     generate_address_space 4 = Ok space ∧
     sensitive_machines example_env = filter value_bearing space ∧
     ∀ a, a ∈ sensitive_machines example_env ↔
          a ∈ space ∧ a.2 mod 10 = 0 ∧ (a.1 = 1 ∨ a.1 = 2)) ∧
  (∃ dn,
     is_goal example_env (initial_observation (observation_space example_env))
     = (initial_observation (observation_space example_env), Ok dn) ∧
     (dn = true ↔
        goal_reached example_env
          (initial_observation (observation_space example_env)))) ∧
  (∃ h' l reward dn b',
     step example_env (exploit (0, 0) 1) example_heap
     = (h', Ok (l, reward, dn, ∅)) ∧
     h' !! current_state example_env = Some b' ∧
     (dn = true ↔ goal_reached example_env b')) ∧
  (∃ l reward,
     step example_env (scan (1, 0)) example_heap
     = (example_heap, Ok (l, reward, false, ∅))) ∧
  (∃ w' self,
     CyberAttackEnv_init (R := lcg_random) 4 1 (0, []) = (w', Ok self) ∧
     reward_done <$> (run self three_exploits w'.2).2
     = [Ok (-10, false); Ok (8990, false); Ok (4990, true)]).
Proof.
  destruct done_flag_gate_passed
    as (Hgoalset & Hisgoal & Hpassed & Hstopped & Hexample).
  split_and!.
  - apply (Hgoalset lcg_random 4%nat 1%nat (0, []) example_start.1 example_env).
    vm_compute. reflexivity.
  - apply (Hisgoal example_env
             (initial_observation (observation_space example_env))).
    apply (bool_decide_unpack _). vm_compute. reflexivity.
  - apply (Hpassed example_env (exploit (0, 0) 1) example_heap
             (initial_observation (observation_space example_env))
             (mkMachineState [UNKNOWN] false false true)
             (mkMachine [true] 0)).
    + vm_compute. reflexivity.
    + vm_compute. reflexivity.
    + apply (bool_decide_unpack _). vm_compute. reflexivity.
    + vm_compute. reflexivity.
    + simpl. lia.
    + left. split; reflexivity.
  - apply (Hstopped example_env (scan (1, 0)) example_heap
             (initial_observation (observation_space example_env))
             (initial_machine_state 1 (1, 0))).
    + vm_compute. reflexivity.
    + vm_compute. reflexivity.
    + left. reflexivity.
  - apply (Hexample lcg_random (0, [])). intros n g Hn. simpl.
    pose proof (Z.mod_pos_bound
                  (((1103515245 * g + 12345) mod 2147483648) / 65536)
                  (Z.of_nat n)).
    lia.
Defined.

(** ** Returned snapshots *)

(** On the success path [step] returns a new object: it was not in the
    store before, it is not the engine's belief object, and it holds a copy
    of it. *)
Lemma step_copy_on_success (self : CyberAttackEnv) (action : Action) (h : heap)
    (b b' : Belief) reward dn :
  h !! current_state self = Some b →
  step_object self action b = (b', Ok (true, reward, dn)) →
  ∃ h' l,
    step self action h = (h', Ok (l, reward, dn, ∅)) ∧
    l ≠ current_state self ∧ h !! l = None ∧
    h' !! l = Some b' ∧ h' !! current_state self = Some b'.
Proof.
  intros Hh Hobj.
  destruct (store_after_step _ _ _ b' Hh) as (Hcs & Hl & Hne).
  eexists _, _. split; [exact (step_gate_passed_store _ _ _ _ _ _ _ Hh Hobj)|].
  split_and!; [done| |done..]. by apply lookup_ge_None_2.
Qed.

(** C1 does not hold of the code. [reset] returns the very reference the
    engine keeps in [current_state], so a write through the returned value
    is a write to the engine's belief state; the soft-fail path of [step]
    returns that reference too; and a snapshot kept from [reset] is changed
    by a later [step] (here a scan of (0,0) in the test engine). Only the
    success path of [step] copies, see [step_copy_on_success]. *)
Theorem returned_snapshot_is_alias :
  (∀ (self : CyberAttackEnv) (h : heap),
     ∃ self' l h',
       reset self h = (h', Ok (self', l)) ∧
       l = current_state self' ∧
       ∀ b : Belief, <[l := b]> h' !! current_state self' = Some b) ∧
  (∃ reward dn,
     step example_env (scan (1, 0)) example_heap
     = (example_heap, Ok (current_state example_env, reward, dn, ∅))) ∧
  (∃ self' l h1 h2 r,
     reset example_env example_heap = (h1, Ok (self', l)) ∧
     step self' (scan (0, 0)) h1 = (h2, Ok r) ∧
     h2 !! l ≠ h1 !! l).
Proof.
  split_and!.
  - intros self h. eexists _, _, _.
    split; [by cbv [reset se_bind get_initial_state se_ret]|].
    simpl. split; [done|]. intros b.
    apply list_lookup_insert_eq. rewrite length_app. simpl. lia.
  - eexists _, _. vm_compute. reflexivity.
  - eexists _, _, _, _, _. split; [vm_compute; reflexivity|].
    split; [vm_compute; reflexivity|]. vm_compute. intros [=].
Qed.

(** ** Determinism *)

Lemma run2_lockstep (e1 e2 : CyberAttackEnv) (actions : list Action) :
  network e1 = network e2 →
  sensitive_machines e1 = sensitive_machines e2 →
  current_state e1 ≠ current_state e2 →
  ∀ (h : heap) (b : Belief),
    h !! current_state e1 = Some b →
    h !! current_state e2 = Some b →
    Forall (λ rr, reward_done rr.1 = reward_done rr.2) (run2 e1 e2 actions h).2.
Proof.
  intros Hnet Hsens Hne.
  induction actions as [|a actions IH]; intros h b H1 H2; [constructor|].
  cbn [run2].
  pose proof (step_outcome e1 a h b H1) as Hout1.
  destruct (step_store e1 a h b H1) as (b1 & Hb1 & Hb1' & _ & Hlen1 & Hframe1).
  assert (Hlt2 : (current_state e2 < length h)%nat) by (by eapply lookup_lt_Some).
  rewrite <- (Hframe1 (current_state e2)) in H2 by done.
  destruct (step e1 a h) as [h1 r1]. simpl in *.
  pose proof (step_outcome e2 a h1 b H2) as Hout2.
  destruct (step_store e2 a h1 b H2) as (b2 & Hb2 & Hb2' & _ & Hlen2 & Hframe2).
  assert (Hlt1 : (current_state e1 < length h1)%nat) by (by eapply lookup_lt_Some).
  rewrite <- (Hframe2 (current_state e1)) in Hb1 by done.
  destruct (step e2 a h1) as [h2 r2]. simpl in *.
  rewrite <- (step_object_ext e1 e2) in Hout2, Hb2' by done.
  subst b1 b2. specialize (IH h2 _ Hb1 Hb2).
  destruct (run2 e1 e2 actions h2) as [h' rs]. simpl in *.
  constructor; [|done]. simpl. congruence.
Qed.

(** C9: two engines constructed with the same [nM] and [nS] (the seed is
    the constant 1 the constructor re-seeds the generator with), from any
    two states of the process, have the same ground-truth network and the
    same goal set, and every sequence of actions yields the same sequence
    of rewards and done flags (or exceptions) on both. This holds when each
    engine runs on its own and when the second is constructed after the
    first in the same process and the two are driven in lock step. *)
Theorem construction_deterministic (R : NumpyRandom) (nM nS : nat)
    (w1 w1' w2 w2' : rng_state * heap) (e1 e2 : CyberAttackEnv) :
  CyberAttackEnv_init nM nS w1 = (w1', Ok e1) →
  CyberAttackEnv_init nM nS w2 = (w2', Ok e2) →
  network e1 = network e2 ∧
  sensitive_machines e1 = sensitive_machines e2 ∧
  (∀ actions : list Action,
     reward_done <$> (run e1 actions w1'.2).2
     = reward_done <$> (run e2 actions w2'.2).2) ∧
  (w2 = w1' →
   ∀ actions : list Action,
     Forall (λ rr, reward_done rr.1 = reward_done rr.2)
            (run2 e1 e2 actions w2'.2).2).
Proof.
  intros (space & net1 & sens1 & g1 & _ & _ & Hspace & Hnet1 & -> & ->)%init_inv.
  intros (space' & net2 & sens2 & g2 & _ & _ & Hspace' & Hnet2 & -> & ->)%init_inv.
  rewrite Hspace in Hspace'. injection Hspace' as <-.
  rewrite construct_network_seeded in Hnet1, Hnet2.
  rewrite Hnet1 in Hnet2. injection Hnet2 as <- <- <-. simpl.
  assert (Hcs : ∀ h : heap,
            (h ++ [gen_initial_state space nS]) !! length h
            = Some (gen_initial_state space nS)).
  { intros h. by rewrite lookup_app_r, Nat.sub_diag. }
  split_and!; [done..| |].
  - intros actions.
    destruct (run_on_object
                (mkEnv nM nS (mkObservationSpace nM nS space
                                (gen_initial_state space nS))
                       net1 sens1 (length w1.2))
                actions _ _ (Hcs w1.2)) as [-> _].
    destruct (run_on_object
                (mkEnv nM nS (mkObservationSpace nM nS space
                                (gen_initial_state space nS))
                       net1 sens1 (length w2.2))
                actions _ _ (Hcs w2.2)) as [-> _].
    f_equal. by apply run_object_ext.
  - intros -> actions. simpl.
    apply run2_lockstep with (b := gen_initial_state space nS); simpl;
      [done|done| | |].
    + rewrite length_app. simpl. lia.
    + rewrite lookup_app_l by (rewrite length_app; simpl; lia). apply Hcs.
    + apply Hcs.
Qed.

Lemma construction_deterministic_witness :
  ∃ w1' w2' e1 e2,
    CyberAttackEnv_init (R := lcg_random) 4 1 (0, []) = (w1', Ok e1) ∧
    CyberAttackEnv_init (R := lcg_random) 4 1 w1' = (w2', Ok e2) ∧
    network e1 = network e2 ∧
    sensitive_machines e1 = sensitive_machines e2 ∧
    (∀ actions : list Action,
       reward_done <$> (run e1 actions w1'.2).2
       = reward_done <$> (run e2 actions w2'.2).2) ∧
    (w1' = w1' →
     ∀ actions : list Action,
       Forall (λ rr, reward_done rr.1 = reward_done rr.2)
              (run2 e1 e2 actions w2'.2).2).
Proof.
  eexists _, _, _, _.
  assert (H1 : CyberAttackEnv_init (R := lcg_random) 4 1 (0, [])
               = (example_start.1, Ok example_env)) by (vm_compute; reflexivity).
  split; [exact H1|]. split; [vm_compute; reflexivity|].
  apply (construction_deterministic lcg_random 4 1 (0, []) _ example_start.1 _ _ _).
  - exact H1.
  - vm_compute. reflexivity.
Defined.

(** ** AddressSpace.contains *)

Lemma generate_step_subnets (ms : list nat) :
  ∀ acc, Forall (λ a : Address, 0 ≤ a.1 ≤ 2) acc.1.1 →
         Forall (λ a : Address, 0 ≤ a.1 ≤ 2) (fold_left generate_step ms acc).1.1.
Proof.
  induction ms as [|m ms IH]; intros [[addresses s_id] u_id] Hacc; [done|].
  cbn [fold_left]. apply IH. cbn [generate_step fst] in *.
  destruct (m =? 0)%nat; [|destruct (m mod 10 =? 1)%nat]; cbn [fst];
    (apply Forall_app; split; [done|]); apply Forall_singleton; simpl; lia.
Qed.

Lemma generate_address_space_subnets (nM : nat) (space : list Address) :
  generate_address_space nM = Ok space →
  Forall (λ a : Address, 0 ≤ a.1 ≤ 2) space.
Proof.
  unfold generate_address_space. destruct (decide (2 < nM)%nat); [|done].
  pose proof (generate_step_subnets (seq 0 nM) ([], 0, 0)) as H.
  destruct (fold_left generate_step (seq 0 nM) ([], 0, 0)) as [[addresses ?] ?].
  intros [= <-]. rewrite merge_sort_Permutation. apply H. constructor.
Qed.

(** The loop of [bisect_left] ends within [hi - lo] iterations: more fuel
    changes nothing. *)
Lemma bisect_loop_fuel (a : list Address) (x0 x1 : PyVal) :
  ∀ (fuel fuel' lo hi : nat),
    (hi - lo ≤ fuel)%nat → (hi - lo ≤ fuel')%nat →
    bisect_loop fuel a x0 x1 lo hi = bisect_loop fuel' a x0 x1 lo hi.
Proof.
  induction fuel as [|fuel IH]; intros fuel' lo hi Hf Hf'.
  - destruct fuel' as [|fuel']; [done|]. cbn [bisect_loop].
    by rewrite decide_False by lia.
  - destruct fuel' as [|fuel']; cbn [bisect_loop].
    { by rewrite decide_False by lia. }
    destruct (decide (lo < hi)%nat) as [Hlt|]; [|done].
    assert (lo ≤ (lo + hi) / 2 < hi)%nat as [Hlo Hhi].
    { split; [apply Nat.div_le_lower_bound|apply Nat.Div0.div_lt_upper_bound]; lia. }
    destruct (a !! ((lo + hi) / 2)%nat) as [am|]; [|done].
    destruct (addr_lt_py am x0 x1) as [[]|]; [apply IH; lia..|done].
Qed.

(** When every address compares below [x], the search runs to [hi]. *)
Lemma bisect_loop_all_below (a : list Address) (x0 x1 : PyVal) :
  Forall (λ am, addr_lt_py am x0 x1 = Ok true) a →
  ∀ (fuel lo hi : nat),
    (lo ≤ hi ≤ length a)%nat → (hi - lo ≤ fuel)%nat →
    bisect_loop fuel a x0 x1 lo hi = Ok hi.
Proof.
  intros Hbelow. induction fuel as [|fuel IH]; intros lo hi Hlh Hf;
    cbn [bisect_loop].
  - f_equal. lia.
  - destruct (decide (lo < hi)%nat) as [Hlt|]; [|f_equal; lia].
    assert (lo ≤ (lo + hi) / 2 < hi)%nat as [Hlo Hhi].
    { split; [apply Nat.div_le_lower_bound|apply Nat.Div0.div_lt_upper_bound]; lia. }
    destruct (lookup_lt_is_Some_2 a ((lo + hi) / 2)%nat) as [am Ham]; [lia|].
    rewrite Ham. rewrite (proj1 (Forall_lookup _ _) Hbelow _ _ Ham).
    apply IH; lia.
Qed.

Lemma contains_all_below (space : list Address) (x0 x1 : PyVal) :
  Forall (λ am, addr_lt_py am x0 x1 = Ok true) space →
  contains space (PyTuple [x0; x1]) = Raise IndexError ∧
  contains space (PyList [x0; x1]) = Raise IndexError.
Proof.
  intros Hbelow.
  assert (bisect_left space x0 x1 = Ok (length space)) as Hbisect.
  { unfold bisect_left. apply bisect_loop_all_below; [done|lia..]. }
  unfold contains. rewrite Hbisect.
  by rewrite (lookup_ge_None_2 space (length space)).
Qed.

(** C10 does not hold of the code: for every address space the code
    generates, [contains] raises [IndexError] on a pair of integers whose
    subnet is greater than 2, such as (3, 0), given as a tuple or as a
    list: [bisect_left] returns [len(self.space)] and the code indexes
    [self.space] with it. *)
Theorem contains_beyond_end_raises (nM : nat) (space : list Address) (s i : Z) :
  generate_address_space nM = Ok space →
  2 < s →
  contains space (PyTuple [PyInt s; PyInt i]) = Raise IndexError ∧
  contains space (PyList [PyInt s; PyInt i]) = Raise IndexError.
Proof.
  intros Hspace%generate_address_space_subnets Hs.
  apply contains_all_below.
  eapply Forall_impl; [exact Hspace|]. intros a Ha. simpl in Ha.
  unfold addr_lt_py, int_eq_py, int_lt_py.
  replace (a.1 =? s) with false by (symmetry; apply Z.eqb_neq; lia).
  simpl. f_equal. apply Z.ltb_lt. lia.
Qed.

Lemma contains_beyond_end_raises_witness :
  contains [(0, 0); (1, 0); (2, 0)] (PyTuple [PyInt 3; PyInt 0]) = Raise IndexError ∧
  contains [(0, 0); (1, 0); (2, 0)] (PyList [PyInt 3; PyInt 0]) = Raise IndexError.
Proof.
  apply (contains_beyond_end_raises 3 [(0, 0); (1, 0); (2, 0)] 3 0).
  - vm_compute. reflexivity.
  - lia.
Defined.

(** ** The engine invariant

    [consistent], the assumption of the theorems about gate-passing steps,
    holds of every engine the constructor returns and is kept by every
    [step], so it holds throughout the life of an engine. *)

Lemma gen_initial_state_fold (space : list Address) (nS : nat) (a : Address) :
  ∀ init : Belief,
    fold_left (λ init_state m, <[m := initial_machine_state nS m]> init_state)
      space init !! a
    = if decide (a ∈ space) then Some (initial_machine_state nS a) else init !! a.
Proof.
  induction space as [|m space IH]; intros init; simpl.
  - done.
  - rewrite IH. destruct (decide (a ∈ space)) as [Ha|Ha].
    + by rewrite decide_True by (by right).
    + destruct (decide (a = m)) as [->|Hne].
      * rewrite decide_True by (by left). apply lookup_insert_eq.
      * rewrite decide_False by (by apply not_elem_of_cons).
        by rewrite lookup_insert_ne.
Qed.

Lemma gen_initial_state_lookup (space : list Address) (nS : nat) (a : Address) :
  gen_initial_state space nS !! a
  = if decide (a ∈ space) then Some (initial_machine_state nS a) else None.
Proof. unfold gen_initial_state. by rewrite gen_initial_state_fold. Qed.

Lemma initial_machine_state_length (nS : nat) (a : Address) :
  length (services (initial_machine_state nS a)) = nS.
Proof.
  unfold initial_machine_state. destruct (a.1 =? 0); simpl; apply length_replicate.
Qed.

Lemma init_consistent {R : NumpyRandom} (nM nS : nat)
    (w w' : rng_state * heap) (self : CyberAttackEnv) :
  CyberAttackEnv_init nM nS w = (w', Ok self) →
  ∃ b, w'.2 !! current_state self = Some b ∧
       b = initial_observation (observation_space self) ∧
       consistent self b.
Proof.
  intros (space & net & sens & g' & _ & HnS & Hspace & Hnet & -> & ->)%init_inv.
  apply construct_network_inv in Hnet as (space' & Hspace' & -> & Hout & Hin).
  rewrite Hspace in Hspace'. injection Hspace' as <-. simpl.
  exists (gen_initial_state space nS).
  split; [by rewrite lookup_app_r, Nat.sub_diag|]. split; [done|].
  destruct nS as [|n]; [lia|]. split; simpl.
  - intros a st. rewrite gen_initial_state_lookup.
    destruct (decide (a ∈ space)) as [Ha|]; [|done]. intros [= <-].
    destruct (Hin a Ha) as (c & [Hlen _]%elem_of_service_configs & Hc).
    unfold machine_consistent. simpl. rewrite Hc. simpl.
    by rewrite initial_machine_state_length.
  - apply Forall_forall. intros a [_ Ha]%list_elem_of_filter.
    rewrite gen_initial_state_lookup, decide_True by done. eauto.
Qed.

Lemma run_consistent (self : CyberAttackEnv) (actions : list Action)
    (h : heap) (b : Belief) :
  h !! current_state self = Some b →
  consistent self b →
  ∃ b', (run self actions h).1 !! current_state self = Some b' ∧
        consistent self b'.
Proof.
  intros Hh Hcons. destruct (run_evolves self actions h b Hh) as (b' & Hb' & Hev).
  exists b'. split; [done|]. by eapply consistent_evolves.
Qed.

(** The same for [reset]: the template it copies is consistent. *)
Lemma reset_consistent (self : CyberAttackEnv) (h : heap) :
  consistent self (initial_observation (observation_space self)) →
  ∃ self' l h' b,
    reset self h = (h', Ok (self', l)) ∧
    h' !! current_state self' = Some b ∧
    consistent self' b.
Proof.
  intros Hcons.
  destruct (reset_store self h) as (self' & l & h' & Hreset & _ & Hb & Hn & Hs & _).
  exists self', l, h', (initial_observation (observation_space self)).
  split; [done|]. split; [done|].
  unfold consistent in *. by rewrite Hn, Hs.
Qed.

(** ** AddressSpace.contains on pairs of integers

    Where [contains] does return: on a pair of integers that is not above
    every address of the space it answers membership; above every address
    it raises [IndexError]. *)

Global Instance addr_le_trans : Transitive addr_le.
Proof. intros [??] [??] [??]. unfold addr_le. simpl. lia. Qed.

Global Instance addr_le_total : Total addr_le.
Proof. intros [??] [??]. unfold addr_le. simpl. lia. Qed.

Lemma addr_lt_py_int (a : Address) (s i : Z) :
  addr_lt_py a (PyInt s) (PyInt i) = Ok (bool_decide (addr_lt a (s, i))).
Proof.
  unfold addr_lt_py, int_eq_py, int_lt_py, addr_lt. simpl.
  destruct (Z.eqb_spec a.1 s), (Z.eqb_spec a.2 i); simpl;
    repeat match goal with
           | |- context [?x <? ?y] => destruct (Z.ltb_spec x y)
           end;
    f_equal; symmetry;
    (apply bool_decide_eq_true_2 + apply bool_decide_eq_false_2); lia.
Qed.

Lemma addr_eq_py_int (a : Address) (s i : Z) :
  addr_eq_py a (PyInt s) (PyInt i) = bool_decide (a = (s, i)).
Proof.
  unfold addr_eq_py, int_eq_py. destruct a as [a1 a2]. simpl.
  destruct (Z.eqb_spec a1 s), (Z.eqb_spec a2 i); simpl; symmetry;
    (apply bool_decide_eq_true_2 + apply bool_decide_eq_false_2); congruence.
Qed.

Lemma generate_address_space_sorted (nM : nat) (space : list Address) :
  generate_address_space nM = Ok space → StronglySorted addr_le space.
Proof.
  unfold generate_address_space. destruct (decide (2 < nM)%nat); [|done].
  destruct (fold_left generate_step (seq 0 nM) ([], 0, 0)) as [[addresses ?] ?].
  intros [= <-]. apply StronglySorted_merge_sort; apply _.
Qed.

Lemma sorted_lookup_le (l : list Address) (j k : nat) (x y : Address) :
  StronglySorted addr_le l → (j ≤ k)%nat →
  l !! j = Some x → l !! k = Some y → addr_le x y.
Proof.
  intros Hsorted. revert j k. induction Hsorted as [|z l Hl IH Hz]; [done|].
  intros [|j] [|k] Hjk Hx Hy; simpl in *.
  - injection Hx as <-. injection Hy as <-. unfold addr_le. lia.
  - injection Hx as <-. apply (proj1 (Forall_lookup _ _) Hz _ _ Hy).
  - lia.
  - apply (IH j k); [lia|done..].
Qed.

(** The loop invariant of [bisect_left]: everything left of [lo] is below
    [x], nothing from [hi] on is. *)
Lemma bisect_loop_int (a : list Address) (s i : Z) :
  StronglySorted addr_le a →
  ∀ (fuel lo hi : nat),
    (lo ≤ hi ≤ length a)%nat → (hi - lo ≤ fuel)%nat →
    (∀ j am, (j < lo)%nat → a !! j = Some am → addr_lt am (s, i)) →
    (∀ j am, (hi ≤ j)%nat → a !! j = Some am → ¬ addr_lt am (s, i)) →
    ∃ r, bisect_loop fuel a (PyInt s) (PyInt i) lo hi = Ok r ∧
         (r ≤ length a)%nat ∧
         (∀ j am, (j < r)%nat → a !! j = Some am → addr_lt am (s, i)) ∧
         (∀ j am, (r ≤ j)%nat → a !! j = Some am → ¬ addr_lt am (s, i)).
Proof.
  intros Hsorted. induction fuel as [|fuel IH]; intros lo hi Hlh Hf Hlo Hhi;
    cbn [bisect_loop].
  - exists lo. split_and!; [done|lia|done|].
    intros j am Hj. apply Hhi. lia.
  - destruct (decide (lo < hi)%nat) as [Hlt|Hge].
    2: { exists lo. split_and!; [done|lia|done|].
         intros j am Hj. apply Hhi. lia. }
    assert (lo ≤ (lo + hi) / 2 < hi)%nat as [Hmlo Hmhi].
    { split; [apply Nat.div_le_lower_bound|apply Nat.Div0.div_lt_upper_bound]; lia. }
    destruct (lookup_lt_is_Some_2 a ((lo + hi) / 2)%nat) as [am Ham]; [lia|].
    rewrite Ham, addr_lt_py_int.
    destruct (bool_decide_reflect (addr_lt am (s, i))) as [Hbelow|Hnot].
    + apply IH; [lia..| |done].
      intros j aj Hj Haj.
      pose proof (sorted_lookup_le a j ((lo + hi) / 2) aj am Hsorted) as Hle.
      specialize (Hle ltac:(lia) Haj Ham).
      unfold addr_le, addr_lt in *. simpl in *. lia.
    + apply IH; [lia..|done|].
      intros j aj Hj Haj.
      pose proof (sorted_lookup_le a ((lo + hi) / 2) j am aj Hsorted) as Hle.
      specialize (Hle ltac:(lia) Ham Haj).
      unfold addr_le, addr_lt in *. simpl in *. lia.
Qed.

Lemma contains_int_pair (nM : nat) (space : list Address) (s i : Z) :
  generate_address_space nM = Ok space →
  contains space (PyTuple [PyInt s; PyInt i]) =
    if decide (Forall (λ a, addr_lt a (s, i)) space) then Raise IndexError
    else Ok (bool_decide ((s, i) ∈ space)).
Proof.
  intros Hsorted%generate_address_space_sorted.
  destruct (bisect_loop_int space s i Hsorted (length space) 0 (length space))
    as (r & Hr & Hlen & Hbelow & Habove); [lia|lia| | |].
  { intros j am Hj. lia. }
  { intros j am Hj Ham. apply lookup_lt_Some in Ham. lia. }
  unfold contains, bisect_left. rewrite Hr.
  destruct (space !! r) as [ar|] eqn:Har.
  - rewrite decide_False.
    2: { intros Hall. apply (Habove r ar); [lia|done|].
         by apply (proj1 (Forall_lookup _ _) Hall r ar). }
    rewrite addr_eq_py_int. f_equal. apply bool_decide_ext. split.
    + intros ->. by eapply list_elem_of_lookup_2.
    + intros [j Hj]%list_elem_of_lookup.
      destruct (decide (j < r)%nat) as [Hjr|Hjr].
      { pose proof (Hbelow j _ Hjr Hj) as Hlt. unfold addr_lt in Hlt. simpl in *. lia. }
      pose proof (sorted_lookup_le space r j ar (s, i) Hsorted ltac:(lia) Har Hj) as Hle.
      pose proof (Habove r ar ltac:(lia) Har) as Hnlt.
      destruct ar as [a1 a2]. unfold addr_le, addr_lt in *. simpl in *.
      f_equal; lia.
  - apply lookup_ge_None in Har. rewrite decide_True; [done|].
    apply Forall_lookup. intros j aj Hj. apply (Hbelow j aj); [|done].
    apply lookup_lt_Some in Hj. lia.
Qed.

(** Values that are not pairs are rejected without any search. *)
Lemma contains_not_a_pair (space : list Address) (x : PyVal) :
  (∀ x0 x1, x ≠ PyTuple [x0; x1] ∧ x ≠ PyList [x0; x1]) →
  contains space x = Ok false.
Proof.
  intros Hx. unfold contains.
  destruct x as [z| |[|x0 [|x1 [|x2 l]]]|[|x0 [|x1 [|x2 l]]]]; try done.
  - by destruct (Hx x0 x1) as [? _].
  - by destruct (Hx x0 x1) as [_ ?].
Qed.

(** A pair whose components cannot be ordered against integers makes the
    search itself raise. *)
Lemma contains_unorderable_raises :
  contains [(0, 0); (1, 0); (2, 0)] (PyTuple [PyNone; PyInt 0]) = Raise TypeError.
Proof. reflexivity. Qed.

(** * Further properties *)

(** ** The address space *)

Lemma address_eq (a1 a2 b1 b2 : Z) :
  (a1, a2) = ((b1, b2) : Address) ↔ a1 = b1 ∧ a2 = b2.
Proof. split; [by intros [= -> ->]|by intros [-> ->]]. Qed.

Lemma generate_loop_invariant (n : nat) :
  ∃ addresses s_id u_id,
    fold_left generate_step (seq 0 n) ([], 0, 0) = (addresses, s_id, u_id) ∧
    length addresses = n ∧
    s_id = subnet1_size n ∧
    s_id + u_id + (if n is O then 0 else 1) = Z.of_nat n ∧
    0 ≤ u_id ∧
    NoDup addresses ∧
    ∀ a : Address,
      a ∈ addresses ↔
      ((0 < n)%nat ∧ a = (0, 0)) ∨ (a.1 = 1 ∧ 0 ≤ a.2 < s_id)
      ∨ (a.1 = 2 ∧ 0 ≤ a.2 < u_id).
Proof.
  induction n as [|n (addresses & s_id & u_id & Hfold & Hlen & Hs & Hsum & Hu & Hnd & Hin)].
  - exists [], 0, 0. split_and!; try done; [constructor|].
    intros a. rewrite elem_of_nil. lia.
  - rewrite seq_S, fold_left_app, Hfold. cbn [fold_left generate_step Nat.add].
    assert (Hs0 : 0 ≤ s_id) by (rewrite Hs; unfold subnet1_size; lia).
    pose proof (Nat.div_mod_eq (n + 9) 10) as Hd9.
    pose proof (Nat.div_mod_eq (n + 8) 10) as Hd8.
    pose proof (Nat.div_mod_eq n 10) as Hd.
    pose proof (Nat.mod_upper_bound (n + 9) 10 ltac:(lia)) as Hm9.
    pose proof (Nat.mod_upper_bound (n + 8) 10 ltac:(lia)) as Hm8.
    pose proof (Nat.mod_upper_bound n 10 ltac:(lia)) as Hm.
    assert (Hfresh : ∀ b : Address,
              (b = (0, 0) ∧ n = O) ∨ b = (1, s_id) ∨ b = (2, u_id) →
              b ∉ addresses).
    { intros b Hb Hel%Hin. destruct Hb as [[-> ->] | [-> | ->]];
        destruct Hel as [[? ?]|[[? ?]|[? ?]]]; simplify_eq/=; lia. }
    destruct (Nat.eqb_spec n 0) as [->|Hn0];
      [|destruct (Nat.eqb_spec (n mod 10) 1) as [Hmod|Hmod]].
    + eexists _, _, _. split; [done|].
      rewrite length_app. unfold subnet1_size in *. simpl in *.
      split_and!; try lia.
      * apply NoDup_app. split_and!; [done| |apply NoDup_singleton].
        intros a Ha ->%list_elem_of_singleton. apply (Hfresh (0, 0)); auto.
      * intros [a1 a2]. rewrite elem_of_app, list_elem_of_singleton, Hin.
        simpl. rewrite !address_eq. lia.
    + eexists _, _, _. split; [done|].
      rewrite length_app. unfold subnet1_size in *. simpl length.
      replace (S n + 8)%nat with (n + 9)%nat by lia.
      split_and!; try (destruct n; lia).
      * apply NoDup_app. split_and!; [done| |apply NoDup_singleton].
        intros a Ha ->%list_elem_of_singleton. apply (Hfresh (1, s_id)); auto.
      * intros [a1 a2]. rewrite elem_of_app, list_elem_of_singleton, Hin.
        simpl. rewrite !address_eq. lia.
    + eexists _, _, _. split; [done|].
      rewrite length_app. unfold subnet1_size in *. simpl length.
      replace (S n + 8)%nat with (n + 9)%nat by lia.
      split_and!; try (destruct n; lia).
      * apply NoDup_app. split_and!; [done| |apply NoDup_singleton].
        intros a Ha ->%list_elem_of_singleton. apply (Hfresh (2, u_id)); auto.
      * intros [a1 a2]. rewrite elem_of_app, list_elem_of_singleton, Hin.
        simpl. rewrite !address_eq. lia.
Qed.

Lemma sorted_nodup_strict (l : list Address) :
  StronglySorted addr_le l → NoDup l → StronglySorted addr_lt l.
Proof.
  induction 1 as [|x l Hl IH Hx]; intros Hnd; [constructor|].
  apply NoDup_cons in Hnd as [Hx' Hnd]. constructor; [auto|].
  apply Forall_forall. intros y Hy.
  pose proof (proj1 (Forall_forall _ _) Hx y Hy) as Hle.
  assert (x ≠ y) by (by intros ->).
  destruct x as [x1 x2], y as [y1 y2]. unfold addr_le, addr_lt in *. simpl in *.
  rewrite address_eq in *. lia.
Qed.

Lemma generate_address_space_facts (nM : nat) (space : list Address) :
  generate_address_space nM = Ok space →
  (2 < nM)%nat ∧
  length space = nM ∧
  StronglySorted addr_lt space ∧
  NoDup space ∧
  ∀ a : Address,
    a ∈ space ↔
    a = (0, 0) ∨ (a.1 = 1 ∧ 0 ≤ a.2 < subnet1_size nM)
    ∨ (a.1 = 2 ∧ 0 ≤ a.2 < subnet2_size nM).
Proof.
  intros Hgen. pose proof (generate_address_space_sorted _ _ Hgen) as Hsorted.
  unfold generate_address_space in Hgen.
  destruct (decide (2 < nM)%nat) as [HnM|]; [|done].
  destruct (generate_loop_invariant nM)
    as (addresses & s_id & u_id & Hfold & Hlen & Hs & Hsum & Hu & Hnd & Hin).
  rewrite Hfold in Hgen. injection Hgen as <-.
  pose proof (merge_sort_Permutation addr_le addresses) as Hperm.
  assert (NoDup (merge_sort addr_le addresses)) as Hnd' by (by rewrite Hperm).
  split_and!; [done|by rewrite Hperm|by apply sorted_nodup_strict|done|].
  intros a. rewrite Hperm, Hin. unfold subnet2_size. rewrite <- Hs.
  destruct nM; [lia|]. intuition lia.
Qed.

Lemma generate_address_space_returns (nM : nat) :
  (2 < nM)%nat → ∃ space, generate_address_space nM = Ok space.
Proof.
  intros HnM. unfold generate_address_space. rewrite decide_True by done.
  destruct (fold_left generate_step (seq 0 nM) ([], 0, 0)) as [[addresses ?] ?].
  eauto.
Qed.

Lemma subnet_sizes_positive (nM : nat) :
  (2 < nM)%nat → 0 < subnet1_size nM ∧ 0 < subnet2_size nM.
Proof.
  intros HnM. unfold subnet2_size, subnet1_size.
  pose proof (Nat.div_mod_eq (nM + 8) 10) as Hd.
  pose proof (Nat.mod_upper_bound (nM + 8) 10 ltac:(lia)) as Hm. lia.
Qed.

(** X1 [generate_address_space]: the assertion fails exactly for [nM <= 2];
    for [nM > 2] the function returns [nM] addresses in strictly increasing
    tuple order, so without duplicates, and the first one is (0, 0). *)
Theorem address_space_size_and_order (nM : nat) :
  ((nM ≤ 2)%nat → generate_address_space nM = Raise AssertionError) ∧
  ((2 < nM)%nat →
   ∃ space,
     generate_address_space nM = Ok space ∧
     length space = nM ∧
     StronglySorted addr_lt space ∧
     NoDup space ∧
     head space = Some (0, 0)).
Proof.
  split.
  - intros HnM. unfold generate_address_space. by rewrite decide_False by lia.
  - intros HnM. destruct (generate_address_space_returns nM HnM) as [space Hgen].
    destruct (generate_address_space_facts _ _ Hgen)
      as (_ & Hlen & Hsorted & Hnd & Hin).
    exists space. split_and!; try done.
    destruct space as [|x l]; [simpl in Hlen; lia|]. simpl. f_equal.
    assert ((0, 0) ∈ x :: l) as Hzero by (apply Hin; by left).
    apply elem_of_cons in Hzero as [<-|Hzero]; [done|].
    apply StronglySorted_inv in Hsorted as [_ Hx].
    pose proof (proj1 (Forall_forall _ _) Hx _ Hzero) as Hlt.
    assert (x ∈ x :: l) as Hxin by (by left). apply Hin in Hxin.
    destruct x as [x1 x2]. unfold addr_lt in Hlt. simpl in *.
    rewrite address_eq in Hxin. lia.
Qed.

Lemma address_space_size_and_order_witness :
  generate_address_space 2 = Raise AssertionError ∧
  ∃ space,
    generate_address_space 14 = Ok space ∧
    length space = 14%nat ∧
    StronglySorted addr_lt space ∧
    NoDup space ∧
    head space = Some (0, 0).
Proof.
  split.
  - apply (proj1 (address_space_size_and_order 2)). lia.
  - apply (proj2 (address_space_size_and_order 14)). lia.
Defined.

(** X2 [generate_address_space]: the addresses generated for [nM] machines
    are (0, 0), the ids 0 .. n1 - 1 in subnet 1 with [n1 = (nM + 8) // 10],
    and the ids 0 .. nM - 2 - n1 in subnet 2, and nothing else; both
    (1, 0) and (2, 0) are always among them. *)
Theorem address_space_members (nM : nat) (space : list Address) :
  generate_address_space nM = Ok space →
  (∀ a : Address,
     a ∈ space ↔
     a = (0, 0) ∨ (a.1 = 1 ∧ 0 ≤ a.2 < Z.of_nat ((nM + 8) / 10))
     ∨ (a.1 = 2 ∧ 0 ≤ a.2 < Z.of_nat nM - 1 - Z.of_nat ((nM + 8) / 10))) ∧
  (1, 0) ∈ space ∧ (2, 0) ∈ space.
Proof.
  intros Hgen.
  destruct (generate_address_space_facts _ _ Hgen) as (HnM & _ & _ & _ & Hin).
  destruct (subnet_sizes_positive nM HnM) as [H1 H2].
  split; [exact Hin|]. split; apply Hin; simpl; lia.
Qed.

Lemma address_space_members_witness :
  (∀ a : Address,
     a ∈ [(0, 0); (1, 0); (2, 0); (2, 1)] ↔
     a = (0, 0) ∨ (a.1 = 1 ∧ 0 ≤ a.2 < Z.of_nat ((4 + 8) / 10))
     ∨ (a.1 = 2 ∧ 0 ≤ a.2 < Z.of_nat 4 - 1 - Z.of_nat ((4 + 8) / 10))) ∧
  (1, 0) ∈ [(0, 0); (1, 0); (2, 0); (2, 1)] ∧
  (2, 0) ∈ [(0, 0); (1, 0); (2, 0); (2, 1)].
Proof.
  apply (address_space_members 4 [(0, 0); (1, 0); (2, 0); (2, 1)]).
  vm_compute. reflexivity.
Defined.

(** ** Every case of a step *)

Lemma py_index_wrap (len : nat) (i : Z) :
  - Z.of_nat len ≤ i < 0 → py_index len i = py_index len (i + Z.of_nat len).
Proof.
  intros Hi. unfold py_index.
  rewrite (decide_False (P := 0 ≤ i < Z.of_nat len)) by lia.
  rewrite decide_True by lia. by rewrite decide_True by lia.
Qed.

Lemma py_index_out_of_range (len : nat) (i : Z) :
  ¬ (- Z.of_nat len ≤ i < Z.of_nat len) → py_index len i = Raise IndexError.
Proof.
  intros Hi. unfold py_index. rewrite decide_False by lia.
  by rewrite decide_False by lia.
Qed.

(** A negative kind within range acts as the kind it wraps to. *)
Lemma step_object_wrap (self : CyberAttackEnv) (t : Address) (k : Z)
    (b : Belief) (st : MachineState) (m : Machine) :
  b !! t = Some st →
  network self !! t = Some m →
  length (services st) = length (m_services m) →
  - Z.of_nat (length (m_services m)) < k < 0 →
  step_object self (mkAction t k) b
  = step_object self (mkAction t (k + Z.of_nat (length (m_services m)))) b.
Proof.
  intros Hb Hnet Hlen Hk.
  assert (Hs1 : (k =? SCAN) = false) by (apply Z.eqb_neq; unfold SCAN; lia).
  assert (Hs2 : (k + Z.of_nat (length (m_services m)) =? SCAN) = false)
    by (apply Z.eqb_neq; unfold SCAN; lia).
  assert (Hidx : py_index (length (m_services m)) (k - 1)
                 = py_index (length (m_services m))
                     (k + Z.of_nat (length (m_services m)) - 1)).
  { rewrite py_index_wrap by lia. f_equal. lia. }
  assert (Hset : ∀ v,
            set_service t (k - 1) v b
            = set_service t (k + Z.of_nat (length (m_services m)) - 1) v b).
  { intros v. unfold set_service. by rewrite Hb, Hlen, Hidx. }
  unfold step_object, _take_action, se_bind, read_machine, se_lift, getitem.
  simpl. rewrite Hb, Hnet, Hs1, Hs2. simpl. rewrite Hidx.
  destruct (negb (reachable st) || compromised st); [done|].
  destruct (py_index (length (m_services m))
              (k + Z.of_nat (length (m_services m)) - 1)) as [i|e]; [|done].
  destruct (default false (m_services m !! i)).
  - unfold _update_state, se_bind, read_machine, getitem. simpl.
    by rewrite Hb, Hs1, Hs2.
  - unfold _update_state, se_bind, read_machine, getitem. simpl.
    by rewrite Hb, Hset.
Qed.

Lemma step_object_bad_kind (self : CyberAttackEnv) (action : Action)
    (b : Belief) (st : MachineState) (m : Machine) :
  b !! a_target action = Some st →
  reachable st = true → compromised st = false →
  network self !! a_target action = Some m →
  ¬ kind_in_range (length (m_services m)) (a_action action) →
  step_object self action b = (b, Raise IndexError).
Proof.
  intros Hb Hr Hc Hnet Hk. unfold kind_in_range, SCAN in Hk.
  unfold step_object, _take_action, se_bind, read_machine, se_lift, getitem.
  rewrite Hb, Hr, Hc, Hnet. simpl.
  replace (a_action action =? SCAN) with false
    by (symmetry; apply Z.eqb_neq; unfold SCAN; lia).
  by rewrite py_index_out_of_range by lia.
Qed.

Lemma step_object_classify (self : CyberAttackEnv) (action : Action) (b : Belief) :
  consistent self b →
  step_case self action b (step_object self action b).
Proof.
  intros Hcons. destruct action as [t k].
  destruct (b !! t) as [st|] eqn:Hb.
  2: { replace (step_object self (mkAction t k) b) with (b, Raise KeyError (A := bool * Z * bool)).
       - by apply case_unknown_target.
       - unfold step_object, se_bind, read_machine, getitem. simpl. by rewrite Hb. }
  destruct (consistent_lookup _ _ _ _ Hcons Hb) as (m & Hnet & Hlen).
  destruct (reachable st) eqn:Hr; [destruct (compromised st) eqn:Hc|].
  2: {
    destruct (decide (kind_in_range (length (m_services m)) k)) as [Hk|Hk].
    2: { rewrite (step_object_bad_kind self (mkAction t k) b st m) by done.
         by eapply case_bad_kind. }
    destruct (decide (k = SCAN)) as [->|Hscan].
    { destruct (step_object_scan self (mkAction t SCAN) b st m)
        as (dn & -> & Hdn); try done.
      by eapply case_scan. }
    assert (Heff : 1 ≤ effective_kind (length (m_services m)) k
                   ≤ Z.of_nat (length (m_services m))).
    { unfold kind_in_range, effective_kind, SCAN in *. case_decide; lia. }
    assert (Hstep : step_object self (mkAction t k) b
                    = step_object self
                        (mkAction t (effective_kind (length (m_services m)) k)) b).
    { unfold effective_kind. case_decide; [|done].
      apply (step_object_wrap self t k b st m); try done.
      unfold kind_in_range, SCAN in *. lia. }
    rewrite Hstep.
    destruct (service_present m (effective_kind (length (m_services m)) k)) eqn:Hp.
    - destruct (step_object_exploit_success self
                  (mkAction t (effective_kind (length (m_services m)) k)) b st m)
        as (dn & -> & Hdn); try done.
      by apply (case_exploit_success self (mkAction t k) b st m dn).
    - destruct (step_object_exploit_failure self
                  (mkAction t (effective_kind (length (m_services m)) k)) b st m)
        as (dn & -> & Hdn); try done.
      by apply (case_exploit_failure self (mkAction t k) b st m dn). }
  all: replace (step_object self (mkAction t k) b)
         with (b, Ok (false, 0 - (if k =? SCAN then COST_SCAN else COST_EXPLOIT), false));
    [eapply case_stopped; [done|]; simpl; rewrite ?Hr, ?Hc; auto|].
  all: unfold step_object, se_bind, read_machine, getitem, se_ret; simpl.
  all: by rewrite Hb, ?Hr, ?Hc.
Qed.

(** ** The invariant of a constructed engine *)

Lemma init_constructed {R : NumpyRandom} (nM nS : nat)
    (w w' : rng_state * heap) (self : CyberAttackEnv) :
  CyberAttackEnv_init nM nS w = (w', Ok self) →
  constructed self ∧
  w'.2 !! current_state self = Some (initial_observation (observation_space self)).
Proof.
  intros (space & net & sens & g' & _ & HnS & Hspace & Hnet & -> & ->)%init_inv.
  apply construct_network_inv in Hnet as (space' & Hspace' & -> & Hout & Hin).
  rewrite Hspace in Hspace'. injection Hspace' as <-. simpl. split.
  - exists space. simpl. split_and!; done.
  - by rewrite lookup_app_r, Nat.sub_diag.
Qed.

Lemma constructed_space (self : CyberAttackEnv) :
  constructed self →
  ∀ a, a ∈ address_space (observation_space self) →
       0 ≤ a.1 ≤ 2 ∧ 0 ≤ a.2 ∧ (a.1 = 0 → a = (0, 0)) ∧
       (0, 0) ∈ address_space (observation_space self).
Proof.
  intros (space & Hgen & -> & _) a Ha. simpl in *.
  destruct (generate_address_space_facts _ _ Hgen) as (_ & _ & _ & _ & Hin).
  split_and!; [..|apply Hin; by left];
    apply Hin in Ha; destruct a as [a1 a2]; simpl in *;
    rewrite ?address_eq in *; lia.
Qed.

Lemma constructed_consistent (self : CyberAttackEnv) (b : Belief) :
  constructed self → engine_state self b → consistent self b.
Proof.
  intros (space & Hgen & Hos & _ & Hsens & _) Hes. split.
  - intros a st Hb. destruct (es_sound _ _ Hes a st Hb) as (m & Hm & Hlen & _).
    unfold machine_consistent. by rewrite Hm.
  - apply Forall_forall. intros a Ha. apply (es_keys _ _ Hes).
    rewrite Hos. simpl. rewrite Hsens in Ha.
    by apply list_elem_of_filter in Ha as [_ ?].
Qed.

Lemma initial_state_engine_state (self : CyberAttackEnv) :
  constructed self →
  engine_state self (initial_observation (observation_space self)).
Proof.
  intros Hc. pose proof (constructed_space self Hc) as Hspace.
  destruct Hc as (space & Hgen & Hos & HnS & Hsens & Hout & Hin).
  rewrite Hos in *. simpl in *.
  assert (Hzero : compromised_at (gen_initial_state space (nS self)) (0, 0) = false).
  { unfold compromised_at. rewrite gen_initial_state_lookup.
    case_decide; [|done]. done. }
  split; rewrite ?Hos; simpl.
  - intros a. rewrite gen_initial_state_lookup. case_decide; [by eauto|].
    split; [by intros [? ?]|done].
  - intros a st. rewrite gen_initial_state_lookup. case_decide as Ha; [|done].
    intros [= <-]. destruct (Hin a Ha) as (c & Hc & Hnet).
    exists (mkMachine c (machine_value a)). split; [done|].
    assert (Hunknown : ∀ (i : nat) (x : ServiceState),
              services (initial_machine_state (nS self) a) !! i = Some x →
              x = UNKNOWN).
    { intros i x. unfold initial_machine_state.
      destruct (a.1 =? 0); cbn [services]; by intros [-> _]%lookup_replicate. }
    assert (Hlen : length c = nS self).
    { destruct (nS self) as [|n]; [lia|].
      by apply elem_of_service_configs in Hc as [Hlen _]. }
    split_and!; simpl.
    + by rewrite initial_machine_state_length.
    + intros i Hi. by apply Hunknown in Hi.
    + intros i Hi. by apply Hunknown in Hi.
    + unfold initial_machine_state. by destruct (a.1 =? 0).
  - intros a st. rewrite gen_initial_state_lookup. case_decide as Ha; [|done].
    intros [= <-]. rewrite Hsens, list_elem_of_filter.
    destruct (Hspace a Ha) as (Hsub & _). unfold initial_machine_state, value_bearing.
    destruct (Z.eqb_spec a.1 0); simpl.
    + split; [done|]. lia.
    + rewrite Z.eqb_eq. split; [intros ?; split; [lia|done]|tauto].
  - intros a st. rewrite gen_initial_state_lookup. case_decide as Ha; [|done].
    intros [= <-]. rewrite Hzero. unfold initial_machine_state.
    destruct (Z.eqb_spec a.1 0); simpl; split; try done; auto.
    intros [?|?]; done.
  - intros a st. rewrite gen_initial_state_lookup. case_decide as Ha; [|done].
    intros [= <-]. unfold initial_machine_state. by destruct (a.1 =? 0).
Qed.

Lemma revealed_lookup (l : list bool) (i : nat) (x : ServiceState) :
  (revealed <$> l) !! i = Some x →
  (x = PRESENT ∧ l !! i = Some true) ∨ (x = ABSENT ∧ l !! i = Some false).
Proof.
  rewrite list_lookup_fmap. destruct (l !! i) as [[]|]; simpl; intros [= <-]; auto.
Qed.

Lemma revealed_sound (m : Machine) (c s r : bool) :
  sound_belief m (mkMachineState (revealed <$> m_services m) c s r).
Proof.
  split_and!; simpl; [by rewrite length_fmap| | |done].
  - intros i [[_ ?]|[[=] _]]%revealed_lookup. done.
  - intros i [[[=] _]|[_ ?]]%revealed_lookup. done.
Qed.

Lemma engine_state_update (self : CyberAttackEnv) (b : Belief) (t : Address)
    (st st' : MachineState) (m : Machine) :
  engine_state self b →
  b !! t = Some st →
  network self !! t = Some m →
  sound_belief m st' →
  sensitive st' = sensitive st →
  reachable st' = reachable st →
  compromised st' = compromised st ∨
  (compromised st' = true ∧ reachable st = true ∧ t.1 ≠ 0) →
  engine_state self (<[t := st']> b).
Proof.
  intros Hes Hb Hnet Hsound Hsens Hreach Hcomp.
  assert (Hzero : compromised_at (<[t := st']> b) (0, 0) = compromised_at b (0, 0)).
  { unfold compromised_at. destruct (decide (t = (0, 0))) as [->|Hne].
    - rewrite lookup_insert_eq, Hb. simpl.
      destruct Hcomp as [?|(_ & _ & ?)]; [done|]. simpl in *. lia.
    - by rewrite lookup_insert_ne. }
  split.
  - intros a. rewrite <- (es_keys _ _ Hes).
    destruct (decide (a = t)) as [->|Hne].
    + rewrite lookup_insert_eq, Hb. split; eauto.
    + by rewrite lookup_insert_ne.
  - intros a sta. destruct (decide (a = t)) as [->|Hne].
    + rewrite lookup_insert_eq. intros [= <-]. eauto.
    + rewrite lookup_insert_ne by done. apply (es_sound _ _ Hes).
  - intros a sta. destruct (decide (a = t)) as [->|Hne].
    + rewrite lookup_insert_eq. intros [= <-]. rewrite Hsens.
      exact (es_sensitive _ _ Hes _ _ Hb).
    + rewrite lookup_insert_ne by done. apply (es_sensitive _ _ Hes).
  - intros a sta. rewrite Hzero. destruct (decide (a = t)) as [->|Hne].
    + rewrite lookup_insert_eq. intros [= <-]. rewrite Hreach.
      exact (es_reachable _ _ Hes _ _ Hb).
    + rewrite lookup_insert_ne by done. apply (es_reachable _ _ Hes).
  - intros a sta. destruct (decide (a = t)) as [->|Hne].
    + rewrite lookup_insert_eq. intros [= <-]. rewrite Hreach.
      destruct Hcomp as [->|(_ & ? & _)]; [|done].
      exact (es_compromised _ _ Hes _ _ Hb).
    + rewrite lookup_insert_ne by done. apply (es_compromised _ _ Hes).
Qed.

Lemma engine_state_open (self : CyberAttackEnv) (b : Belief)
    (st st' : MachineState) (m : Machine) :
  engine_state self b →
  b !! (0, 0) = Some st →
  network self !! (0, 0) = Some m →
  sound_belief m st' →
  sensitive st' = sensitive st →
  compromised st' = true →
  engine_state self (set_reachable <$> <[(0, 0) := st']> b).
Proof.
  intros Hes Hb Hnet Hsound Hsens Hcomp.
  assert (Hzero : compromised_at (set_reachable <$> <[(0, 0) := st']> b) (0, 0) = true).
  { unfold compromised_at. by rewrite lookup_fmap, lookup_insert_eq. }
  assert (Hlook : ∀ a sta,
            (set_reachable <$> <[(0, 0) := st']> b) !! a = Some sta →
            ∃ st0, sta = set_reachable st0 ∧
                   ((a = (0, 0) ∧ st0 = st') ∨ (a ≠ (0, 0) ∧ b !! a = Some st0))).
  { intros a sta. rewrite lookup_fmap. destruct (decide (a = (0, 0))) as [->|Hne].
    - rewrite lookup_insert_eq. intros [= <-]. eauto.
    - rewrite lookup_insert_ne by done.
      destruct (b !! a) as [st0|]; [|done]. intros [= <-]. eauto 6. }
  split.
  - intros a. rewrite <- (es_keys _ _ Hes), lookup_fmap.
    destruct (decide (a = (0, 0))) as [->|Hne].
    + rewrite lookup_insert_eq. split; intros _; [by exists st|by eexists].
    + rewrite lookup_insert_ne by done. apply fmap_is_Some.
  - intros a sta (st0 & -> & [[-> ->]|[_ Ha]])%Hlook.
    + exists m. split; [done|]. destruct Hsound as (?&?&?&?). by split_and!.
    + destruct (es_sound _ _ Hes a st0 Ha) as (ma & ? & ?&?&?&?).
      exists ma. split; [done|]. by split_and!.
  - intros a sta (st0 & -> & [[-> ->]|[_ Ha]])%Hlook; simpl.
    + rewrite Hsens. exact (es_sensitive _ _ Hes _ _ Hb).
    + exact (es_sensitive _ _ Hes _ _ Ha).
  - intros a sta (st0 & -> & _)%Hlook. rewrite Hzero. simpl. split; auto.
  - by intros a sta (st0 & -> & _)%Hlook.
Qed.

Lemma step_object_engine_state (self : CyberAttackEnv) (action : Action)
    (b : Belief) :
  constructed self → engine_state self b →
  engine_state self (step_object self action b).1.
Proof.
  intros Hc Hes.
  pose proof (step_object_classify self action b
                (constructed_consistent _ _ Hc Hes)) as Hcase.
  destruct Hcase as [?|st ? ?|st m ? ? ? ? ?|st m dn Hb Hr Hcomp Hnet Hk _
                    |st m dn Hb Hr Hcomp Hnet Hk Hrange Hp _
                    |st m dn Hb Hr Hcomp Hnet Hk Hrange Hp _]; simpl; try done.
  - apply (engine_state_update self b _ st _ m); try done; [|by left].
    apply revealed_sound.
  - unfold after_exploit_success.
    destruct (Z.eqb_spec (a_target action).1 0) as [H0|H0].
    + assert (a_target action = (0, 0)) as Ht.
      { apply (constructed_space self Hc); [|done].
        apply (es_keys _ _ Hes). eauto. }
      rewrite Ht in *.
      apply (engine_state_open self b st _ m); try done. apply revealed_sound.
    + apply (engine_state_update self b _ st _ m); try done;
        [apply revealed_sound|by right].
  - destruct (es_sound _ _ Hes _ _ Hb) as (m' & Hm' & Hlen & Hpres & Habs & Hall).
    assert (m' = m) as -> by congruence.
    assert (Heff : 1 ≤ effective_kind (length (m_services m)) (a_action action)
                   ≤ Z.of_nat (length (m_services m))).
    { unfold kind_in_range, effective_kind, SCAN in *. case_decide; lia. }
    set (n := Z.to_nat (effective_kind (length (m_services m)) (a_action action) - 1)) in *.
    assert (Hn : (n < length (m_services m))%nat) by lia.
    assert (Htruth : m_services m !! n = Some false).
    { unfold service_present in Hp. fold n in Hp.
      destruct (lookup_lt_is_Some_2 _ _ Hn) as [x Hx]. rewrite Hx in Hp |- *.
      simpl in Hp. by subst. }
    apply (engine_state_update self b _ st _ m); try done; [|by left].
    simpl. fold n. split_and!; simpl.
    + by rewrite length_insert.
    + intros i. destruct (decide (i = n)) as [->|Hne].
      * rewrite list_lookup_insert_eq by lia. done.
      * rewrite list_lookup_insert_ne by done. apply Hpres.
    + intros i. destruct (decide (i = n)) as [->|Hne].
      * done.
      * rewrite list_lookup_insert_ne by done. apply Habs.
    + congruence.
Qed.

Lemma reset_run (self : CyberAttackEnv) (h : heap) :
  reset self h
  = (h ++ [initial_observation (observation_space self)],
     Ok (mkEnv (nM self) (nS self) (observation_space self) (network self)
               (sensitive_machines self) (length h),
         length h)).
Proof. done. Qed.

(** [reset] rebinds [current_state] only; [step] rebinds nothing. *)
Lemma session_static (calls : list call) :
  ∀ (self : CyberAttackEnv) (h : heap),
    observation_space (session self calls h).1 = observation_space self ∧
    network (session self calls h).1 = network self ∧
    sensitive_machines (session self calls h).1 = sensitive_machines self ∧
    nS (session self calls h).1 = nS self.
Proof.
  induction calls as [|[action|] calls IH]; intros self h; [done|apply IH|].
  cbn [session]. rewrite reset_run.
  by destruct (IH
    (mkEnv (nM self) (nS self) (observation_space self) (network self)
       (sensitive_machines self) (length h))
    (h ++ [initial_observation (observation_space self)])) as (-> & -> & -> & ->).
Qed.

Lemma session_invariant (calls : list call) :
  ∀ (self : CyberAttackEnv) (h : heap) (b : Belief),
    constructed self →
    h !! current_state self = Some b →
    engine_state self b →
    constructed (session self calls h).1 ∧
    ∃ b', (session self calls h).2 !! current_state (session self calls h).1
          = Some b' ∧
          engine_state (session self calls h).1 b'.
Proof.
  induction calls as [|[action|] calls IH]; intros self h b Hc Hh Hes.
  - simpl. eauto.
  - cbn [session].
    destruct (step_store self action h b Hh) as (b' & Hb' & -> & _).
    apply (IH self _ _ Hc Hb'). by apply step_object_engine_state.
  - cbn [session]. rewrite reset_run.
    apply (IH _ _ (initial_observation (observation_space self))).
    + destruct Hc as (space & ? & ? & ? & ? & ? & ?). by exists space.
    + simpl. by rewrite lookup_app_r, Nat.sub_diag.
    + by apply (initial_state_engine_state
                  (mkEnv (nM self) (nS self) (observation_space self)
                     (network self) (sensitive_machines self) (length h))).
Qed.

Lemma constructed_session {R : NumpyRandom} (nM nS : nat)
    (w w' : rng_state * heap) (self : CyberAttackEnv) (calls : list call) :
  CyberAttackEnv_init nM nS w = (w', Ok self) →
  constructed (session self calls w'.2).1 ∧
  ∃ b, (session self calls w'.2).2 !! current_state (session self calls w'.2).1
       = Some b ∧
       engine_state (session self calls w'.2).1 b.
Proof.
  intros [Hc Hh]%init_constructed.
  apply (session_invariant calls self _ _ Hc Hh).
  by apply initial_state_engine_state.
Qed.

(** X3 Throughout the life of a constructed engine (any sequence of
    [step] and [reset] calls) the belief state has exactly the addresses of
    the address space as keys, and the [sensitive] flag of a machine, which
    [gen_initial_state] computes, is true exactly when the machine is in the
    goal list, which [_construct_network] computes, exactly when its value
    is not zero; that value is 9000 in subnet 1 and 5000 in subnet 2. *)
Theorem sensitive_flag_is_goal_set {R : NumpyRandom} (nM nS : nat)
    (w w' : rng_state * heap) (self : CyberAttackEnv) (calls : list call) :
  CyberAttackEnv_init nM nS w = (w', Ok self) →
  ∃ b,
    (session self calls w'.2).2 !! current_state (session self calls w'.2).1
    = Some b ∧
    (∀ a, is_Some (b !! a) ↔ a ∈ address_space (observation_space self)) ∧
    ∀ a st,
      b !! a = Some st →
      ∃ m,
        network self !! a = Some m ∧
        (sensitive st = true ↔ a ∈ sensitive_machines self) ∧
        (a ∈ sensitive_machines self ↔ m_value m ≠ 0) ∧
        (m_value m = 0 ∨ (a.1 = 1 ∧ m_value m = R_SENSITIVE)
         ∨ (a.1 = 2 ∧ m_value m = R_USER)).
Proof.
  intros Hinit.
  destruct (constructed_session nM nS w w' self calls Hinit) as (Hc & b & Hb & Hes).
  destruct (init_constructed _ _ _ _ _ Hinit) as [Hc0 _].
  destruct (session_static calls self w'.2) as (Hos & Hnet & Hsens & _).
  exists b. split; [done|]. split.
  { intros a. rewrite <- Hos. apply (es_keys _ _ Hes). }
  intros a st Ha.
  destruct (es_sound _ _ Hes a st Ha) as (m & Hm & _).
  pose proof (es_sensitive _ _ Hes a st Ha) as Hflag.
  rewrite Hnet in Hm. rewrite Hsens in Hflag.
  exists m. split; [done|]. split; [done|].
  assert (a ∈ address_space (observation_space self)) as Hin.
  { rewrite <- Hos. apply (es_keys _ _ Hes). eauto. }
  destruct (constructed_space self Hc0 a Hin) as (Hsub & Hid & _).
  destruct Hc0 as (space & Hgen & Hos0 & _ & Hsens0 & _ & Hnet0).
  rewrite Hos0 in Hin. simpl in Hin.
  destruct (Hnet0 a Hin) as (c & _ & Hm'). rewrite Hm in Hm'. injection Hm' as ->.
  simpl. rewrite Hsens0, list_elem_of_filter.
  unfold machine_value, value_bearing, R_SENSITIVE, R_USER.
  destruct (Z.eqb_spec (a.2 mod 10) 0), (Z.eqb_spec a.1 1), (Z.eqb_spec a.1 2);
    (split; [split|]); try lia; try (intros _; split; [split; [done|lia]|done]);
    try (intros [[_ ?] _]; lia).
Qed.

Lemma sensitive_flag_is_goal_set_witness :
  ∃ b,
    (session example_env example_calls example_heap).2
      !! current_state (session example_env example_calls example_heap).1
    = Some b ∧
    (∀ a, is_Some (b !! a) ↔ a ∈ address_space (observation_space example_env)) ∧
    ∀ a st,
      b !! a = Some st →
      ∃ m,
        network example_env !! a = Some m ∧
        (sensitive st = true ↔ a ∈ sensitive_machines example_env) ∧
        (a ∈ sensitive_machines example_env ↔ m_value m ≠ 0) ∧
        (m_value m = 0 ∨ (a.1 = 1 ∧ m_value m = R_SENSITIVE)
         ∨ (a.1 = 2 ∧ m_value m = R_USER)).
Proof.
  apply (sensitive_flag_is_goal_set (R := lcg_random) 4 1 (0, [])
           example_start.1 example_env example_calls).
  vm_compute. reflexivity.
Defined.

(** X4 The belief state of a constructed engine never contradicts the
    ground truth: throughout any sequence of [step] and [reset] calls every
    machine has one tri-state per service, a service believed Present runs
    on the machine, a service believed Absent does not, and the services of
    a compromised machine are all known. *)
Theorem belief_is_sound {R : NumpyRandom} (nM nS : nat)
    (w w' : rng_state * heap) (self : CyberAttackEnv) (calls : list call) :
  CyberAttackEnv_init nM nS w = (w', Ok self) →
  ∃ b,
    (session self calls w'.2).2 !! current_state (session self calls w'.2).1
    = Some b ∧
    ∀ a st,
      b !! a = Some st →
      ∃ m,
        network self !! a = Some m ∧
        length (services st) = nS ∧ length (m_services m) = nS ∧
        (∀ i : nat, services st !! i = Some PRESENT → m_services m !! i = Some true) ∧
        (∀ i : nat, services st !! i = Some ABSENT → m_services m !! i = Some false) ∧
        (compromised st = true →
         ∀ i : nat, i < length (services st) → services st !! i ≠ Some UNKNOWN)%nat.
Proof.
  intros Hinit.
  destruct (constructed_session nM nS w w' self calls Hinit) as (_ & b & Hb & Hes).
  destruct (init_constructed _ _ _ _ _ Hinit) as [Hc0 _].
  destruct (session_static calls self w'.2) as (Hos & Hnet & Hsens & _).
  exists b. split; [done|]. intros a st Ha.
  destruct (es_sound _ _ Hes a st Ha) as (m & Hm & Hlen & Hpres & Habs & Hall).
  rewrite Hnet in Hm. exists m. split; [done|].
  assert (length (m_services m) = nS) as HnS.
  { assert (a ∈ address_space (observation_space self)) as Hin.
    { rewrite <- Hos. apply (es_keys _ _ Hes). eauto. }
    apply init_inv in Hinit as (space & ? & ? & ? & _ & HnS & _ & _ & -> & _).
    destruct Hc0 as (space' & _ & Hos0 & _ & _ & _ & Hnet0). simpl in *.
    injection Hos0 as <-. destruct (Hnet0 a Hin) as (c & Hc & Hm').
    rewrite Hm in Hm'. injection Hm' as ->. simpl.
    destruct nS as [|n]; [lia|]. by apply elem_of_service_configs in Hc as [? _]. }
  split_and!; try done; [congruence|].
  intros Hcomp i Hi. rewrite (Hall Hcomp), list_lookup_fmap.
  destruct (m_services m !! i) as [[]|]; done.
Qed.

Lemma belief_is_sound_witness :
  ∃ b,
    (session example_env example_calls example_heap).2
      !! current_state (session example_env example_calls example_heap).1
    = Some b ∧
    ∀ a st,
      b !! a = Some st →
      ∃ m,
        network example_env !! a = Some m ∧
        length (services st) = 1%nat ∧ length (m_services m) = 1%nat ∧
        (∀ i : nat, services st !! i = Some PRESENT → m_services m !! i = Some true) ∧
        (∀ i : nat, services st !! i = Some ABSENT → m_services m !! i = Some false) ∧
        (compromised st = true →
         ∀ i : nat, i < length (services st) → services st !! i ≠ Some UNKNOWN)%nat.
Proof.
  apply (belief_is_sound (R := lcg_random) 4 1 (0, [])
           example_start.1 example_env example_calls).
  vm_compute. reflexivity.
Defined.

(** X5 Reachability in a constructed engine, throughout any sequence of
    [step] and [reset] calls: a machine is reachable exactly when it is in
    subnet 0 or (0, 0) is compromised, and only reachable machines are
    ever compromised. So every machine outside subnet 0 stays out of reach
    until the first successful exploit of (0, 0). *)
Theorem reachability_law {R : NumpyRandom} (nM nS : nat)
    (w w' : rng_state * heap) (self : CyberAttackEnv) (calls : list call) :
  CyberAttackEnv_init nM nS w = (w', Ok self) →
  ∃ b st0,
    (session self calls w'.2).2 !! current_state (session self calls w'.2).1
    = Some b ∧
    b !! (0, 0) = Some st0 ∧
    ∀ a st,
      b !! a = Some st →
      (reachable st = true ↔ a.1 = 0 ∨ compromised st0 = true) ∧
      (compromised st = true → reachable st = true).
Proof.
  intros Hinit.
  destruct (constructed_session nM nS w w' self calls Hinit) as (Hc & b & Hb & Hes).
  assert (is_Some (b !! ((0, 0) : Address))) as [st0 Hst0].
  { apply (es_keys _ _ Hes).
    destruct Hc as (space & Hgen & Hos & _).
    destruct (generate_address_space_facts _ _ Hgen) as (_ & _ & _ & _ & Hin).
    rewrite Hos. simpl. apply Hin. by left. }
  exists b, st0. split; [done|]. split; [done|]. intros a st Ha. split.
  - rewrite (es_reachable _ _ Hes a st Ha). unfold compromised_at.
    by rewrite Hst0.
  - apply (es_compromised _ _ Hes a st Ha).
Qed.

Lemma reachability_law_witness :
  ∃ b st0,
    (session example_env example_calls example_heap).2
      !! current_state (session example_env example_calls example_heap).1
    = Some b ∧
    b !! (0, 0) = Some st0 ∧
    ∀ a st,
      b !! a = Some st →
      (reachable st = true ↔ a.1 = 0 ∨ compromised st0 = true) ∧
      (compromised st = true → reachable st = true).
Proof.
  apply (reachability_law (R := lcg_random) 4 1 (0, [])
           example_start.1 example_env example_calls).
  vm_compute. reflexivity.
Defined.

(** ** Invalid and unusual actions *)

(** X6 Python's negative indexing makes negative kinds valid: for a
    target with [len] services, a step of kind [k] with [-len < k < 0] does
    exactly what the step of kind [k + len] does (same store, same
    observation, reward and done flag). *)
Theorem negative_kind_wraps (self : CyberAttackEnv) (t : Address) (k : Z)
    (h : heap) (b : Belief) (st : MachineState) (m : Machine) :
  h !! current_state self = Some b →
  b !! t = Some st →
  network self !! t = Some m →
  length (services st) = length (m_services m) →
  - Z.of_nat (length (m_services m)) < k < 0 →
  step self (mkAction t k) h
  = step self (mkAction t (k + Z.of_nat (length (m_services m)))) h.
Proof.
  intros Hh Hb Hnet Hlen Hk.
  rewrite !(step_on_object _ _ _ _ Hh).
  by rewrite (step_object_wrap self t k b st m).
Qed.

Lemma negative_kind_wraps_witness :
  step example_env3 (mkAction (0, 0) (-1)) example_heap3
  = step example_env3 (mkAction (0, 0) (-1 + 3)) example_heap3.
Proof.
  apply (negative_kind_wraps example_env3 (0, 0) (-1) example_heap3
           (initial_observation (observation_space example_env3))
           (mkMachineState [UNKNOWN; UNKNOWN; UNKNOWN] false false true)
           (mkMachine [false; false; true] 0)).
  - vm_compute. reflexivity.
  - vm_compute. reflexivity.
  - vm_compute. reflexivity.
  - reflexivity.
  - simpl. lia.
Defined.

(** X7 Actions the engine does not validate: a target that is not in the
    belief state raises [KeyError], and a kind out of range on a target
    that passes the gate raises [IndexError]; these are the only
    exceptions of [step] on a consistent state, and a [step] that raises
    leaves the whole store as it was. *)
Theorem invalid_action_raises (self : CyberAttackEnv) (action : Action)
    (h : heap) (b : Belief) :
  h !! current_state self = Some b →
  consistent self b →
  (b !! a_target action = None → step self action h = (h, Raise KeyError)) ∧
  (∀ st m,
     b !! a_target action = Some st →
     reachable st = true → compromised st = false →
     network self !! a_target action = Some m →
     ¬ (a_action action = 0 ∨
        - Z.of_nat (length (m_services m)) < a_action action
          ≤ Z.of_nat (length (m_services m))) →
     step self action h = (h, Raise IndexError)) ∧
  (∀ h' e,
     step self action h = (h', Raise e) →
     h' = h ∧
     ((e = KeyError ∧ b !! a_target action = None) ∨
      (e = IndexError ∧ is_Some (b !! a_target action)))).
Proof.
  intros Hh Hcons.
  assert (Hid : <[current_state self := b]> h = h) by (by apply list_insert_id).
  split_and!.
  - intros Hb. rewrite (step_on_object _ _ _ _ Hh).
    unfold step_object, se_bind, read_machine, getitem. by rewrite Hb, Hid.
  - intros st m Hb Hr Hc Hnet Hk. rewrite (step_on_object _ _ _ _ Hh).
    by rewrite (step_object_bad_kind self action b st m), Hid.
  - intros h' e. rewrite (step_on_object _ _ _ _ Hh).
    destruct (step_object_classify self action b Hcons)
      as [Hb|st ? ?|st m Hb ? ? ? ?|st m dn ? ? ? ? ? ?
         |st m dn ? ? ? ? ? ? ? ?|st m dn ? ? ? ? ? ? ? ?];
      rewrite ?Hid; intros [= <- <-]; split; eauto.
Qed.

Lemma invalid_action_raises_witness :
  ((initial_observation (observation_space example_env)) !! (5, 5) = None →
   step example_env (exploit (5, 5) 1) example_heap
   = (example_heap, Raise KeyError)) ∧
  (∀ st m,
     (initial_observation (observation_space example_env)) !! (5, 5) = Some st →
     reachable st = true → compromised st = false →
     network example_env !! (5, 5) = Some m →
     ¬ (1 = 0 ∨ - Z.of_nat (length (m_services m)) < 1
                 ≤ Z.of_nat (length (m_services m))) →
     step example_env (exploit (5, 5) 1) example_heap
     = (example_heap, Raise IndexError)) ∧
  (∀ h' e,
     step example_env (exploit (5, 5) 1) example_heap = (h', Raise e) →
     h' = example_heap ∧
     ((e = KeyError ∧
       (initial_observation (observation_space example_env)) !! (5, 5) = None) ∨
      (e = IndexError ∧
       is_Some ((initial_observation (observation_space example_env)) !! (5, 5))))).
Proof.
  apply (invalid_action_raises example_env (exploit (5, 5) 1) example_heap
           (initial_observation (observation_space example_env))).
  - vm_compute. reflexivity.
  - apply (bool_decide_unpack _). vm_compute. reflexivity.
Defined.

(** ** What is achieved stays achieved *)

(** X8 Once a machine is compromised, every later [step] on it, after
    any number of other steps, changes nothing and returns the engine's
    own belief object with reward [-COST_SCAN] (kind 0) or [-COST_EXPLOIT]
    and [done = False]: the value of a machine is paid once. And once every
    goal machine is compromised this stays so after any further steps. *)
Theorem compromised_is_final (self : CyberAttackEnv) (h : heap) (b : Belief)
    (actions : list Action) :
  h !! current_state self = Some b →
  (∀ (action : Action) (st : MachineState),
     b !! a_target action = Some st →
     compromised st = true →
     step self action (run self actions h).1
     = ((run self actions h).1,
        Ok (current_state self,
            0 - (if a_action action =? SCAN then COST_SCAN else COST_EXPLOIT),
            false, ∅))) ∧
  (goal_reached self b →
   ∃ b', (run self actions h).1 !! current_state self = Some b' ∧
         goal_reached self b').
Proof.
  intros Hh. destruct (run_evolves self actions h b Hh) as (b' & Hb' & Hev).
  split.
  - intros action st Hst Hcomp.
    destruct (evolves_lookup _ _ _ _ Hev Hst) as (st' & Hst' & _ & _ & _ & Hc).
    apply (soft_fail_run _ _ _ _ _ Hb' Hst'). right. auto.
  - intros Hgoal. exists b'. split; [done|]. intros a Ha.
    destruct (Hgoal a Ha) as (st & Hst & Hcomp).
    destruct (evolves_lookup _ _ _ _ Hev Hst) as (st' & Hst' & _ & _ & _ & Hc).
    eauto.
Qed.

Lemma compromised_is_final_witness :
  ∃ b,
    (run example_env three_exploits example_heap).1 !! current_state example_env
    = Some b ∧
    (∀ (action : Action) (st : MachineState),
       b !! a_target action = Some st →
       compromised st = true →
       step example_env action
         (run example_env [scan (2, 1)]
            (run example_env three_exploits example_heap).1).1
       = ((run example_env [scan (2, 1)]
             (run example_env three_exploits example_heap).1).1,
          Ok (current_state example_env,
              0 - (if a_action action =? SCAN then COST_SCAN else COST_EXPLOIT),
              false, ∅))) ∧
    (goal_reached example_env b →
     ∃ b', (run example_env [scan (2, 1)]
              (run example_env three_exploits example_heap).1).1
             !! current_state example_env = Some b' ∧
           goal_reached example_env b').
Proof.
  eexists. split; [vm_compute; reflexivity|].
  apply (compromised_is_final example_env
           (run example_env three_exploits example_heap).1 _ [scan (2, 1)]).
  vm_compute. reflexivity.
Defined.

(** ** Rewards *)

Lemma sum_values_perm (l l' : list Z) : l ≡ₚ l' → sum_values l = sum_values l'.
Proof.
  unfold sum_values. induction 1; simpl; lia.
Qed.

Lemma loot_insert (self : CyberAttackEnv) (b : Belief) (t : Address)
    (st st' : MachineState) :
  b !! t = Some st →
  loot self (<[t := st']> b)
  = loot self b
    - (if compromised st then value_at self t else 0)
    + (if compromised st' then value_at self t else 0).
Proof.
  intros Hb. unfold loot.
  rewrite <- (insert_delete_eq b t st').
  rewrite (sum_values_perm _ _
             (fmap_Permutation _ _ _
                (map_to_list_insert (delete t b) t st' (lookup_delete_eq b t)))).
  rewrite <- (sum_values_perm _ _
                (fmap_Permutation _ _ _ (map_to_list_delete b t st Hb))).
  simpl. lia.
Qed.

Lemma loot_set_reachable (self : CyberAttackEnv) (b : Belief) :
  loot self (set_reachable <$> b) = loot self b.
Proof.
  unfold loot. rewrite map_to_list_fmap, <- list_fmap_compose.
  f_equal.
Qed.

(** One step: what the belief state gains in compromised value is the
    reward plus the cost of the action, when the step returns. *)
Lemma step_object_loot (self : CyberAttackEnv) (action : Action) (b : Belief) :
  consistent self b →
  loot self (step_object self action b).1 - loot self b
  = reward_of (object_outcome (step_object self action b).2)
    + 10 * returned (object_outcome (step_object self action b).2).
Proof.
  intros Hcons.
  destruct (step_object_classify self action b Hcons)
    as [Hb|st Hb ?|st m Hb ? ? ? ?|st m dn Hb Hr Hc Hnet Hk _
       |st m dn Hb Hr Hc Hnet Hk Hrange Hp _
       |st m dn Hb Hr Hc Hnet Hk Hrange Hp _]; simpl.
  - lia.
  - unfold COST_SCAN, COST_EXPLOIT. destruct (a_action action =? SCAN); lia.
  - lia.
  - unfold after_scan. rewrite (loot_insert _ _ _ st) by done. simpl.
    unfold COST_SCAN. lia.
  - assert (loot self (after_exploit_success action b st m)
            = loot self b + m_value m) as ->.
    { unfold after_exploit_success.
      destruct ((a_target action).1 =? 0); rewrite ?loot_set_reachable;
        rewrite (loot_insert _ _ _ st) by done; simpl;
        unfold value_at; rewrite Hc, Hnet; lia. }
    unfold COST_EXPLOIT. lia.
  - unfold after_exploit_failure. rewrite (loot_insert _ _ _ st) by done. simpl.
    unfold COST_EXPLOIT. lia.
Qed.

Lemma run_object_loot (self : CyberAttackEnv) (actions : list Action) :
  ∀ b : Belief,
    consistent self b →
    sum_values (reward_of <$> (run_object self actions b).2)
    = loot self (run_object self actions b).1 - loot self b
      - 10 * sum_values (returned <$> (run_object self actions b).2).
Proof.
  induction actions as [|a actions IH]; intros b Hcons.
  - simpl. lia.
  - pose proof (step_object_loot self a b Hcons) as Hstep.
    pose proof (preserves_step_object self a b) as Hev.
    cbn [run_object].
    destruct (step_object self a b) as [b1 r1]. simpl in Hstep, Hev.
    specialize (IH b1 (consistent_evolves _ _ _ Hcons Hev)).
    destruct (run_object self actions b1) as [b2 rs].
    cbn [fst snd] in *. rewrite !fmap_cons.
    unfold sum_values in *. cbn [foldr]. lia.
Qed.

(** X9 Reward accounting: along any sequence of steps on a consistent
    state, the rewards returned add up to the value of the machines that
    became compromised on the way, minus 10 for every call that returned
    (a call that raises counts for nothing and changes nothing). *)
Theorem reward_accounting (self : CyberAttackEnv) (actions : list Action)
    (h : heap) (b : Belief) :
  h !! current_state self = Some b →
  consistent self b →
  ∃ b',
    (run self actions h).1 !! current_state self = Some b' ∧
    sum_values (reward_of <$> (reward_done <$> (run self actions h).2))
    = loot self b' - loot self b
      - 10 * sum_values (returned <$> (reward_done <$> (run self actions h).2)).
Proof.
  intros Hh Hcons. destruct (run_on_object self actions h b Hh) as [-> Hb'].
  eexists. split; [exact Hb'|]. by apply run_object_loot.
Qed.

Lemma reward_accounting_witness :
  ∃ b',
    (run example_env (three_exploits ++ [exploit (2, 0) 1; exploit (7, 7) 1])
       example_heap).1 !! current_state example_env = Some b' ∧
    sum_values
      (reward_of <$>
       (reward_done <$>
        (run example_env (three_exploits ++ [exploit (2, 0) 1; exploit (7, 7) 1])
           example_heap).2))
    = loot example_env b'
      - loot example_env (initial_observation (observation_space example_env))
      - 10 * sum_values
               (returned <$>
                (reward_done <$>
                 (run example_env
                    (three_exploits ++ [exploit (2, 0) 1; exploit (7, 7) 1])
                    example_heap).2)).
Proof.
  apply (reward_accounting example_env
           (three_exploits ++ [exploit (2, 0) 1; exploit (7, 7) 1]) example_heap
           (initial_observation (observation_space example_env))).
  - vm_compute. reflexivity.
  - apply (bool_decide_unpack _). vm_compute. reflexivity.
Defined.

(** ** The goal can be reached *)

Lemma compromised_at_true (b : Belief) (a : Address) :
  compromised_at b a = true ↔ ∃ st, b !! a = Some st ∧ compromised st = true.
Proof.
  unfold compromised_at. destruct (b !! a) as [st|]; simpl.
  - split; [eauto|]. by intros (? & [= <-] & ?).
  - split; [done|]. by intros (? & ? & _).
Qed.

Lemma compromised_at_after_success (action : Action) (b : Belief)
    (st : MachineState) (m : Machine) (a : Address) :
  compromised_at (after_exploit_success action b st m) a
  = if decide (a = a_target action) then true else compromised_at b a.
Proof.
  unfold after_exploit_success, compromised_at.
  destruct ((a_target action).1 =? 0); rewrite ?lookup_fmap;
    (case_decide as Ha; [rewrite Ha, lookup_insert_eq|rewrite lookup_insert_ne by done]);
    try done.
  by destruct (b !! a).
Qed.

Lemma working_kind_works (self : CyberAttackEnv) (a : Address) :
  constructed self →
  a ∈ address_space (observation_space self) →
  ∃ m, network self !! a = Some m ∧
       1 ≤ working_kind self a ≤ Z.of_nat (length (m_services m)) ∧
       service_present m (working_kind self a) = true.
Proof.
  intros (space & _ & Hos & HnS & _ & _ & Hnet) Ha. rewrite Hos in Ha. simpl in Ha.
  destruct (Hnet a Ha) as (c & Hc & Hm). eexists. split; [exact Hm|].
  unfold working_kind, service_present. rewrite Hm. simpl.
  destruct (nS self) as [|n]; [lia|].
  apply elem_of_service_configs in Hc as [Hlen Hne].
  assert (true ∈ c) as Htrue by (apply some_service_runs; by rewrite Hlen).
  destruct (list_find_elem_of (λ s : bool, s = true) c true Htrue eq_refl)
    as [[i x] Hfind].
  rewrite Hfind. apply list_find_Some in Hfind as (Hi & -> & _).
  pose proof (lookup_lt_Some _ _ _ Hi).
  replace (Z.to_nat (Z.of_nat i + 1 - 1)) with i by lia.
  rewrite Hi. simpl. split; [lia|done].
Qed.

Lemma exploit_working_step (self : CyberAttackEnv) (b : Belief) (a : Address)
    (st : MachineState) :
  constructed self → engine_state self b →
  b !! a = Some st → reachable st = true → compromised st = false →
  ∃ m dn,
    step_object self (exploit_working self a) b
    = (after_exploit_success (exploit_working self a) b st m,
       Ok (true, m_value m - COST_EXPLOIT, dn)) ∧
    (dn = true ↔
     goal_reached self (after_exploit_success (exploit_working self a) b st m)).
Proof.
  intros Hc Hes Hb Hr Hcomp.
  assert (a ∈ address_space (observation_space self)) as Ha
    by (apply (es_keys _ _ Hes); eauto).
  destruct (working_kind_works self a Hc Ha) as (m & Hm & Hk & Hp).
  exists m.
  apply (step_object_exploit_success self (exploit_working self a) b st m);
    try done.
  by apply constructed_consistent.
Qed.

Lemma exploit_goals (self : CyberAttackEnv) (l : list Address) :
  constructed self →
  ∀ b : Belief,
    engine_state self b →
    compromised_at b (0, 0) = true →
    NoDup l →
    (∀ a, a ∈ l → is_Some (b !! a) ∧ a.1 ≠ 0 ∧ compromised_at b a = false) →
    (∀ a, a ∈ l →
          compromised_at (run_object self (exploit_working self <$> l) b).1 a
          = true) ∧
    (∀ a, compromised_at b a = true →
          compromised_at (run_object self (exploit_working self <$> l) b).1 a
          = true) ∧
    (l ≠ [] →
     ∃ r dn,
       last (run_object self (exploit_working self <$> l) b).2 = Some (Ok (r, dn)) ∧
       (dn = true ↔
        goal_reached self (run_object self (exploit_working self <$> l) b).1)).
Proof.
  intros Hc. induction l as [|a l IH]; intros b Hes Hzero Hnd Hl.
  - split_and!; [by intros a Ha; inversion Ha|done|done].
  - apply NoDup_cons in Hnd as [Ha Hnd].
    destruct (Hl a) as ([st Hst] & Hsub & Hca); [by left|].
    assert (compromised st = false) as Hcomp.
    { destruct (compromised st) eqn:Hcst; [|done].
      assert (compromised_at b a = true) by (apply compromised_at_true; eauto).
      congruence. }
    assert (reachable st = true) as Hr.
    { apply (es_reachable _ _ Hes a st Hst). by right. }
    destruct (exploit_working_step self b a st Hc Hes Hst Hr Hcomp)
      as (m & dn & Hstep & Hdn).
    pose proof (step_object_engine_state self (exploit_working self a) b Hc Hes)
      as Hes1.
    rewrite fmap_cons. cbn [run_object]. rewrite Hstep in Hes1 |- *.
    simpl in Hes1.
    set (b1 := after_exploit_success (exploit_working self a) b st m) in *.
    assert (Hat : ∀ a', compromised_at b1 a'
                        = if decide (a' = a) then true else compromised_at b a').
    { intros a'. apply compromised_at_after_success. }
    destruct (IH b1 Hes1) as (IHl & IHkeep & IHlast); [| done |..].
    { rewrite Hat. case_decide; [done|]. done. }
    { intros a' Ha'. destruct (Hl a') as ([st' Hst'] & ? & ?); [by right|].
      split_and!; [|done|].
      - apply (es_keys _ _ Hes1). apply (es_keys _ _ Hes). eauto.
      - rewrite Hat. rewrite decide_False; [done|]. by intros ->. }
    destruct (run_object self (exploit_working self <$> l) b1) as [b2 rs] eqn:Hrun.
    simpl in *. split_and!.
    + intros a' [->|Ha']%elem_of_cons; [|by apply IHl].
      apply IHkeep. rewrite Hat. by rewrite decide_True.
    + intros a' Ha'. apply IHkeep. rewrite Hat. case_decide; done.
    + intros _. destruct l as [|a2 l].
      * simpl in Hrun. injection Hrun as <- <-. simpl. eauto.
      * destruct IHlast as (r & dn' & Hlast & Hdn'); [done|].
        exists r, dn'. split; [|done].
        destruct rs as [|r0 rs]; [done|]. simpl in *. done.
Qed.

Lemma initial_uncompromised (self : CyberAttackEnv) (a : Address) :
  constructed self →
  compromised_at (initial_observation (observation_space self)) a = false.
Proof.
  intros (space & _ & -> & _). simpl. unfold compromised_at.
  rewrite gen_initial_state_lookup. case_decide; [|done].
  unfold initial_machine_state. by destruct (a.1 =? 0).
Qed.

Lemma constructed_goals (self : CyberAttackEnv) :
  constructed self →
  NoDup (sensitive_machines self) ∧
  (1, 0) ∈ sensitive_machines self ∧
  ∀ a, a ∈ sensitive_machines self →
       a ∈ address_space (observation_space self) ∧ a.1 ≠ 0.
Proof.
  intros (space & Hgen & -> & _ & -> & _). simpl.
  destruct (generate_address_space_facts _ _ Hgen) as (HnM & _ & _ & Hnd & Hin).
  destruct (subnet_sizes_positive _ HnM) as [H1 _].
  split_and!.
  - by apply NoDup_filter.
  - apply list_elem_of_filter. split; [by split; [|left]|].
    apply Hin. simpl. lia.
  - intros a [[_ Hsub] Ha]%list_elem_of_filter. split; [done|lia].
Qed.

(** X10 Every engine the constructor returns can be won: exploiting
    (0, 0) and then each machine of the goal list, each through the first
    service it runs, is a sequence of [1 + len(sensitive_machines)] steps
    whose last step returns [done = True]. (Every machine runs a service
    because the all-false configuration is never drawn.) *)
Theorem goal_can_be_reached {R : NumpyRandom} (nM nS : nat)
    (w w' : rng_state * heap) (self : CyberAttackEnv) :
  CyberAttackEnv_init nM nS w = (w', Ok self) →
  length (winning_actions self) = S (length (sensitive_machines self)) ∧
  ∃ r,
    last (reward_done <$> (run self (winning_actions self) w'.2).2)
    = Some (Ok (r, true)).
Proof.
  intros [Hc Hh]%init_constructed.
  split; [unfold winning_actions; simpl; by rewrite length_fmap|].
  destruct (run_on_object self (winning_actions self) _ _ Hh) as [-> _].
  pose proof (initial_state_engine_state self Hc) as Hes.
  set (b0 := initial_observation (observation_space self)) in *.
  destruct (constructed_goals self Hc) as (Hnd & Hone & Hgoals).
  assert (is_Some (b0 !! ((0, 0) : Address))) as [st0 Hst0].
  { apply (es_keys _ _ Hes). by apply (constructed_space self Hc (1, 0)), Hgoals. }
  assert (reachable st0 = true) as Hr0
    by (apply (es_reachable _ _ Hes _ _ Hst0); by left).
  assert (compromised st0 = false) as Hc0.
  { destruct (compromised st0) eqn:E; [|done].
    assert (compromised_at b0 (0, 0) = true) by (apply compromised_at_true; eauto).
    pose proof (initial_uncompromised self (0, 0) Hc) as Hu. fold b0 in Hu.
    congruence. }
  destruct (exploit_working_step self b0 (0, 0) st0 Hc Hes Hst0 Hr0 Hc0)
    as (m & dn & Hstep & _).
  pose proof (step_object_engine_state self (exploit_working self (0, 0)) b0 Hc Hes)
    as Hes1.
  unfold winning_actions. cbn [run_object]. rewrite Hstep in Hes1 |- *.
  simpl in Hes1.
  set (b1 := after_exploit_success (exploit_working self (0, 0)) b0 st0 m) in *.
  assert (Hat : ∀ a', compromised_at b1 a'
                      = if decide (a' = (0, 0)) then true else compromised_at b0 a').
  { intros a'. apply compromised_at_after_success. }
  destruct (exploit_goals self (sensitive_machines self) Hc b1 Hes1)
    as (Hall & _ & Hlast); [by rewrite Hat, decide_True|done| |].
  { intros a Ha. destruct (Hgoals a Ha) as [Hin Hsub]. split_and!; [|done|].
    - apply (es_keys _ _ Hes1). done.
    - rewrite Hat, decide_False; [by apply (initial_uncompromised self a Hc)|].
      intros ->. simpl in Hsub. lia. }
  destruct Hlast as (r & dn' & Hlast & Hdn'); [by intros Hnil; rewrite Hnil in Hone; inversion Hone|].
  destruct (run_object self (exploit_working self <$> sensitive_machines self) b1)
    as [b2 rs]. simpl in *.
  exists r. destruct rs as [|r0 rs]; [done|]. simpl in *. rewrite Hlast.
  do 3 f_equal. apply Hdn'. intros a Ha. by apply compromised_at_true, Hall.
Qed.

Lemma goal_can_be_reached_witness :
  length (winning_actions example_env) = S (length (sensitive_machines example_env)) ∧
  ∃ r,
    last (reward_done <$> (run example_env (winning_actions example_env)
                             example_start.1.2).2)
    = Some (Ok (r, true)).
Proof.
  apply (goal_can_be_reached (R := lcg_random) 4 1 (0, []) example_start.1
           example_env).
  vm_compute. reflexivity.
Defined.

(** ** Membership and sampling in the address space *)

Lemma addr_lt_irrefl (a : Address) : ¬ addr_lt a a.
Proof. unfold addr_lt. lia. Qed.

(** The whole space is below [(s, i)] exactly when [(s, i)] is above its
    last address, [(2, subnet2_size nM - 1)]. *)
Lemma space_all_below (nM : nat) (space : list Address) (s i : Z) :
  generate_address_space nM = Ok space →
  Forall (λ a, addr_lt a (s, i)) space ↔ 2 < s ∨ (s = 2 ∧ subnet2_size nM ≤ i).
Proof.
  intros Hgen.
  destruct (generate_address_space_facts _ _ Hgen) as (HnM & _ & _ & _ & Hin).
  destruct (subnet_sizes_positive nM HnM) as [H1 H2].
  rewrite Forall_forall. split.
  - intros Hall.
    assert ((2, subnet2_size nM - 1) ∈ space) as Hlast
      by (apply Hin; simpl; lia).
    apply Hall in Hlast. unfold addr_lt in Hlast. simpl in Hlast. lia.
  - intros Hs a Ha%Hin. unfold addr_lt. simpl.
    destruct Ha as [->|Ha]; simpl; lia.
Qed.

(** X11 [AddressSpace.contains] on a pair of integers [(s, i)], given as a
    tuple or as a list (the two are treated alike): when the pair is above
    the last address of the space, that is [s > 2], or [s = 2] and
    [i >= nM - 1 - (nM + 8) // 10], the call raises [IndexError]; on every
    other pair, pairs below (0, 0) included, it returns whether the pair is
    an address of the space. *)
Theorem contains_on_integer_pairs (nM : nat) (space : list Address) (s i : Z) :
  generate_address_space nM = Ok space →
  contains space (address_list (s, i)) = contains space (address_tuple (s, i)) ∧
  contains space (address_tuple (s, i)) =
    if decide (2 < s ∨ (s = 2 ∧ Z.of_nat nM - 1 - Z.of_nat ((nM + 8) / 10) ≤ i))
    then Raise IndexError
    else Ok (bool_decide ((s, i) ∈ space)).
Proof.
  intros Hgen. split; [done|].
  unfold address_tuple. simpl. rewrite (contains_int_pair nM space s i Hgen).
  pose proof (space_all_below nM space s i Hgen) as Hbelow.
  unfold subnet2_size, subnet1_size in Hbelow.
  repeat case_decide; tauto.
Qed.

Lemma contains_on_integer_pairs_witness :
  contains [(0, 0); (1, 0); (2, 0); (2, 1)] (address_list (2, 2))
  = contains [(0, 0); (1, 0); (2, 0); (2, 1)] (address_tuple (2, 2)) ∧
  contains [(0, 0); (1, 0); (2, 0); (2, 1)] (address_tuple (2, 2)) =
    if decide (2 < 2 ∨ (2 = 2 ∧ Z.of_nat 4 - 1 - Z.of_nat ((4 + 8) / 10) ≤ 2))
    then Raise IndexError
    else Ok (bool_decide ((2, 2) ∈ [(0, 0); (1, 0); (2, 0); (2, 1)])).
Proof.
  apply (contains_on_integer_pairs 4 [(0, 0); (1, 0); (2, 0); (2, 1)] 2 2).
  vm_compute. reflexivity.
Defined.

(** X12 [AddressSpace.sample] and [contains] agree: on a space built by
    [AddressSpace(nM)], with a generator whose [randint(n)] is in
    [range(n)], [sample] raises nothing and returns an address of the space,
    and [contains] answers [True] on it, as a tuple and as a list. *)
Theorem sample_is_contained {P : SpacesRandom} (nM : nat) (self : AddressSpace)
    (g : prng_state) :
  randint_in_range P →
  AddressSpace_init nM = Ok self →
  ∃ a : Address,
    (AddressSpace_sample self g).2 = Ok a ∧
    a ∈ as_space self ∧
    contains (as_space self) (address_tuple a) = Ok true ∧
    contains (as_space self) (address_list a) = Ok true.
Proof.
  intros Hrand. unfold AddressSpace_init.
  destruct (generate_address_space nM) as [space|] eqn:Hgen; [|done].
  intros [= <-]. simpl.
  destruct (generate_address_space_facts _ _ Hgen) as (HnM & Hlen & _).
  unfold AddressSpace_sample. simpl. rewrite decide_True by lia.
  pose proof (Hrand nM g ltac:(lia)) as Hi.
  destruct (np_random_randint nM g) as [g' j]. simpl in Hi.
  destruct (lookup_lt_is_Some_2 space j) as [a Ha]; [lia|].
  rewrite Ha. exists a. simpl.
  assert (a ∈ space) as Hin by (by eapply list_elem_of_lookup_2).
  assert (contains space (address_tuple a) = Ok true) as Hcontains.
  { unfold address_tuple. rewrite (contains_int_pair nM space a.1 a.2 Hgen).
    rewrite <- surjective_pairing. rewrite decide_False.
    - by rewrite bool_decide_eq_true_2.
    - intros Hall. apply (addr_lt_irrefl a).
      by apply (proj1 (Forall_forall _ _) Hall). }
  done.
Qed.

Lemma sample_is_contained_witness :
  ∃ a : Address,
    (AddressSpace_sample (P := counting_random)
       (mkAddressSpace 4 [(0, 0); (1, 0); (2, 0); (2, 1)]) 6%nat).2 = Ok a ∧
    a ∈ [(0, 0); (1, 0); (2, 0); (2, 1)] ∧
    contains [(0, 0); (1, 0); (2, 0); (2, 1)] (address_tuple a) = Ok true ∧
    contains [(0, 0); (1, 0); (2, 0); (2, 1)] (address_list a) = Ok true.
Proof.
  apply (sample_is_contained (P := counting_random) 4
           (mkAddressSpace 4 [(0, 0); (1, 0); (2, 0); (2, 1)]) 6%nat).
  - intros n g Hn. simpl. apply Nat.mod_upper_bound. lia.
  - vm_compute. reflexivity.
Defined.

(** ** The constructor and the process *)

(** X13 [CyberAttackEnv(nM, nS)] and the process it runs in. With [nM <= 2]
    or [nS = 0] it raises [AssertionError] and touches nothing. Otherwise
    (the generator drawing within range) it returns, and whatever the
    process state was before: the engine built is the same up to the new
    belief-state object it refers to, numpy's global generator is left in
    one and the same state (the constructor re-seeds it with 1, discarding
    the state the caller had), and the store grows by exactly one object,
    the initial belief state, with every older object untouched. *)
Theorem constructor_effects {R : NumpyRandom} (nM nS : nat) :
  ((nM ≤ 2 ∨ nS = 0)%nat →
   ∀ w, CyberAttackEnv_init nM nS w = (w, Raise AssertionError)) ∧
  (choice_in_range R → (2 < nM ∧ 0 < nS)%nat →
   ∃ g' net sens space,
     generate_address_space nM = Ok space ∧
     ∀ w, CyberAttackEnv_init nM nS w
          = ((g', w.2 ++ [gen_initial_state space nS]),
             Ok (mkEnv nM nS
                   (mkObservationSpace nM nS space (gen_initial_state space nS))
                   net sens (length w.2)))).
Proof.
  split.
  - intros Hbad [g h]. unfold CyberAttackEnv_init, CAActionSpace_init.
    destruct (decide (2 < nM)%nat); [|done].
    destruct (decide (0 < nS)%nat); [lia|done].
  - intros Hrand [HnM HnS].
    destruct (generate_address_space_returns nM HnM) as [space Hgen].
    destruct (construct_network_ok nM nS (np_random_seed 1) Hrand HnM HnS)
      as (g' & net & sens & Hnet).
    exists g', net, sens, space. split; [done|]. intros [g h].
    assert (_construct_network nM nS g = (g', Ok (net, sens))) as Hnet'.
    { rewrite construct_network_seeded.
      by rewrite construct_network_seeded in Hnet. }
    unfold CyberAttackEnv_init, CAActionSpace_init, CAObservationSpace_init.
    rewrite !decide_True by done. rewrite Hgen.
    unfold se_bind, se_lift, on_rng, on_heap. simpl. by rewrite Hnet'.
Qed.

Lemma constructor_effects_witness :
  (∀ w, CyberAttackEnv_init (R := lcg_random) 2 1 w = (w, Raise AssertionError)) ∧
  ∃ g' net sens space,
    generate_address_space 4 = Ok space ∧
    ∀ w, CyberAttackEnv_init (R := lcg_random) 4 1 w
         = ((g', w.2 ++ [gen_initial_state space 1]),
            Ok (mkEnv 4 1
                  (mkObservationSpace 4 1 space (gen_initial_state space 1))
                  net sens (length w.2))).
Proof.
  split.
  - apply (proj1 (constructor_effects (R := lcg_random) 2 1)). lia.
  - apply (proj2 (constructor_effects (R := lcg_random) 4 1)).
    + exact lcg_choice_in_range.
    + lia.
Defined.

(** ** The order of the service configurations *)

Lemma config_of_double (n q : nat) (r : bool) :
  config_of (S n) (2 * q + Nat.b2n r) = negb r :: config_of n q.
Proof.
  unfold config_of. cbn [seq fmap list_fmap]. f_equal.
  - by rewrite Nat.testbit_0_r.
  - rewrite <- fmap_S_seq, <- list_fmap_compose. apply list_fmap_ext.
    intros _ j _. simpl. do 2 f_equal.
    rewrite Nat.div2_div. destruct r; simpl Nat.b2n.
    + replace (q + (q + 0) + 1)%nat with (1 + q * 2)%nat by lia.
      by rewrite Nat.div_add.
    + replace (q + (q + 0) + 0)%nat with (q * 2)%nat by lia.
      by rewrite Nat.div_mul.
Qed.

Lemma config_of_bind (n m : nat) :
  (config_of n <$> seq 0 m) ≫= (λ p, [true :: p; false :: p])
  = config_of (S n) <$> seq 0 (2 * m).
Proof.
  induction m as [|m IH]; [done|].
  replace (2 * S m)%nat with (S (S (2 * m))) by lia.
  rewrite !seq_S, !fmap_app, bind_app, IH. simpl.
  rewrite <- app_assoc. f_equal. simpl.
  pose proof (config_of_double n m false) as H0.
  pose proof (config_of_double n m true) as H1. simpl in H0, H1.
  replace (m + (m + 0) + 0)%nat with (m + (m + 0))%nat in H0 by lia.
  replace (m + (m + 0) + 1)%nat with (S (m + (m + 0))) in H1 by lia.
  by rewrite H0, H1.
Qed.

(** X14 [permutations(n)] in closed form: it is empty for [n = 0], and for
    [n > 0] it lists the [2 ** n] vectors of [n] booleans in the order of
    the binary numbers 0 .. 2 ** n - 1, entry [j] of the vector at index
    [i] being [True] exactly when digit [j] of [i] is 0. So the vector at
    index 0 has every service present, and the one [_construct_network]
    cuts off, at index 2 ** n - 1, has none. *)
Theorem permutations_closed_form (n : nat) :
  permutations n
  = (if decide (n = 0)%nat then [] else config_of n <$> seq 0 (2 ^ n)) ∧
  (∀ i j : nat,
     (i < 2 ^ n)%nat → (j < n)%nat →
     (permutations n !! i) ≫= (.!! j) = Some (negb (Nat.testbit i j))).
Proof.
  assert (Hclosed : permutations n
            = if decide (n = 0)%nat then [] else config_of n <$> seq 0 (2 ^ n)).
  { destruct n as [|n]; [done|]. rewrite decide_False by done.
    induction n as [|n IH]; [done|].
    rewrite permutations_step, IH, config_of_bind. done. }
  split; [done|]. intros i j Hi Hj. rewrite Hclosed.
  rewrite decide_False by lia.
  rewrite list_lookup_fmap, lookup_seq_lt by done. simpl.
  unfold config_of. by rewrite list_lookup_fmap, lookup_seq_lt.
Qed.

Lemma permutations_closed_form_witness :
  (permutations 3 !! 5%nat) ≫= (.!! 1%nat) = Some (negb (Nat.testbit 5 1)).
Proof.
  apply (proj2 (permutations_closed_form 3) 5%nat 1%nat); simpl; lia.
Defined.

(** ** Episodes *)

Lemma session_app (calls1 calls2 : list call) :
  ∀ (self : CyberAttackEnv) (h : heap),
    session self (calls1 ++ calls2) h
    = session (session self calls1 h).1 calls2 (session self calls1 h).2.
Proof.
  induction calls1 as [|[action|] calls1 IH]; intros self h; simpl.
  - done.
  - apply IH.
  - destruct (reset self h) as [h' [[self' l]|e]]; apply IH.
Qed.

(** X15 [reset] starts a new episode that owes nothing to the previous
    ones: after any sequence of [step] and [reset] calls on a constructed
    engine, a [reset] leaves it answering every sequence of actions with
    the rewards, done flags and exceptions the freshly constructed engine
    answers with. *)
Theorem reset_starts_afresh {R : NumpyRandom} (nM nS : nat)
    (w w' : rng_state * heap) (self : CyberAttackEnv)
    (calls : list call) (actions : list Action) :
  CyberAttackEnv_init nM nS w = (w', Ok self) →
  reward_done <$>
    (run (session self (calls ++ [Reset]) w'.2).1 actions
         (session self (calls ++ [Reset]) w'.2).2).2
  = reward_done <$> (run self actions w'.2).2.
Proof.
  intros [_ Hh]%init_constructed.
  rewrite session_app.
  destruct (session_static calls self w'.2) as (Hos & Hnet & Hsens & _).
  destruct (session self calls w'.2) as [self1 h1]. cbn [fst snd session] in *.
  rewrite reset_run. cbn [fst snd].
  set (self2 := mkEnv _ _ _ _ _ _).
  assert (Hh2 : (h1 ++ [initial_observation (observation_space self1)])
                  !! current_state self2
                = Some (initial_observation (observation_space self))).
  { simpl. by rewrite lookup_app_r, Nat.sub_diag, Hos. }
  destruct (run_on_object self2 actions _ _ Hh2) as [-> _].
  destruct (run_on_object self actions _ _ Hh) as [-> _].
  f_equal. by apply run_object_ext.
Qed.

Lemma reset_starts_afresh_witness :
  reward_done <$>
    (run (session example_env (example_calls ++ [Reset]) example_start.1.2).1
         three_exploits
         (session example_env (example_calls ++ [Reset]) example_start.1.2).2).2
  = reward_done <$> (run example_env three_exploits example_start.1.2).2.
Proof.
  apply (reset_starts_afresh (R := lcg_random) 4 1 (0, []) example_start.1
           example_env example_calls three_exploits).
  vm_compute. reflexivity.
Defined.

(** ** Rendering *)

Global Instance addr_le_antisymm : AntiSymm (=) addr_le.
Proof. intros [??] [??]. unfold addr_le. simpl. intros ??. f_equal; lia. Qed.

Lemma subnet_row_sorted (s : Z) (n : nat) :
  ∀ start : nat,
    StronglySorted addr_le ((λ j : nat, (s, Z.of_nat j)) <$> seq start n).
Proof.
  induction n as [|n IH]; intros start; [constructor|].
  cbn [seq fmap list_fmap]. constructor; [apply IH|].
  apply Forall_forall. intros a (j & -> & Hj%elem_of_seq)%list_elem_of_fmap.
  unfold addr_le. simpl. lia.
Qed.

(** The address space in closed form. *)
Lemma generate_address_space_closed_form (nM : nat) (space : list Address) :
  generate_address_space nM = Ok space →
  space
  = (0, 0) :: ((λ j : nat, (1, Z.of_nat j)) <$> seq 0 ((nM + 8) / 10))
    ++ ((λ j : nat, (2, Z.of_nat j)) <$> seq 0 (nM - 1 - (nM + 8) / 10)).
Proof.
  intros Hgen.
  destruct (generate_address_space_facts _ _ Hgen) as (HnM & _ & _ & Hnd & Hin).
  pose proof (generate_address_space_sorted _ _ Hgen) as Hsorted.
  destruct (subnet_sizes_positive nM HnM) as [H1 H2].
  unfold subnet2_size, subnet1_size in *.
  set (n1 := ((nM + 8) / 10)%nat) in *.
  assert (Hrows : ∀ (s : Z) (n : nat) (a : Address),
            a ∈ (λ j : nat, (s, Z.of_nat j)) <$> seq 0 n
            ↔ a.1 = s ∧ 0 ≤ a.2 < Z.of_nat n).
  { intros s n [a1 a2]. rewrite list_elem_of_fmap. simpl. split.
    - intros (j & [= -> ->] & Hj%elem_of_seq). lia.
    - intros [-> Hj]. exists (Z.to_nat a2). rewrite elem_of_seq.
      split; [f_equal|]; lia. }
  apply (StronglySorted_unique addr_le); [done| |].
  - constructor.
    + apply StronglySorted_app_2; [|apply subnet_row_sorted..].
      intros x1 x2 [Hx1 _]%Hrows [Hx2 _]%Hrows. unfold addr_le. lia.
    + apply Forall_forall. intros a [[Ha _]%Hrows|[Ha _]%Hrows]%elem_of_app;
        unfold addr_le; simpl; lia.
  - apply NoDup_Permutation; [done| |].
    + apply NoDup_cons. split.
      * intros [[Ha _]%Hrows|[Ha _]%Hrows]%elem_of_app; simpl in Ha; lia.
      * apply NoDup_app. split_and!.
        -- apply (NoDup_fmap_2 _). apply NoDup_seq.
        -- intros a [Ha _]%Hrows [Ha' _]%Hrows. lia.
        -- apply (NoDup_fmap_2 _). apply NoDup_seq.
    + intros a. rewrite Hin, elem_of_cons, elem_of_app, !Hrows. 
      replace (Z.of_nat (nM - 1 - n1)) with (Z.of_nat nM - 1 - Z.of_nat n1) by lia.
      tauto.
Qed.

Lemma collect_symbols_app (l1 l2 : list (Address * MachineState)) :
  ∀ subnets,
    collect_symbols (l1 ++ l2) subnets
    = match collect_symbols l1 subnets with
      | Ok subnets' => collect_symbols l2 subnets'
      | Raise e => Raise e
      end.
Proof.
  induction l1 as [|item l1 IH]; intros subnets; [done|]. simpl.
  destruct (append_symbol subnets item); [apply IH|done].
Qed.

(** The symbols of the machines of one subnet go to the row of that
    subnet, in the order of the items. *)
Lemma collect_symbols_subnet (l : list (Address * MachineState)) (s : Z) :
  Forall (λ item, item.1.1 = s) l →
  ∀ r0 r1 r2 : list string,
    let syms := (λ item, _get_machine_symbol item.2) <$> l in
    (s = 0 → collect_symbols l [r0; r1; r2] = Ok [r0 ++ syms; r1; r2]) ∧
    (s = 1 → collect_symbols l [r0; r1; r2] = Ok [r0; r1 ++ syms; r2]) ∧
    (s = 2 → collect_symbols l [r0; r1; r2] = Ok [r0; r1; r2 ++ syms]).
Proof.
  induction 1 as [|[[a1 a2] st] l Hs _ IH]; intros r0 r1 r2; simpl.
  { by rewrite !app_nil_r. }
  simpl in Hs. subst a1.
  split_and!; intros ->; unfold append_symbol, py_index;
    rewrite decide_True by (simpl; lia); simpl.
  - destruct (IH (r0 ++ [_get_machine_symbol st]) r1 r2) as (H0 & _).
    rewrite H0 by done. by rewrite <- app_assoc.
  - destruct (IH r0 (r1 ++ [_get_machine_symbol st]) r2) as (_ & H1 & _).
    rewrite H1 by done. by rewrite <- app_assoc.
  - destruct (IH r0 r1 (r2 ++ [_get_machine_symbol st])) as (_ & _ & H2).
    rewrite H2 by done. by rewrite <- app_assoc.
Qed.

Lemma state_items_row (b : Belief) (s : Z) (n : nat) :
  ∀ start : nat,
    (∀ j : nat, (start ≤ j < start + n)%nat →
                is_Some (b !! ((s, Z.of_nat j) : Address))) →
    Forall (λ item : Address * MachineState, item.1.1 = s)
      (omap (λ m, (λ v, (m, v)) <$> b !! m)
         ((λ j : nat, (s, Z.of_nat j)) <$> seq start n)) ∧
    (λ item : Address * MachineState, _get_machine_symbol item.2)
      <$> omap (λ m, (λ v, (m, v)) <$> b !! m)
            ((λ j : nat, (s, Z.of_nat j)) <$> seq start n)
    = (λ j : nat, symbol_at b (s, Z.of_nat j)) <$> seq start n.
Proof.
  induction n as [|n IH]; intros start Hkeys; [by split; [constructor|]|].
  cbn [seq fmap list_fmap omap list_omap].
  destruct (Hkeys start ltac:(lia)) as [st Hst].
  destruct (IH (S start)) as [Hall Hsyms]; [intros j Hj; apply Hkeys; lia|].
  unfold symbol_at at 1. change (Z * Z)%type with Address. rewrite !Hst.
  simpl. split.
  - by constructor.
  - f_equal. exact Hsyms.
Qed.

Lemma string_app_cons (c : Ascii.ascii) (s1 s2 : string) :
  String c s1 +:+ s2 = String c (s1 +:+ s2).
Proof. reflexivity. Qed.

Lemma string_app_assoc (s1 s2 s3 : string) :
  (s1 +:+ s2) +:+ s3 = s1 +:+ (s2 +:+ s3).
Proof.
  induction s1 as [|c s1 IH]; [done|]. by rewrite !string_app_cons, IH.
Qed.

Lemma string_app_nil_r (s : string) : s +:+ "" = s.
Proof. induction s as [|c s IH]; [done|]. by rewrite string_app_cons, IH. Qed.

Lemma fold_left_append (row : list string) :
  ∀ output : string,
    fold_left String.append row output
    = output +:+ foldr String.append "" row.
Proof.
  induction row as [|col row IH]; intros output; simpl.
  - by rewrite string_app_nil_r.
  - by rewrite IH, string_app_assoc.
Qed.

(** The text written for three rows of which the first holds one symbol
    and the others at least one. *)
Lemma render_three_rows (self : CyberAttackEnv) (b : Belief)
    (r0 r1 r2 : list string) :
  collect_symbols (state_items self b) [[]; []; []] = Ok [r0; r1; r2] →
  length r0 = 1%nat → (0 < length r1)%nat → (0 < length r2)%nat →
  render_object self b
  = (b,
     Ok (newline +:+ "-----------------------------"
         +:+ subnet_line (length r1 `max` length r2) 0 r0
         +:+ connector (length r1 `max` length r2)
         +:+ subnet_line (length r1 `max` length r2) 1 r1
         +:+ connector (length r1 `max` length r2)
         +:+ subnet_line (length r1 `max` length r2) 2 r2
         +:+ "-----------------------------" +:+ newline)).
Proof.
  intros Hrows H0 H1 H2. unfold render_object. rewrite Hrows.
  cbn [fmap list_fmap py_max py_min fold_left length].
  rewrite H0.
  replace ((1 `max` length r1) `max` length r2)%nat
    with (length r1 `max` length r2)%nat by lia.
  replace ((1 `min` length r1) `min` length r2)%nat with 1%nat by lia.
  set (width := (length r1 `max` length r2)%nat).
  do 2 f_equal. cbn [render_rows]. rewrite H0.
  destruct (decide (0 < 3 - 1)%nat); [|lia].
  destruct (decide (1 < 3 - 1)%nat); [|lia].
  destruct (decide (2 < 3 - 1)%nat); [lia|].
  rewrite !fold_left_append.
  unfold subnet_line, connector. rewrite H0.
  change (String.length "subnet X: ") with 10%nat.
  by rewrite !string_app_assoc.
Qed.

Lemma render_object_engine_state (self : CyberAttackEnv) (b : Belief) :
  constructed self → engine_state self b →
  render_object self b = (b, Ok (rendering (nM self) b)).
Proof.
  intros Hc Hes. destruct Hc as (space & Hgen & Hos & _).
  destruct (generate_address_space_facts _ _ Hgen) as (HnM & _).
  destruct (subnet_sizes_positive _ HnM) as [H1 H2].
  unfold subnet2_size, subnet1_size in H1, H2.
  pose proof (generate_address_space_closed_form _ _ Hgen) as Hspace.
  set (n1 := ((nM self + 8) / 10)%nat) in *.
  set (n2 := (nM self - 1 - n1)%nat) in *.
  assert (Hrow : ∀ (s : Z) (n : nat),
            (∀ j : nat, (j < n)%nat → ((s, Z.of_nat j) : Address) ∈ space) →
            Forall (λ item : Address * MachineState, item.1.1 = s)
              (omap (λ m, (λ v, (m, v)) <$> b !! m)
                 ((λ j : nat, (s, Z.of_nat j)) <$> seq 0 n)) ∧
            (λ item : Address * MachineState, _get_machine_symbol item.2)
              <$> omap (λ m, (λ v, (m, v)) <$> b !! m)
                    ((λ j : nat, (s, Z.of_nat j)) <$> seq 0 n)
            = subnet_symbols b s n).
  { intros s n Hin. apply state_items_row. intros j Hj.
    apply (es_keys _ _ Hes). rewrite Hos. simpl. apply Hin. lia. }
  destruct (Hrow 0 1%nat) as [Hall0 Hsym0].
  { intros j Hj. rewrite Hspace. replace j with 0%nat by lia. by left. }
  destruct (Hrow 1 n1) as [Hall1 Hsym1].
  { intros j Hj. rewrite Hspace. right. apply elem_of_app. left.
    apply list_elem_of_fmap. exists j. split; [done|]. apply elem_of_seq. lia. }
  destruct (Hrow 2 n2) as [Hall2 Hsym2].
  { intros j Hj. rewrite Hspace. right. apply elem_of_app. right.
    apply list_elem_of_fmap. exists j. split; [done|]. apply elem_of_seq. lia. }
  assert (Hitems : collect_symbols (state_items self b) [[]; []; []]
                   = Ok [subnet_symbols b 0 1; subnet_symbols b 1 n1;
                         subnet_symbols b 2 n2]).
  { unfold state_items. rewrite Hos. cbn [address_space]. rewrite Hspace.
    change ((0, 0) :: ?l) with (((λ j : nat, (0, Z.of_nat j)) <$> seq 0 1) ++ l).
    rewrite !omap_app, collect_symbols_app.
    change (Z * Z)%type with Address in *.
    rewrite (proj1 (collect_symbols_subnet _ 0 Hall0 [] [] [])) by done.
    rewrite collect_symbols_app.
    rewrite (proj1 (proj2 (collect_symbols_subnet _ 1 Hall1 _ [] []))) by done.
    rewrite (proj2 (proj2 (collect_symbols_subnet _ 2 Hall2 _ _ []))) by done.
    by rewrite Hsym0, Hsym1, Hsym2. }
  rewrite (render_three_rows self b _ _ _ Hitems).
  - unfold rendering, subnet_symbols. by rewrite !length_fmap, !length_seq.
  - unfold subnet_symbols. by rewrite length_fmap, length_seq.
  - unfold subnet_symbols. rewrite length_fmap, length_seq. lia.
  - unfold subnet_symbols. rewrite length_fmap, length_seq. lia.
Qed.

Lemma session_nM (calls : list call) :
  ∀ (self : CyberAttackEnv) (h : heap), nM (session self calls h).1 = nM self.
Proof.
  induction calls as [|[action|] calls IH]; intros self h; cbn [session].
  - done.
  - apply IH.
  - rewrite reset_run. by rewrite IH.
Qed.

(** X16 [render], at any moment of the life of a constructed engine (after
    any sequence of [step] and [reset] calls): it raises nothing, changes
    nothing in the store, and writes one line per subnet, in the order 0,
    1, 2, holding one symbol for each machine of the subnet in the order of
    the machine ids; the lines are centred on the longest one, and a
    connector [|] follows each of the first two. *)
Theorem render_shows_every_machine {R : NumpyRandom} (nM nS : nat)
    (w w' : rng_state * heap) (self : CyberAttackEnv) (calls : list call) :
  CyberAttackEnv_init nM nS w = (w', Ok self) →
  ∃ b,
    (session self calls w'.2).2 !! current_state (session self calls w'.2).1
    = Some b ∧
    render (session self calls w'.2).1 (session self calls w'.2).2
    = ((session self calls w'.2).2, Ok (rendering nM b)).
Proof.
  intros Hinit.
  destruct (constructed_session nM nS w w' self calls Hinit) as (Hc & b & Hb & Hes).
  pose proof (session_nM calls self w'.2) as HnM.
  apply init_inv in Hinit as (? & ? & ? & ? & _ & _ & _ & _ & Hself & _).
  rewrite Hself in HnM at 2. simpl in HnM.
  exists b. split; [done|].
  unfold render, with_object. rewrite Hb.
  rewrite (render_object_engine_state _ b Hc Hes), HnM.
  by rewrite list_insert_id.
Qed.

Lemma render_shows_every_machine_witness :
  ∃ b,
    (session example_env example_calls example_start.1.2).2
      !! current_state (session example_env example_calls example_start.1.2).1
    = Some b ∧
    render (session example_env example_calls example_start.1.2).1
      (session example_env example_calls example_start.1.2).2
    = ((session example_env example_calls example_start.1.2).2,
       Ok (rendering 4 b)).
Proof.
  apply (render_shows_every_machine (R := lcg_random) 4 1 (0, [])
           example_start.1 example_env example_calls).
  vm_compute. reflexivity.
Defined.

(** ** AddressSpace.contains on other values *)

(** X17 [AddressSpace.contains] on values that are not pairs of integers:
    anything that is not a tuple or a list of length 2 (an integer, [None],
    a longer or shorter sequence) is answered [False] without a search,
    and a pair whose first component is [None] or a sequence raises
    [TypeError], from the first comparison of the search. *)
Theorem contains_on_other_values (nM : nat) (space : list Address) :
  generate_address_space nM = Ok space →
  (∀ x : PyVal,
     (∀ x0 x1, x ≠ PyTuple [x0; x1] ∧ x ≠ PyList [x0; x1]) →
     contains space x = Ok false) ∧
  (∀ x0 x1 : PyVal,
     (∀ z, x0 ≠ PyInt z) →
     contains space (PyTuple [x0; x1]) = Raise TypeError ∧
     contains space (PyList [x0; x1]) = Raise TypeError).
Proof.
  intros Hgen. split; [intros x; apply contains_not_a_pair|].
  intros x0 x1 Hx0.
  destruct (generate_address_space_facts _ _ Hgen) as (HnM & Hlen & _).
  assert (contains space (PyTuple [x0; x1]) = Raise TypeError) as Htuple.
  { unfold contains, bisect_left. rewrite Hlen.
    destruct nM as [|n]; [lia|]. cbn [bisect_loop].
    rewrite decide_True by lia.
    destruct (lookup_lt_is_Some_2 space ((0 + S n) / 2)) as [am ->].
    { rewrite Hlen. apply Nat.Div0.div_lt_upper_bound. lia. }
    unfold addr_lt_py.
    assert (int_eq_py am.1 x0 = false) as -> by (destruct x0; naive_solver).
    simpl. by destruct x0; [naive_solver|..]. }
  done.
Qed.

Lemma contains_on_other_values_witness :
  (∀ x : PyVal,
     (∀ x0 x1, x ≠ PyTuple [x0; x1] ∧ x ≠ PyList [x0; x1]) →
     contains [(0, 0); (1, 0); (2, 0); (2, 1)] x = Ok false) ∧
  (∀ x0 x1 : PyVal,
     (∀ z, x0 ≠ PyInt z) →
     contains [(0, 0); (1, 0); (2, 0); (2, 1)] (PyTuple [x0; x1]) = Raise TypeError ∧
     contains [(0, 0); (1, 0); (2, 0); (2, 1)] (PyList [x0; x1]) = Raise TypeError).
Proof.
  apply (contains_on_other_values 4 [(0, 0); (1, 0); (2, 0); (2, 1)]).
  vm_compute. reflexivity.
Defined.

(** ** Knowledge is never lost within an episode *)

Lemma keeps_knowledge_refl (b : Belief) : keeps_knowledge b b.
Proof. intros a st i v Hb Hv _. eauto. Qed.

Lemma keeps_knowledge_trans (b1 b2 b3 : Belief) :
  keeps_knowledge b1 b2 → keeps_knowledge b2 b3 → keeps_knowledge b1 b3.
Proof.
  intros H12 H23 a st i v Hb Hv Hknown.
  destruct (H12 a st i v Hb Hv Hknown) as (st2 & Hb2 & Hv2).
  exact (H23 a st2 i v Hb2 Hv2 Hknown).
Qed.

Lemma keeps_knowledge_insert (b : Belief) (t : Address) (st st' : MachineState) :
  b !! t = Some st →
  (∀ i v, services st !! i = Some v → v ≠ UNKNOWN → services st' !! i = Some v) →
  keeps_knowledge b (<[t := st']> b).
Proof.
  intros Hb Hkeep a sta i v Ha Hv Hknown.
  destruct (decide (a = t)) as [->|Hne].
  - rewrite lookup_insert_eq. exists st'. split; [done|].
    apply Hkeep; [|done]. congruence.
  - rewrite lookup_insert_ne by done. eauto.
Qed.

Lemma keeps_knowledge_set_reachable (b : Belief) :
  keeps_knowledge b (set_reachable <$> b).
Proof.
  intros a st i v Hb Hv _. rewrite lookup_fmap, Hb. simpl. eauto.
Qed.

(** What a sound belief record knows is what revealing the machine shows. *)
Lemma sound_belief_revealed (m : Machine) (st : MachineState) (i : nat)
    (v : ServiceState) :
  sound_belief m st → services st !! i = Some v → v ≠ UNKNOWN →
  (revealed <$> m_services m) !! i = Some v.
Proof.
  intros (_ & Hpres & Habs & _) Hv Hknown. rewrite list_lookup_fmap.
  destruct v; [done| |].
  - by rewrite (Hpres i Hv).
  - by rewrite (Habs i Hv).
Qed.

Lemma step_object_keeps_knowledge (self : CyberAttackEnv) (action : Action)
    (b : Belief) :
  constructed self → engine_state self b →
  keeps_knowledge b (step_object self action b).1.
Proof.
  intros Hc Hes.
  pose proof (step_object_classify self action b
                (constructed_consistent _ _ Hc Hes)) as Hcase.
  destruct Hcase as [?|st ? ?|st m ? ? ? ? ?|st m dn Hb Hr Hcomp Hnet Hk _
                    |st m dn Hb Hr Hcomp Hnet Hk Hrange Hp _
                    |st m dn Hb Hr Hcomp Hnet Hk Hrange Hp _]; simpl;
    try apply keeps_knowledge_refl.
  - destruct (es_sound _ _ Hes _ _ Hb) as (m' & Hm' & Hsound).
    assert (m' = m) as -> by congruence.
    apply (keeps_knowledge_insert b _ st); [done|]. simpl.
    intros i v. by apply sound_belief_revealed.
  - destruct (es_sound _ _ Hes _ _ Hb) as (m' & Hm' & Hsound).
    assert (m' = m) as -> by congruence.
    assert (keeps_knowledge b
              (<[a_target action :=
                   mkMachineState (revealed <$> m_services m) true
                     (sensitive st) (reachable st)]> b)) as Hins.
    { apply (keeps_knowledge_insert b _ st); [done|]. simpl.
      intros i v. by apply sound_belief_revealed. }
    unfold after_exploit_success. destruct ((a_target action).1 =? 0); [|done].
    eapply keeps_knowledge_trans; [exact Hins|].
    apply keeps_knowledge_set_reachable.
  - destruct (es_sound _ _ Hes _ _ Hb) as (m' & Hm' & Hlen & Hpres & Habs & Hall).
    assert (m' = m) as -> by congruence.
    assert (Heff : 1 ≤ effective_kind (length (m_services m)) (a_action action)
                   ≤ Z.of_nat (length (m_services m))).
    { unfold kind_in_range, effective_kind, SCAN in *. case_decide; lia. }
    set (n := Z.to_nat (effective_kind (length (m_services m)) (a_action action) - 1)) in *.
    assert (Hn : (n < length (m_services m))%nat) by lia.
    assert (Htruth : m_services m !! n = Some false).
    { unfold service_present in Hp. fold n in Hp.
      destruct (lookup_lt_is_Some_2 _ _ Hn) as [x Hx]. rewrite Hx in Hp |- *.
      simpl in Hp. by subst. }
    unfold after_exploit_failure. simpl. fold n.
    apply (keeps_knowledge_insert b _ st); [done|]. simpl.
    intros i v Hv Hknown. destruct (decide (i = n)) as [->|Hne].
    + rewrite list_lookup_insert_eq by lia. destruct v; [done| |done].
      rewrite (Hpres n Hv) in Htruth. done.
    + by rewrite list_lookup_insert_ne.
Qed.

Lemma run_object_keeps_knowledge (self : CyberAttackEnv) (actions : list Action) :
  constructed self →
  ∀ b : Belief,
    engine_state self b →
    keeps_knowledge b (run_object self actions b).1.
Proof.
  intros Hc. induction actions as [|a actions IH]; intros b Hes.
  - apply keeps_knowledge_refl.
  - pose proof (step_object_keeps_knowledge self a b Hc Hes) as Hstep.
    pose proof (step_object_engine_state self a b Hc Hes) as Hes1.
    cbn [run_object]. destruct (step_object self a b) as [b1 r1].
    cbn [fst] in Hstep, Hes1. specialize (IH b1 Hes1).
    destruct (run_object self actions b1) as [b2 rs]. cbn [fst] in *.
    by eapply keeps_knowledge_trans.
Qed.

(** X18 Knowledge is never lost within an episode: in a constructed
    engine, at any moment of its life, a service that the belief state
    holds Present or Absent is held so, unchanged, after any further
    sequence of [step] calls, although every successful scan or exploit
    overwrites the whole service vector of its target. *)
Theorem knowledge_is_kept {R : NumpyRandom} (nM nS : nat)
    (w w' : rng_state * heap) (self : CyberAttackEnv)
    (calls : list call) (actions : list Action) :
  CyberAttackEnv_init nM nS w = (w', Ok self) →
  ∃ b b',
    (session self calls w'.2).2 !! current_state (session self calls w'.2).1
    = Some b ∧
    (run (session self calls w'.2).1 actions (session self calls w'.2).2).1
      !! current_state (session self calls w'.2).1
    = Some b' ∧
    ∀ (a : Address) (st : MachineState) (i : nat) (v : ServiceState),
      b !! a = Some st → services st !! i = Some v → v ≠ UNKNOWN →
      ∃ st', b' !! a = Some st' ∧ services st' !! i = Some v.
Proof.
  intros Hinit.
  destruct (constructed_session nM nS w w' self calls Hinit) as (Hc & b & Hb & Hes).
  destruct (run_on_object _ actions _ _ Hb) as [_ Hb'].
  exists b, (run_object (session self calls w'.2).1 actions b).1.
  split; [done|]. split; [done|].
  by apply run_object_keeps_knowledge.
Qed.

Lemma knowledge_is_kept_witness :
  ∃ b b',
    (session example_env3 [Step (scan (0, 0))] example_heap3).2
      !! current_state (session example_env3 [Step (scan (0, 0))] example_heap3).1
    = Some b ∧
    (run (session example_env3 [Step (scan (0, 0))] example_heap3).1
         [exploit (0, 0) 1; exploit (0, 0) 3; scan (1, 0)]
         (session example_env3 [Step (scan (0, 0))] example_heap3).2).1
      !! current_state (session example_env3 [Step (scan (0, 0))] example_heap3).1
    = Some b' ∧
    ∀ (a : Address) (st : MachineState) (i : nat) (v : ServiceState),
      b !! a = Some st → services st !! i = Some v → v ≠ UNKNOWN →
      ∃ st', b' !! a = Some st' ∧ services st' !! i = Some v.
Proof.
  apply (knowledge_is_kept (R := lcg_random) 3 3 (0, []) example_start3.1
           example_env3 [Step (scan (0, 0))]
           [exploit (0, 0) 1; exploit (0, 0) 3; scan (1, 0)]).
  vm_compute. reflexivity.
Defined.
